(** * Stackdriver input: the time-series harvesting engine

    A shallow embedding of [plugins/inputs/stackdriver] (package
    [stackdriver]) of the circonus-unified-agent, and the properties of its
    window scheduler, request-config builder, config cache, distribution
    converter, collection cycle and API client. *)

From Stdlib Require Import ZArith Lia List Ascii String Floats.
From stdpp Require Import gmap strings list fin_maps.

Local Open Scope string_scope.
Local Open Scope Z_scope.

(** * The program *)

(** ** Machine integers

    Go's [int32] and [int64] are modelled as [Z] with the wrap-around of the
    two's complement arithmetic written out. *)

Module Int.

Definition wrap (bits : Z) (z : Z) : Z :=
  (z + 2 ^ (bits - 1)) mod 2 ^ bits - 2 ^ (bits - 1).

Definition int32 (z : Z) : Z := wrap 32 z.
Definition int64 (z : Z) : Z := wrap 64 z.

Definition min_int64 : Z := - 2 ^ 63.
Definition max_int64 : Z := 2 ^ 63 - 1.
Definition min_int32 : Z := - 2 ^ 31.
Definition max_int32 : Z := 2 ^ 31 - 1.

Definition in_int32 (z : Z) : Prop := min_int32 <= z <= max_int32.
Definition in_int64 (z : Z) : Prop := min_int64 <= z <= max_int64.

End Int.

(** ** Strings

    Go strings are byte strings; they are modelled as [string]. *)

Module Strings.

(** [strings.HasPrefix(s, p)]. *)
Definition HasPrefix (s p : string) : bool := String.prefix p s.

(** [strings.LastIndex(s, "/")]: the byte index of the last ['/'], or [-1]. *)
Fixpoint LastIndex_from (i : Z) (s : string) (c : ascii) (found : Z) : Z :=
  match s with
  | EmptyString => found
  | String a s' =>
      LastIndex_from (i + 1) s' c (if Ascii.eqb a c then i else found)
  end.

Definition LastIndexByte (s : string) (c : ascii) : Z :=
  LastIndex_from 0 s c (-1).

(** The slice expressions [s[:i]] and [s[i:]] for [0 <= i <= len(s)]. *)
Definition slice_to (s : string) (i : Z) : string :=
  String.substring 0 (Z.to_nat i) s.

Definition slice_from (s : string) (i : Z) : string :=
  String.substring (Z.to_nat i) (String.length s - Z.to_nat i) s.

(** [strings.ToLower] on the ASCII range; bytes outside ['A'..'Z'] are kept. *)
Definition lower_ascii (a : ascii) : ascii :=
  let n := nat_of_ascii a in
  if ((65 <=? n) && (n <=? 90))%nat then ascii_of_nat (n + 32) else a.

Fixpoint ToLower (s : string) : string :=
  match s with
  | EmptyString => EmptyString
  | String a s' => String (lower_ascii a) (ToLower s')
  end.

(** [strings.Join(elems, sep)]. *)
Definition Join (elems : list string) (sep : string) : string :=
  String.concat sep elems.

(** Whether the byte [c] occurs in [s]. *)
Fixpoint contains_byte (s : string) (c : ascii) : bool :=
  match s with
  | EmptyString => false
  | String a s' => Ascii.eqb a c || contains_byte s' c
  end.

End Strings.

(** ** Instants and durations

    A [time.Time] is an instant, counted here in nanoseconds since the zero
    [Time] (January 1, year 1, 00:00:00 UTC); Go's [Time] spans far more than
    any [Duration] reaches from the present, so instants are unbounded
    integers.  A [time.Duration] is an [int64] count of nanoseconds. *)

Module Time.

Definition Time := Z.
Definition Duration := Z.

Definition Nanosecond : Duration := 1.
Definition Second : Duration := 1000000000.
Definition Minute : Duration := 60 * Second.
Definition Hour : Duration := 60 * Minute.

(** Seconds between the zero [Time] and the Unix epoch. *)
Definition unixToInternal : Z := 62135596800.

(** [t.IsZero()]. *)
Definition IsZero (t : Time) : bool := t =? 0.

(** The unary minus of a [Duration]: [int64] negation, which wraps. *)
Definition neg (d : Duration) : Duration := Int.int64 (- d).

(** [t.Add(d)]. *)
Definition Add (t : Time) (d : Duration) : Time := t + d.

(** [t.Sub(u)]: the difference, saturated to the range of [Duration]. *)
Definition Sub (t u : Time) : Duration :=
  if t - u <? Int.min_int64 then Int.min_int64
  else if Int.max_int64 <? t - u then Int.max_int64
  else t - u.

(** [t.Unix()]: whole seconds since the Unix epoch. *)
Definition Unix (t : Time) : Z := t / Second - unixToInternal.

(** [time.Unix(sec, 0)]. *)
Definition FromUnix (sec : Z) : Time := (sec + unixToInternal) * Second.

End Time.


Abbreviation Time := Time.Time.
Abbreviation Duration := Time.Duration.

(** ** The remote API's messages (packages [monitoringpb], [metricpb],
    [distributionpb]) *)

Definition error := string.

(** The double quote character, and [fmt.Errorf("<msg>: %w", err)]. *)
Definition dq : string := String (ascii_of_nat 34) EmptyString.

Definition wrap_error (msg : string) (err : error) : error :=
  msg +:+ ": " +:+ err.

Inductive MetricDescriptor_ValueType :=
| VALUE_TYPE_UNSPECIFIED | BOOL | INT64 | DOUBLE | STRING | DISTRIBUTION
| MONEY.

(** Protocol buffer enumerations are open: a number outside the four
    enumerants can arrive on the wire. *)
Inductive MetricDescriptor_MetricKind :=
| METRIC_KIND_UNSPECIFIED | GAUGE | DELTA | CUMULATIVE
| METRIC_KIND_other (n : Z).

#[global] Instance MetricDescriptor_ValueType_eq_dec :
  EqDecision MetricDescriptor_ValueType.
Proof. solve_decision. Defined.

#[global] Instance MetricDescriptor_MetricKind_eq_dec :
  EqDecision MetricDescriptor_MetricKind.
Proof. solve_decision. Defined.

Record MetricDescriptor := {
  md_Type : string;
  md_ValueType : MetricDescriptor_ValueType;
}.

(** [Distribution_BucketOptions]: the [Options] oneof.  An absent layout (a
    nil [BucketOptions], or an unset oneof) is [None] where the message is
    used. *)
Inductive BucketOptions :=
| LinearBuckets (NumFiniteBuckets : Z) (Width Offset : float)
| ExponentialBuckets (NumFiniteBuckets : Z) (GrowthFactor Scale : float)
| ExplicitBuckets (Bounds : list float).

Record Distribution_Range := { Min : float; Max : float }.

Record Distribution := {
  Count : Z;
  Mean : float;
  SumOfSquaredDeviation : float;
  Range : option Distribution_Range;
  BucketOptions_ : option BucketOptions;
  BucketCounts : list Z;
}.

(** [TypedValue]: the [Value] oneof; [TV_unset] is a value with no case set. *)
Inductive TypedValue :=
| TV_BoolValue (b : bool)
| TV_Int64Value (z : Z)
| TV_DoubleValue (f : float)
| TV_StringValue (s : string)
| TV_DistributionValue (d : Distribution)
| TV_unset.

Definition GetBoolValue (v : TypedValue) : bool :=
  match v with TV_BoolValue b => b | _ => false end.
Definition GetInt64Value (v : TypedValue) : Z :=
  match v with TV_Int64Value z => z | _ => 0 end.
Definition GetDoubleValue (v : TypedValue) : float :=
  match v with TV_DoubleValue f => f | _ => 0%float end.
Definition GetStringValue (v : TypedValue) : string :=
  match v with TV_StringValue s => s | _ => EmptyString end.
Definition GetDistributionValue (v : TypedValue) : option Distribution :=
  match v with TV_DistributionValue d => Some d | _ => None end.

Record Point := {
  pt_EndTime_Seconds : Z;
  pt_Value : TypedValue;
}.

Record TimeSeries := {
  ts_Metric_Labels : gmap string string;
  ts_Resource_Type : string;
  ts_Resource_Labels : gmap string string;
  ts_MetricKind : MetricDescriptor_MetricKind;
  ts_ValueType : MetricDescriptor_ValueType;
  ts_Points : list Point;
}.

Record TimeInterval := {
  EndTime_Seconds : Z;
  StartTime_Seconds : Z;
}.

Record Aggregation := {
  AlignmentPeriod_Seconds : Z;
  PerSeriesAligner : Z;
}.

Record ListTimeSeriesRequest := {
  req_Name : string;
  req_Filter : string;
  req_Interval : TimeInterval;
  req_Aggregation : option Aggregation;
}.

Record ListMetricDescriptorsRequest := {
  mdreq_Name : string;
  mdreq_Filter : string;
}.

(** The generated tables [Aggregation_Aligner_value] and
    [Aggregation_Aligner_name] of [monitoringpb]. *)
Definition Aggregation_Aligner_table : list (string * Z) :=
  [ ("ALIGN_NONE", 0); ("ALIGN_DELTA", 1); ("ALIGN_RATE", 2);
    ("ALIGN_INTERPOLATE", 3); ("ALIGN_NEXT_OLDER", 4); ("ALIGN_MIN", 10);
    ("ALIGN_MAX", 11); ("ALIGN_MEAN", 12); ("ALIGN_COUNT", 13);
    ("ALIGN_SUM", 14); ("ALIGN_STDDEV", 15); ("ALIGN_COUNT_TRUE", 16);
    ("ALIGN_COUNT_FALSE", 24); ("ALIGN_FRACTION_TRUE", 17);
    ("ALIGN_PERCENTILE_99", 18); ("ALIGN_PERCENTILE_95", 19);
    ("ALIGN_PERCENTILE_50", 20); ("ALIGN_PERCENTILE_05", 21);
    ("ALIGN_PERCENT_CHANGE", 23) ].

Definition Aggregation_Aligner_value : gmap string Z :=
  list_to_map Aggregation_Aligner_table.

Definition Aggregation_Aligner_name : gmap Z string :=
  list_to_map (map (fun p => (snd p, fst p)) Aggregation_Aligner_table).

(** A Go map read [m[k]]: the value and whether the key is present; the zero
    value stands in for a missing key. *)
Definition map_get2 `{Countable K} {V} (zero : V) (m : gmap K V) (k : K)
  : V * bool :=
  match m !! k with Some v => (v, true) | None => (zero, false) end.

Definition map_get `{Countable K} {V} (zero : V) (m : gmap K V) (k : K) : V :=
  fst (map_get2 zero m k).

(** ** Configuration and engine state *)

Record Label := {
  Key : string;
  Value : string;
}.

Record ListTimeSeriesFilter := {
  ResourceLabels : list Label;
  MetricLabels : list Label;
}.

Record timeSeriesConf := {
  listTimeSeriesRequest : ListTimeSeriesRequest;
  measurement : string;
  fieldKey : string;
}.

(** [TimeSeriesConfs] is a slice; [None] is the nil slice, which [IsValid]
    tells apart from an empty one. *)
Record timeSeriesConfCache := {
  Generated : Time;
  TimeSeriesConfs : option (list timeSeriesConf);
  TTL : Duration;
}.

(** The [metricClient] interface.  During one cycle the remote service is a
    function of the request; a call yields an error, or the items its
    channel delivers until it is closed. *)
Record metricClient := {
  ListMetricDescriptors :
    ListMetricDescriptorsRequest -> error + list MetricDescriptor;
  ListTimeSeries : ListTimeSeriesRequest -> error + list TimeSeries;
}.

Record Stackdriver := {
  prevEnd : Time;
  client : option metricClient;
  timeSeriesConfCache_ : option timeSeriesConfCache;
  Filter : option ListTimeSeriesFilter;
  Project : string;
  MetricTypePrefixExclude : list string;
  MetricTypePrefixInclude : list string;
  DistributionAggregationAligners : list string;
  CacheTTL : Duration;
  Delay : Duration;
  Window : Duration;
  RateLimit : Z;
  GatherRawDistributionBuckets : bool;
}.

Definition defaultRateLimit : Z := 14.
Definition defaultCacheTTL : Duration := 1 * Time.Hour.
Definition defaultWindow : Duration := 1 * Time.Minute.
Definition defaultDelay : Duration := 5 * Time.Minute.

Definition set_prevEnd (s : Stackdriver) (t : Time) : Stackdriver :=
  {| prevEnd := t; client := client s;
     timeSeriesConfCache_ := timeSeriesConfCache_ s; Filter := Filter s;
     Project := Project s;
     MetricTypePrefixExclude := MetricTypePrefixExclude s;
     MetricTypePrefixInclude := MetricTypePrefixInclude s;
     DistributionAggregationAligners := DistributionAggregationAligners s;
     CacheTTL := CacheTTL s; Delay := Delay s; Window := Window s;
     RateLimit := RateLimit s;
     GatherRawDistributionBuckets := GatherRawDistributionBuckets s |}.

Definition set_client (s : Stackdriver) (c : option metricClient)
  : Stackdriver :=
  {| prevEnd := prevEnd s; client := c;
     timeSeriesConfCache_ := timeSeriesConfCache_ s; Filter := Filter s;
     Project := Project s;
     MetricTypePrefixExclude := MetricTypePrefixExclude s;
     MetricTypePrefixInclude := MetricTypePrefixInclude s;
     DistributionAggregationAligners := DistributionAggregationAligners s;
     CacheTTL := CacheTTL s; Delay := Delay s; Window := Window s;
     RateLimit := RateLimit s;
     GatherRawDistributionBuckets := GatherRawDistributionBuckets s |}.

Definition set_cache (s : Stackdriver) (c : option timeSeriesConfCache)
  : Stackdriver :=
  {| prevEnd := prevEnd s; client := client s;
     timeSeriesConfCache_ := c; Filter := Filter s;
     Project := Project s;
     MetricTypePrefixExclude := MetricTypePrefixExclude s;
     MetricTypePrefixInclude := MetricTypePrefixInclude s;
     DistributionAggregationAligners := DistributionAggregationAligners s;
     CacheTTL := CacheTTL s; Delay := Delay s; Window := Window s;
     RateLimit := RateLimit s;
     GatherRawDistributionBuckets := GatherRawDistributionBuckets s |}.

Definition set_RateLimit (s : Stackdriver) (r : Z) : Stackdriver :=
  {| prevEnd := prevEnd s; client := client s;
     timeSeriesConfCache_ := timeSeriesConfCache_ s; Filter := Filter s;
     Project := Project s;
     MetricTypePrefixExclude := MetricTypePrefixExclude s;
     MetricTypePrefixInclude := MetricTypePrefixInclude s;
     DistributionAggregationAligners := DistributionAggregationAligners s;
     CacheTTL := CacheTTL s; Delay := Delay s; Window := Window s;
     RateLimit := r;
     GatherRawDistributionBuckets := GatherRawDistributionBuckets s |}.

(** [len] of a slice. *)
Definition len {A} (l : list A) : Z := Z.of_nat (length l).

(** ** Filter strings and request configurations *)

Definition includeExcludeHelper (key : string) (includes excludes : list string)
  : bool :=
  if 0 <? len includes then existsb (Strings.HasPrefix key) includes
  else if 0 <? len excludes then
    negb (existsb (Strings.HasPrefix key) excludes)
  else true.

Definition functions : list string :=
  ["starts_with"; "ends_with"; "has_substring"; "one_of"].

(** [fmt.Sprintf(valueFmt, label.Key, label.Value)] for the two formats
    [<scope>%s = %s] and [<scope>%s = "%s"]. *)
Definition Sprintf_label (scope : string) (quoted : bool) (k v : string)
  : string :=
  if quoted then scope +:+ k +:+ " = " +:+ dq +:+ v +:+ dq
  else scope +:+ k +:+ " = " +:+ v.

Definition resourceLabelsFilter (labels : list Label) : list string :=
  map (fun resourceLabel =>
         if includeExcludeHelper (Value resourceLabel) functions []
         then Sprintf_label "resource.labels." false
                (Key resourceLabel) (Value resourceLabel)
         else Sprintf_label "resource.labels." true
                (Key resourceLabel) (Value resourceLabel)) labels.

Definition metricLabelsFilter (labels : list Label) : list string :=
  map (fun metricLabel =>
         if includeExcludeHelper (Value metricLabel) functions []
         then Sprintf_label "metric.labels." false
                (Key metricLabel) (Value metricLabel)
         else Sprintf_label "metric.labels." true
                (Key metricLabel) (Value metricLabel)) labels.

(** The [if len(filter) == 1 {...} else {...}] that appends one group. *)
Definition append_group (filterString : string) (group : list string)
  : string :=
  if len group =? 1 then filterString +:+ " AND " +:+ nth 0 group EmptyString
  else filterString +:+ " AND (" +:+ Strings.Join group " OR " +:+ ")".

Definition newListTimeSeriesFilter (s : Stackdriver) (metricType : string)
  : string :=
  let filterString := "metric.type = " +:+ dq +:+ metricType +:+ dq in
  match Filter s with
  | None => filterString
  | Some f =>
      let filterString :=
        if 0 <? len (ResourceLabels f)
        then append_group filterString (resourceLabelsFilter (ResourceLabels f))
        else filterString in
      let filterString :=
        if 0 <? len (MetricLabels f)
        then append_group filterString (metricLabelsFilter (MetricLabels f))
        else filterString in
      filterString
  end.

Definition newTimeSeriesConf (s : Stackdriver) (metricType : string)
    (startTime endTime : Time) : timeSeriesConf :=
  let filter := newListTimeSeriesFilter s metricType in
  let interval :=
    {| EndTime_Seconds := Time.Unix endTime;
       StartTime_Seconds := Time.Unix startTime |} in
  let tsReq :=
    {| req_Name := "projects/" +:+ Project s;
       req_Filter := filter;
       req_Interval := interval;
       req_Aggregation := None |} in
  let slashIdx := Strings.LastIndexByte metricType "/"%char in
  if 0 <? slashIdx then
    {| listTimeSeriesRequest := tsReq;
       measurement := Strings.slice_to metricType slashIdx;
       fieldKey := Strings.slice_from metricType (slashIdx + 1) |}
  else
    {| listTimeSeriesRequest := tsReq;
       measurement := metricType;
       fieldKey := "value" |}.

Definition set_Aggregation (r : ListTimeSeriesRequest) (a : option Aggregation)
  : ListTimeSeriesRequest :=
  {| req_Name := req_Name r; req_Filter := req_Filter r;
     req_Interval := req_Interval r; req_Aggregation := a |}.

Definition set_Interval (r : ListTimeSeriesRequest) (i : TimeInterval)
  : ListTimeSeriesRequest :=
  {| req_Name := req_Name r; req_Filter := req_Filter r;
     req_Interval := i; req_Aggregation := req_Aggregation r |}.

(** [initForAggregate] updates the configuration in place; the updated
    configuration is returned. *)
Definition initForAggregate (t : timeSeriesConf) (alignerStr : string)
  : timeSeriesConf :=
  let '(alignerInt, isValid) :=
    map_get2 0 Aggregation_Aligner_value alignerStr in
  let alignerStr :=
    if negb isValid
    then map_get EmptyString Aggregation_Aligner_name alignerInt
    else alignerStr in
  let aligner := alignerInt in
  let agg :=
    {| AlignmentPeriod_Seconds := 60; PerSeriesAligner := aligner |} in
  {| listTimeSeriesRequest :=
       set_Aggregation (listTimeSeriesRequest t) (Some agg);
     measurement := measurement t;
     fieldKey := fieldKey t +:+ "_" +:+ Strings.ToLower alignerStr |}.

(** ** The distribution converter *)

(** What the engine takes from Go's standard library and cannot be computed
    from the source: [math.Pow], the verb [%e] of [fmt] (a float in
    scientific notation) and the verb [%q] (a quoted string). *)
Class GoRuntime := {
  math_Pow : float -> float -> float;
  fmt_e : float -> string;
  fmt_q : string -> string;
}.

(** [float64(i)] for an [int32]. *)
Definition float64_of_int32 (i : Z) : float :=
  if i <? 0 then PrimFloat.opp (PrimFloat.of_uint63 (Uint63.of_Z (- i)))
  else PrimFloat.of_uint63 (Uint63.of_Z i).

(** The overflow bucket's bound, written [10e+127] in the source: the
    binary64 value closest to 10^128. *)
Definition overflow_bound : float := 0x1.27748f9301d32p+425%float.

(** The slice reads of the converter, logged as they happen. *)
Inductive SliceRead :=
| ReadBucketCount (i : Z)
| ReadBound (i : Z).

(** [l[i]]: out of range the read panics ([None]). *)
Definition index {A} (l : list A) (i : Z) : option A :=
  if (0 <=? i) && (i <? len l) then l !! Z.to_nat i else None.

Record histo := {
  ret : gmap string Z;
  count : Z;
  reads : list SliceRead;
}.

Section Converter.

Context `{GoRuntime}.

(** The first [switch]: the number of buckets.  With no layout present the
    [default] case reads [explicitBuckets.Bounds] through a nil pointer. *)
Definition numBuckets (options : option BucketOptions) : option Z :=
  match options with
  | Some (LinearBuckets NumFiniteBuckets _ _) =>
      Some (Int.int32 (NumFiniteBuckets + 2))
  | Some (ExponentialBuckets NumFiniteBuckets _ _) =>
      Some (Int.int32 (NumFiniteBuckets + 2))
  | Some (ExplicitBuckets Bounds) =>
      Some (Int.int32 (Int.int32 (len Bounds) + 1))
  | None => None
  end.

(** The second [switch]: the upper bound of bucket [i], with the reads it
    makes.  The product and the sum of the linear layout are rounded one
    after the other, as the compiler for amd64 does. *)
Definition upperBound (options : BucketOptions) (numBuckets i : Z)
  : option (float * list SliceRead) :=
  if i =? 0 then Some (0%float, [])
  else if i =? Int.int32 (numBuckets - 1) then Some (overflow_bound, [])
  else
    match options with
    | LinearBuckets _ Width Offset =>
        Some ((Offset + Width * float64_of_int32 i)%float, [])
    | ExponentialBuckets _ GrowthFactor Scale =>
        let width := math_Pow GrowthFactor (float64_of_int32 i) in
        Some ((Scale * width)%float, [])
    | ExplicitBuckets Bounds =>
        b ← index Bounds i; Some (b, [ReadBound i])
    end.

(** One iteration of the loop over the bucket indices. *)
Definition bucket (metric : Distribution) (options : BucketOptions)
    (numBuckets i : Z) (st : histo) : option histo :=
  '(localCount, st) ←
    (if i <? Int.int32 (len (BucketCounts metric)) then
       localCount ← index (BucketCounts metric) i;
       Some (localCount,
             {| ret := ret st;
                count := Int.int64 (count st + localCount);
                reads := reads st ++ [ReadBucketCount i] |})
     else Some (0, st));
  if 0 <? localCount then
    '(upperBound, rs) ← upperBound options numBuckets i;
    Some {| ret := <[fmt_e upperBound := localCount]> (ret st);
            count := count st;
            reads := reads st ++ rs |}
  else Some st.

(** [for i = 0; i < numBuckets; i++]: [n] iterations from index [i]. *)
Fixpoint buckets (metric : Distribution) (options : BucketOptions)
    (numBuckets : Z) (n : nat) (i : Z) (st : histo) : option histo :=
  match n with
  | O => Some st
  | S n' =>
      st' ← bucket metric options numBuckets i st;
      buckets metric options numBuckets n' (i + 1) st'
  end.

Definition distributionToCircHisto_run
    (metric : Distribution) (options : option BucketOptions) : option histo :=
  numBuckets ← numBuckets options;
  options ← options;
  buckets metric options numBuckets (Z.to_nat numBuckets) 0
    {| ret := ∅; count := 0; reads := [] |}.

Definition distributionToCircHisto
    (metric : Distribution) (options : option BucketOptions)
  : option (gmap string Z) :=
  ret <$> distributionToCircHisto_run metric options.

End Converter.

(** ** Metrics, the series grouper and the accumulator *)

(** A field value, an [interface{}] in the source: Go's [int], [int64],
    [float64] and [string], and the nil interface. *)
Inductive FieldValue :=
| V_int (z : Z)
| V_int64 (z : Z)
| V_float64 (f : float)
| V_string (s : string)
| V_nil.

(** Modelled from the spec: the metric types of package [cua] that the
    engine names, and the type of a metric built without one. *)
Inductive cua_ValueType := Untyped | Histogram | CumulativeHistogram.

(** Modelled from the spec: a metric of package [metric], made by
    [cuametric.New(name, tags, fields, tm, tp)] and extended by
    [AddField(key, value)], which sets the field [key]. *)
Record Metric := {
  m_name : string;
  m_tags : gmap string string;
  m_fields : gmap string FieldValue;
  m_time : Time;
  m_type : cua_ValueType;
}.

(** Modelled from the spec: [cuametric.New], which in this use returns no
    error. *)
Definition cuametric_New (name : string) (tags : gmap string string)
    (fields : gmap string FieldValue) (tm : Time) (tp : cua_ValueType)
  : Metric :=
  {| m_name := name; m_tags := tags; m_fields := fields; m_time := tm;
     m_type := tp |}.

(** Modelled from the spec: [AddField] of a metric. *)
Definition AddField (m : Metric) (key : string) (value : FieldValue) : Metric :=
  {| m_name := m_name m; m_tags := m_tags m;
     m_fields := <[key := value]> (m_fields m);
     m_time := m_time m; m_type := m_type m |}.

(** Modelled from the spec: the [SeriesGrouper] of package [metric], the
    accumulator behind [lockedSeriesGrouper].  It is taken for the sequence
    of the calls of [SeriesGrouper.Add] it has received; this is one
    call. *)
Record GrouperAdd := {
  add_measurement : string;
  add_tags : gmap string string;
  add_tm : Time;
  add_field : string;
  add_fieldValue : FieldValue;
}.

(** Modelled from the spec: [SeriesGrouper.Metrics()], one metric per
    (measurement, tag set, timestamp), whose fields accumulate by key. *)
Fixpoint group_add (ms : list Metric) (a : GrouperAdd) : list Metric :=
  match ms with
  | [] =>
      [ cuametric_New (add_measurement a) (add_tags a)
          {[ add_field a := add_fieldValue a ]} (add_tm a) Untyped ]
  | m :: ms' =>
      if bool_decide (m_name m = add_measurement a /\
                      m_tags m = add_tags a /\ m_time m = add_tm a)
      then AddField m (add_field a) (add_fieldValue a) :: ms'
      else m :: group_add ms' a
  end.

Definition SeriesGrouper_Metrics (g : list GrouperAdd) : list Metric :=
  fold_left group_add g [].

(** Modelled from the spec: the accumulator, the sink of finished metrics
    and of the errors reported during a cycle. *)
Record Accumulator := {
  acc_metrics : list Metric;
  acc_errors : list error;
}.

(** ** The state of a collection cycle *)

Inductive ApiCall :=
| Call_ListMetricDescriptors (req : ListMetricDescriptorsRequest)
| Call_ListTimeSeries (req : ListTimeSeriesRequest).

(** What a cycle meets outside the engine: the readings of [time.Now()] in
    the order of the calls, the answers of [s.done(ctx)] in the order of
    the polls, the outcome of [monitoring.NewMetricClient], and the calls
    made to the remote API so far. *)
Record World := {
  now_at : nat -> Time;
  ticks : nat;
  done_at : nat -> bool;
  polls : nat;
  NewMetricClient : error + metricClient;
  calls : list ApiCall;
}.

Record State := {
  engine : Stackdriver;
  world : World;
  acc : Accumulator;
  grouper : list GrouperAdd;
}.

(** A computation on the state of the cycle; [None] is a panic. *)
Definition M (A : Type) : Type := State -> option (A * State).

Definition Return {A} (a : A) : M A := fun st => Some (a, st).

Definition Bind {A B} (m : M A) (k : A -> M B) : M B :=
  fun st => match m st with
            | Some (a, st') => k a st'
            | None => None
            end.

Definition panic {A} : M A := fun _ => None.

Notation "'let*' x ':=' m 'in' k" := (Bind m (fun x => k))
  (at level 10, x name, m at level 100, k at level 200, only parsing).
Notation "'let*' ' p ':=' m 'in' k" := (Bind m (fun x => let 'p := x in k))
  (at level 10, p pattern, m at level 100, k at level 200, only parsing).

Definition get_engine : M Stackdriver := fun st => Some (engine st, st).

Definition put_engine (s : Stackdriver) : M unit :=
  fun st => Some (tt, {| engine := s; world := world st; acc := acc st;
                         grouper := grouper st |}).

Definition put_world (w : World) : M unit :=
  fun st => Some (tt, {| engine := engine st; world := w; acc := acc st;
                         grouper := grouper st |}).

Definition put_acc (a : Accumulator) : M unit :=
  fun st => Some (tt, {| engine := engine st; world := world st; acc := a;
                         grouper := grouper st |}).

Definition put_grouper (g : list GrouperAdd) : M unit :=
  fun st => Some (tt, {| engine := engine st; world := world st;
                         acc := acc st; grouper := g |}).

Definition get_world : M World := fun st => Some (world st, st).

Definition get_grouper : M (list GrouperAdd) :=
  fun st => Some (grouper st, st).

(** [time.Now()]: the next reading of the clock. *)
Definition time_Now : M Time :=
  let* w := get_world in
  let* _ := put_world {| now_at := now_at w; ticks := S (ticks w);
                         done_at := done_at w; polls := polls w;
                         NewMetricClient := NewMetricClient w;
                         calls := calls w |} in
  Return (now_at w (ticks w)).

(** [s.done(ctx)]: the next answer of the context. *)
Definition done : M bool :=
  let* w := get_world in
  let* _ := put_world {| now_at := now_at w; ticks := ticks w;
                         done_at := done_at w; polls := S (polls w);
                         NewMetricClient := NewMetricClient w;
                         calls := calls w |} in
  Return (done_at w (polls w)).

Definition log_call (c : ApiCall) : M unit :=
  let* w := get_world in
  put_world {| now_at := now_at w; ticks := ticks w;
               done_at := done_at w; polls := polls w;
               NewMetricClient := NewMetricClient w;
               calls := calls w ++ [c] |}.

(** A method call on [s.client]; on a nil client it panics. *)
Definition client_ListMetricDescriptors (req : ListMetricDescriptorsRequest)
  : M (error + list MetricDescriptor) :=
  let* s := get_engine in
  match client s with
  | None => panic
  | Some c =>
      let* _ := log_call (Call_ListMetricDescriptors req) in
      Return (ListMetricDescriptors c req)
  end.

Definition client_ListTimeSeries (req : ListTimeSeriesRequest)
  : M (error + list TimeSeries) :=
  let* s := get_engine in
  match client s with
  | None => panic
  | Some c =>
      let* _ := log_call (Call_ListTimeSeries req) in
      Return (ListTimeSeries c req)
  end.

(** [lockedSeriesGrouper.Add]: with the mutex held, the call is handed to
    the embedded [SeriesGrouper]; the error it returns is dropped by every
    caller. *)
Definition lockedSeriesGrouper_Add (measurement : string)
    (tags : gmap string string) (tm : Time) (field : string)
    (fieldValue : FieldValue) : M unit :=
  fun st =>
    put_grouper
      (grouper st ++
       [ {| add_measurement := measurement; add_tags := tags; add_tm := tm;
            add_field := field; add_fieldValue := fieldValue |} ]) st.

(** Modelled from the spec: [acc.AddMetric(m)] hands a finished metric to
    the sink. *)
Definition acc_AddMetric (m : Metric) : M unit :=
  fun st =>
    put_acc {| acc_metrics := acc_metrics (acc st) ++ [m];
               acc_errors := acc_errors (acc st) |} st.

(** Modelled from the spec: [acc.AddError(err)] reports an error of the
    cycle; a nil error is nothing to report. *)
Definition acc_AddError (err : option error) : M unit :=
  fun st =>
    match err with
    | None => Some (tt, st)
    | Some e =>
        put_acc {| acc_metrics := acc_metrics (acc st);
                   acc_errors := acc_errors (acc st) ++ [e] |} st
    end.

(** [for _, x := range xs { ... }] with a loop-carried value: the body
    yields whether it breaks out of the loop. *)
Fixpoint for_range {A S} (xs : list A) (body : A -> S -> M (bool * S))
    (a : S) : M S :=
  match xs with
  | [] => Return a
  | x :: xs' =>
      let* '(brk, a') := body x a in
      if brk then Return a' else for_range xs' body a'
  end.

(** ** The engine *)

(** [updateWindow]: the start and end time of the next collection. *)
Definition updateWindow (prevEnd : Time) : M (Time * Time) :=
  let* s := get_engine in
  let* start :=
    (if negb (Window s =? 0) then
       let* now := time_Now in
       Return (Time.Add (Time.Add now (Time.neg (Delay s)))
                 (Time.neg (Window s)))
     else if Time.IsZero prevEnd then
       let* now := time_Now in
       Return (Time.Add (Time.Add now (Time.neg (Delay s)))
                 (Time.neg defaultWindow))
     else Return prevEnd) in
  let* now := time_Now in
  let end_ := Time.Add now (Time.neg (Delay s)) in
  Return (start, end_).

(** [IsValid]: [time.Since] reads the clock, and only when the slice is not
    nil. *)
Definition IsValid (c : timeSeriesConfCache) : M bool :=
  match TimeSeriesConfs c with
  | None => Return false
  | Some _ =>
      let* now := time_Now in
      Return (Time.Sub now (Generated c) <? TTL c)
  end.

Definition initializeStackdriverClient : M (option error) :=
  let* s := get_engine in
  match client s with
  | None =>
      let* w := get_world in
      match NewMetricClient w with
      | inl err =>
          Return (Some (wrap_error
                          "failed to create stackdriver monitoring client"
                          err))
      | inr c =>
          let* _ := put_engine (set_client s (Some c)) in
          Return None
      end
  | Some _ => Return None
  end.

Definition includeMetricType (s : Stackdriver) (metricType : string) : bool :=
  let k := metricType in
  let inc := MetricTypePrefixInclude s in
  let exc := MetricTypePrefixExclude s in
  includeExcludeHelper k inc exc.

Definition set_confs_Interval (i : TimeInterval) (t : timeSeriesConf)
  : timeSeriesConf :=
  {| listTimeSeriesRequest := set_Interval (listTimeSeriesRequest t) i;
     measurement := measurement t;
     fieldKey := fieldKey t |}.

Section Engine.

Context `{GoRuntime}.

Definition newListMetricDescriptorsFilters (s : Stackdriver) : list string :=
  if len (MetricTypePrefixInclude s) =? 0 then []
  else
    map (fun metricTypePrefix =>
           "metric.type = starts_with(" +:+ fmt_q metricTypePrefix +:+ ")")
      (MetricTypePrefixInclude s).

(** The configurations one metric descriptor adds to [ret]. *)
Definition descriptor_confs (s : Stackdriver) (metricDescriptor : MetricDescriptor)
    (startTime endTime : Time) : list timeSeriesConf :=
  let metricType := md_Type metricDescriptor in
  let valueType := md_ValueType metricDescriptor in
  if bool_decide (valueType = DISTRIBUTION) then
    ((if GatherRawDistributionBuckets s
      then [newTimeSeriesConf s metricType startTime endTime]
      else []) ++
     map (fun alignerStr =>
            initForAggregate (newTimeSeriesConf s metricType startTime endTime)
              alignerStr)
       (DistributionAggregationAligners s))%list
  else [newTimeSeriesConf s metricType startTime endTime].

(** The body of the loop over the metric descriptors of one filter. *)
Definition descriptor_body (s : Stackdriver) (filter : string)
    (startTime endTime : Time)
    (metricDescriptor : MetricDescriptor) (ret : list timeSeriesConf)
  : M (bool * list timeSeriesConf) :=
  if String.eqb filter EmptyString &&
     negb (includeMetricType s (md_Type metricDescriptor))
  then Return (false, ret)
  else
    let ret :=
      (ret ++ descriptor_confs s metricDescriptor startTime endTime)%list in
    let* d := done in
    Return (d, ret).

(** The body of the loop over the filters; [inl] is the early
    [return nil, err]. *)
Definition filter_body (s : Stackdriver) (startTime endTime : Time)
    (filter : string) (ret : error + list timeSeriesConf)
  : M (bool * (error + list timeSeriesConf)) :=
  match ret with
  | inl err => Return (true, inl err)
  | inr ret =>
      let req := {| mdreq_Name := "projects/" +:+ Project s;
                    mdreq_Filter := filter |} in
      let* r := client_ListMetricDescriptors req in
      match r with
      | inl err =>
          Return (true, inl (wrap_error "list metric descriptors" err))
      | inr mdRespChan =>
          let* ret :=
            for_range mdRespChan (descriptor_body s filter startTime endTime)
              ret in
          let* d := done in
          Return (d, inr ret)
      end
  end.

Definition generatetimeSeriesConfs (startTime endTime : Time)
  : M (option (list timeSeriesConf) * option error) :=
  let* s := get_engine in
  let* hit :=
    match timeSeriesConfCache_ s with
    | Some c => IsValid c
    | None => Return false
    end in
  match hit, timeSeriesConfCache_ s with
  | true, Some c =>
      let interval :=
        {| EndTime_Seconds := Time.Unix endTime;
           StartTime_Seconds := Time.Unix startTime |} in
      let confs := map (set_confs_Interval interval) <$> TimeSeriesConfs c in
      let* _ :=
        put_engine
          (set_cache s (Some {| Generated := Generated c;
                                TimeSeriesConfs := confs;
                                TTL := TTL c |})) in
      Return (confs, None)
  | _, _ =>
      let filters := newListMetricDescriptorsFilters s in
      let filters :=
        if len filters =? 0 then [EmptyString] else filters in
      let* r := for_range filters (filter_body s startTime endTime) (inr []) in
      match r with
      | inl err => Return (None, Some err)
      | inr ret =>
          let* now := time_Now in
          let* _ :=
            put_engine
              (set_cache s (Some {| Generated := now;
                                    TimeSeriesConfs := Some ret;
                                    TTL := CacheTTL s |})) in
          Return (Some ret, None)
      end
  end.

(** The loop that builds the histogram metric from the bucket map, in the
    order [kvs] of one traversal of the map. *)
Definition histometric_of (field : string) (newTags : gmap string string)
    (ts : Time) (mk : cua_ValueType) (kvs : list (string * Z))
  : option Metric :=
  fold_left
    (fun histometric kv =>
       match histometric with
       | None =>
           Some (cuametric_New field newTags
                   {[ fst kv := V_int64 (snd kv) ]} ts mk)
       | Some m => Some (AddField m (fst kv) (V_int64 (snd kv)))
       end)
    kvs None.

(** [addDistribution]: the metrics of one distribution-valued point. *)
Definition addDistribution (metric : Distribution)
    (tags : gmap string string) (ts : Time) (tsConf : timeSeriesConf)
    (metricKind : MetricDescriptor_MetricKind) : M unit :=
  let field := fieldKey tsConf in
  let name := measurement tsConf in
  let* _ := lockedSeriesGrouper_Add name tags ts (field +:+ "_count")
              (V_int64 (Count metric)) in
  let* _ := lockedSeriesGrouper_Add name tags ts (field +:+ "_mean")
              (V_float64 (Mean metric)) in
  let* _ := lockedSeriesGrouper_Add name tags ts
              (field +:+ "_sum_of_squared_deviation")
              (V_float64 (SumOfSquaredDeviation metric)) in
  let* _ :=
    match Range metric with
    | Some r =>
        let* _ := lockedSeriesGrouper_Add name tags ts (field +:+ "_range_min")
                    (V_float64 (Min r)) in
        lockedSeriesGrouper_Add name tags ts (field +:+ "_range_max")
          (V_float64 (Max r))
    | None => Return tt
    end in
  match distributionToCircHisto metric (BucketOptions_ metric) with
  | None => panic
  | Some circhisto =>
      let newTags := <["input_metric_group" := name]> tags in
      if 0 <? Z.of_nat (size circhisto) then
        let mk :=
          if bool_decide (metricKind = CUMULATIVE)
          then CumulativeHistogram else Histogram in
        match histometric_of field newTags ts mk (map_to_list circhisto) with
        | Some histometric => acc_AddMetric histometric
        | None => panic
        end
      else Return tt
  end.

(** The tags of one time series. *)
Definition series_tags (s : Stackdriver) (tsConf : timeSeriesConf)
    (tsDesc : TimeSeries) : gmap string string :=
  let tags : gmap string string :=
    <["project_id" := Project s]>
      (<["resource_type" := ts_Resource_Type tsDesc]> ∅) in
  let tags := ts_Resource_Labels tsDesc ∪ tags in
  let tags := ts_Metric_Labels tsDesc ∪ tags in
  let slashIdx := Strings.LastIndexByte (measurement tsConf) "/"%char in
  let tags :=
    if 0 <? slashIdx
    then <["metric_category" :=
             Strings.slice_from (measurement tsConf) (slashIdx + 1)]> tags
    else <["metric_category" := measurement tsConf]> tags in
  match ts_MetricKind tsDesc with
  | METRIC_KIND_UNSPECIFIED => <["metric_kind" := "unspecified"]> tags
  | GAUGE => <["metric_kind" := "gauge"]> tags
  | DELTA => <["metric_kind" := "delta"]> tags
  | CUMULATIVE => <["metric_kind" := "cumulative"]> tags
  | METRIC_KIND_other _ => tags
  end.

(** The value of a point that is not a distribution. *)
Definition point_value (valueType : MetricDescriptor_ValueType)
    (v : TypedValue) : FieldValue :=
  match valueType with
  | BOOL => if GetBoolValue v then V_int 1 else V_int 0
  | INT64 => V_int64 (GetInt64Value v)
  | DOUBLE => V_float64 (GetDoubleValue v)
  | STRING => V_string (GetStringValue v)
  | _ => V_nil
  end.

Definition point_body (tsConf : timeSeriesConf) (tsDesc : TimeSeries)
    (tags : gmap string string) (p : Point) (_ : unit) : M (bool * unit) :=
  let ts := Time.FromUnix (pt_EndTime_Seconds p) in
  let* _ :=
    (if bool_decide (ts_ValueType tsDesc = DISTRIBUTION) then
       match GetDistributionValue (pt_Value p) with
       | Some dist =>
           addDistribution dist tags ts tsConf (ts_MetricKind tsDesc)
       | None => panic
       end
     else
       lockedSeriesGrouper_Add (measurement tsConf) tags ts (fieldKey tsConf)
         (point_value (ts_ValueType tsDesc) (pt_Value p))) in
  let* d := done in
  Return (d, tt).

Definition series_body (tsConf : timeSeriesConf) (tsDesc : TimeSeries)
    (_ : unit) : M (bool * unit) :=
  let* s := get_engine in
  let tags := series_tags s tsConf tsDesc in
  let* _ := for_range (ts_Points tsDesc) (point_body tsConf tsDesc tags) tt in
  let* d := done in
  Return (d, tt).

(** [gatherTimeSeries]: the work of one fetch. *)
Definition gatherTimeSeries (tsConf : timeSeriesConf) : M (option error) :=
  let tsReq := listTimeSeriesRequest tsConf in
  let* r := client_ListTimeSeries tsReq in
  match r with
  | inl err => Return (Some (wrap_error "list time series" err))
  | inr tsRespChan =>
      let* _ := for_range tsRespChan (series_body tsConf) tt in
      Return None
  end.

(** One fetch task of the cycle: [acc.AddError(s.gatherTimeSeries(...))]. *)
Definition fetch_body (tsConf : timeSeriesConf) (_ : unit) : M (bool * unit) :=
  let* err := gatherTimeSeries tsConf in
  let* _ := acc_AddError err in
  Return (false, tt).

Definition emit_body (metric : Metric) (_ : unit) : M (bool * unit) :=
  let* _ := acc_AddMetric metric in
  Return (false, tt).

(** The window of the cycle, kept on the engine:
    [start, end := s.updateWindow(s.prevEnd); s.prevEnd = end]. *)
Definition next_window : M (Time * Time) :=
  let* s := get_engine in
  let* '(start, end_) := updateWindow (prevEnd s) in
  let* s := get_engine in
  let* _ := put_engine (set_prevEnd s end_) in
  Return (start, end_).

(** The fetch tasks of the cycle.  They run one after the other here, in
    the order in which they are started; the waiting on the rate limiter
    takes time and changes no state. *)
Definition fetch_wave (tsConfs : list timeSeriesConf) : M unit :=
  for_range tsConfs fetch_body tt.

(** The end of the cycle: a new grouper, the fetch tasks, and the grouped
    metrics handed to the accumulator. *)
Definition collect (tsConfs : list timeSeriesConf) : M (option error) :=
  let* _ := put_grouper [] in
  let* _ := fetch_wave tsConfs in
  let* g := get_grouper in
  let* _ := for_range (SeriesGrouper_Metrics g) emit_body tt in
  Return None.

(** [Gather]: one collection cycle. *)
Definition Gather : M (option error) :=
  let* s := get_engine in
  let* _ :=
    (if RateLimit s =? 0
     then put_engine (set_RateLimit s defaultRateLimit)
     else Return tt) in
  let* err := initializeStackdriverClient in
  match err with
  | Some err => Return (Some err)
  | None =>
      let* '(start, end_) := next_window in
      let* '(tsConfs, err) := generatetimeSeriesConfs start end_ in
      match err with
      | Some err => Return (Some err)
      | None => collect (default [] tsConfs)
      end
  end.

End Engine.

(** ** The client of the remote API

    [stackdriverMetricClient] implements [metricClient] over a connection
    of the API library.  A listing starts a task that draws the results from
    the library's iterator and sends them to a buffered channel, which it
    closes when it is through; the method itself returns the channel and no
    error. *)

Module Client.

(** The error that ends an iterator: [iterator.Done], or a failure. *)
Inductive IteratorError :=
| iterator_Done
| iterator_failure (err : error).

(** An iterator of the API library, taken for what its successive calls of
    [Next()] return: the items, then the error that ends it. *)
Record Iterator (A : Type) := {
  it_items : list A;
  it_end : IteratorError;
}.

Arguments it_items {A} _.
Arguments it_end {A} _.

(** The connection [smc.conn]: a listing call yields an iterator. *)
Record MetricClient := {
  conn_ListMetricDescriptors :
    ListMetricDescriptorsRequest -> Iterator MetricDescriptor;
  conn_ListTimeSeries : ListTimeSeriesRequest -> Iterator TimeSeries;
}.

(** A line written by [smc.log.Errorf], by its format, the request and the
    error it is about. *)
Inductive LogLine :=
| Failed_iterating_metric_descriptor_responses
    (req : ListMetricDescriptorsRequest) (err : error)
| Failed_iterating_time_series_responses
    (req : ListTimeSeriesRequest) (err : error).

(** What the listing tasks work on: the two call statistics, each taken for
    the number of [Incr(1)] it has received, the log, and the answers of the
    context to the polls of [smc.done(ctx)]. *)
Record state := {
  listMetricDescriptorsCalls : nat;
  listTimeSeriesCalls : nat;
  log : list LogLine;
  ctx_done : nat -> bool;
  ctx_polls : nat;
}.

(** [smc.done(ctx)]: the next answer of the context. *)
Definition done (st : state) : bool * state :=
  (ctx_done st (ctx_polls st),
   {| listMetricDescriptorsCalls := listMetricDescriptorsCalls st;
      listTimeSeriesCalls := listTimeSeriesCalls st;
      log := log st;
      ctx_done := ctx_done st;
      ctx_polls := S (ctx_polls st) |}).

Definition Errorf (line : LogLine) (st : state) : state :=
  {| listMetricDescriptorsCalls := listMetricDescriptorsCalls st;
     listTimeSeriesCalls := listTimeSeriesCalls st;
     log := log st ++ [line];
     ctx_done := ctx_done st;
     ctx_polls := ctx_polls st |}.

(** The [for] loop of a listing task, with the items it sends to the
    channel, in order: it returns when the context is done, breaks at the
    error of the iterator, which it logs unless it is [iterator.Done], and
    sends every item before that. *)
Fixpoint iterate {A} (line : error -> LogLine) (items : list A)
    (ending : IteratorError) (st : state) : list A * state :=
  let '(d, st) := done st in
  if d then ([], st)
  else
    match items with
    | [] =>
        match ending with
        | iterator_Done => ([], st)
        | iterator_failure err => ([], Errorf (line err) st)
        end
    | x :: items' =>
        let '(sent, st) := iterate line items' ending st in
        (x :: sent, st)
    end.

(** [ListMetricDescriptors]: what the channel delivers until it is closed,
    and the error returned. *)
Definition ListMetricDescriptors (smc : MetricClient)
    (req : ListMetricDescriptorsRequest) (st : state)
  : (list MetricDescriptor * option error) * state :=
  let mdResp := conn_ListMetricDescriptors smc req in
  let st :=
    {| listMetricDescriptorsCalls := S (listMetricDescriptorsCalls st);
       listTimeSeriesCalls := listTimeSeriesCalls st;
       log := log st;
       ctx_done := ctx_done st;
       ctx_polls := ctx_polls st |} in
  let '(mdChan, st) :=
    iterate (Failed_iterating_metric_descriptor_responses req)
      (it_items mdResp) (it_end mdResp) st in
  ((mdChan, None), st).

(** [ListTimeSeries]. *)
Definition ListTimeSeries (smc : MetricClient)
    (req : ListTimeSeriesRequest) (st : state)
  : (list TimeSeries * option error) * state :=
  let tsResp := conn_ListTimeSeries smc req in
  let st :=
    {| listMetricDescriptorsCalls := listMetricDescriptorsCalls st;
       listTimeSeriesCalls := S (listTimeSeriesCalls st);
       log := log st;
       ctx_done := ctx_done st;
       ctx_polls := ctx_polls st |} in
  let '(tsChan, st) :=
    iterate (Failed_iterating_time_series_responses req)
      (it_items tsResp) (it_end tsResp) st in
  ((tsChan, None), st).

(** A result [(channel, err)] as the engine reads it. *)
Definition received {A} (r : list A * option error) : error + list A :=
  match snd r with
  | Some err => inl err
  | None => inr (fst r)
  end.

(** The client behind the [metricClient] interface, each listing task
    polling a context that answers [ctx]. *)
Definition as_metricClient (smc : MetricClient) (ctx : nat -> bool)
  : metricClient :=
  let st :=
    {| listMetricDescriptorsCalls := O; listTimeSeriesCalls := O;
       log := []; ctx_done := ctx; ctx_polls := O |} in
  Build_metricClient
    (fun req => received (fst (ListMetricDescriptors smc req st)))
    (fun req => received (fst (ListTimeSeries smc req st))).

End Client.

(** ** A runtime to evaluate the engine with

    The theorems hold for every [GoRuntime].  To run the engine on concrete
    inputs, [%e] is computed exactly (the binary64 value rounded to seven
    significant decimal digits, half to even), [%q] escapes the quote and
    the backslash, and [math.Pow] multiplies, which covers the non-negative
    integral exponents the converter passes. *)

Module Reference.

Definition digit (d : Z) : ascii := ascii_of_nat (48 + Z.to_nat d).

(** The [n] low decimal digits of [z], in front of [tail]. *)
Fixpoint digits (n : nat) (z : Z) (tail : string) : string :=
  match n with
  | O => tail
  | S n' => digits n' (z / 10) (String (digit (z mod 10)) tail)
  end.

(** Whether [N / D >= 10 ^ k]. *)
Definition ge_pow10 (N D k : Z) : bool :=
  if 0 <=? k then D * 10 ^ k <=? N else D <=? N * 10 ^ (- k).

Fixpoint exp10_up (fuel : nat) (N D k : Z) : Z :=
  match fuel with
  | O => k
  | S fuel' => if ge_pow10 N D (k + 1) then exp10_up fuel' N D (k + 1) else k
  end.

(** The decimal exponent of the positive rational [N / D]. *)
Definition exp10 (N D : Z) : Z :=
  exp10_up 8 N D ((Z.log2 N - Z.log2 D) * 30103 / 100000 - 2).

Definition round_half_even (num den : Z) : Z :=
  let q := num / den in
  let r := num mod den in
  if (den <? 2 * r) || ((den =? 2 * r) && Z.odd q) then q + 1 else q.

(** Seven significant digits of [N / D] and its decimal exponent. *)
Definition sci7 (N D : Z) : Z * Z :=
  let k := exp10 N D in
  let q :=
    if 0 <=? 6 - k then round_half_even (N * 10 ^ (6 - k)) D
    else round_half_even N (D * 10 ^ (k - 6)) in
  if q =? 10000000 then (1000000, k + 1) else (q, k).

Definition exponent_string (k : Z) : string :=
  (if k <? 0 then "-" else "+") +:+
  (if Z.abs k <? 100 then digits 2 (Z.abs k) EmptyString
   else digits 3 (Z.abs k) EmptyString).

Definition fmt_e (f : float) : string :=
  match Prim2SF f with
  | S754_zero s => (if s then "-" else EmptyString) +:+ "0.000000e+00"
  | S754_infinity s => if s then "-Inf" else "+Inf"
  | S754_nan => "NaN"
  | S754_finite s m e =>
      let '(q, k) :=
        if 0 <=? e then sci7 (Z.pos m * 2 ^ e) 1
        else sci7 (Z.pos m) (2 ^ (- e)) in
      (if s then "-" else EmptyString) +:+
      digits 1 (q / 1000000) ("." +:+ digits 6 q ("e" +:+ exponent_string k))
  end.

Fixpoint escape (s : string) : string :=
  match s with
  | EmptyString => EmptyString
  | String a s' =>
      if Ascii.eqb a (ascii_of_nat 34) || Ascii.eqb a (ascii_of_nat 92)
      then String (ascii_of_nat 92) (String a (escape s'))
      else String a (escape s')
  end.

Definition fmt_q (s : string) : string := dq +:+ escape s +:+ dq.

Definition integral (y : float) : option nat :=
  match Prim2SF y with
  | S754_zero _ => Some O
  | S754_finite false m e =>
      if 0 <=? e then Some (Z.to_nat (Z.pos m * 2 ^ e))
      else if Z.pos m mod 2 ^ (- e) =? 0
           then Some (Z.to_nat (Z.pos m / 2 ^ (- e)))
           else None
  | _ => None
  end.

Definition math_Pow (x y : float) : float :=
  match integral y with
  | Some n => Nat.iter n (fun a => (a * x)%float) 1%float
  | None => nan
  end.

Definition runtime : GoRuntime := Build_GoRuntime math_Pow fmt_e fmt_q.

End Reference.

(** ** The lock of the series grouper

    The fetch tasks of a cycle run concurrently and share one
    [lockedSeriesGrouper].  Its method [Add] is
    [g.Lock(); defer g.Unlock(); return g.SeriesGrouper.Add(...)]: the
    mutex is taken, the call is handed to the embedded grouper, and the
    mutex is released when the call has returned.  A fetch task is taken
    here for the calls of [Add] that it makes, and a run of the cycle for
    an interleaving of the steps of its tasks; the embedded call is not
    atomic, it begins and it ends. *)

Module Locking.

(** Where a fetch task is in its current call of [Add]. *)
Inductive position :=
| Outside      (* not in a call, or before [g.Lock()] *)
| Locked       (* the mutex is taken *)
| Writing      (* inside [g.SeriesGrouper.Add] *)
| Written.     (* the embedded call has returned; [g.Unlock()] is due *)

Record fetcher := {
  at_ : position;
  pending : list GrouperAdd;
}.

(** The mutex, with the task that holds it, the tasks, and the calls the
    embedded grouper has completed. *)
Record system := {
  Mutex : option nat;
  fetchers : list fetcher;
  SeriesGrouper : list GrouperAdd;
}.

Inductive action := Lock | Add_begin | Add_end | Unlock.

(** One step of the task [t].  [g.Lock()] is taken only when the mutex is
    free; a task at its [g.Unlock()] frees it. *)
Inductive step : system -> nat * action -> system -> Prop :=
| step_Lock σ t a rest :
    fetchers σ !! t = Some {| at_ := Outside; pending := a :: rest |} ->
    Mutex σ = None ->
    step σ (t, Lock)
      {| Mutex := Some t;
         fetchers :=
           <[t := {| at_ := Locked; pending := a :: rest |}]> (fetchers σ);
         SeriesGrouper := SeriesGrouper σ |}
| step_Add_begin σ t a rest :
    fetchers σ !! t = Some {| at_ := Locked; pending := a :: rest |} ->
    step σ (t, Add_begin)
      {| Mutex := Mutex σ;
         fetchers :=
           <[t := {| at_ := Writing; pending := a :: rest |}]> (fetchers σ);
         SeriesGrouper := SeriesGrouper σ |}
| step_Add_end σ t a rest :
    fetchers σ !! t = Some {| at_ := Writing; pending := a :: rest |} ->
    step σ (t, Add_end)
      {| Mutex := Mutex σ;
         fetchers :=
           <[t := {| at_ := Written; pending := a :: rest |}]> (fetchers σ);
         SeriesGrouper := SeriesGrouper σ ++ [a] |}
| step_Unlock σ t a rest :
    fetchers σ !! t = Some {| at_ := Written; pending := a :: rest |} ->
    step σ (t, Unlock)
      {| Mutex := None;
         fetchers :=
           <[t := {| at_ := Outside; pending := rest |}]> (fetchers σ);
         SeriesGrouper := SeriesGrouper σ |}.

(** The start of the fetch tasks: a new grouper, its mutex free, every task
    with its calls ahead. *)
Definition start (programs : list (list GrouperAdd)) : system :=
  {| Mutex := None;
     fetchers := map (fun adds => {| at_ := Outside; pending := adds |})
                   programs;
     SeriesGrouper := [] |}.

Definition steps (σ σ' : system) : Prop := exists l, step σ l σ'.

Definition reachable (programs : list (list GrouperAdd)) (σ : system) : Prop :=
  rtc steps (start programs) σ.

End Locking.

(** * Properties

    From here on: the vocabulary of the specification, the lemmas about the
    definitions above, and the theorems. *)

(** ** Facts of machine integers, strings and time *)

Module IntFacts.

Import Int.

Lemma int32_id z : in_int32 z -> int32 z = z.
Proof.
  unfold in_int32, min_int32, max_int32, int32, wrap. intros H.
  change (2 ^ (32 - 1)) with 2147483648. change (2 ^ 32) with 4294967296.
  change (2 ^ 31) with 2147483648 in H.
  rewrite Z.mod_small; lia.
Qed.

Lemma int64_id z : in_int64 z -> int64 z = z.
Proof.
  unfold in_int64, min_int64, max_int64, int64, wrap. intros H.
  change (2 ^ (64 - 1)) with 9223372036854775808.
  change (2 ^ 64) with 18446744073709551616.
  change (2 ^ 63) with 9223372036854775808 in H.
  rewrite Z.mod_small; lia.
Qed.

Lemma int32_range z : in_int32 (int32 z).
Proof.
  unfold in_int32, min_int32, max_int32, int32, wrap.
  change (2 ^ (32 - 1)) with 2147483648. change (2 ^ 32) with 4294967296.
  change (2 ^ 31) with 2147483648.
  pose proof (Z.mod_pos_bound (z + 2147483648) 4294967296). lia.
Qed.

Lemma int64_range z : in_int64 (int64 z).
Proof.
  unfold in_int64, min_int64, max_int64, int64, wrap.
  change (2 ^ (64 - 1)) with 9223372036854775808.
  change (2 ^ 64) with 18446744073709551616.
  change (2 ^ 63) with 9223372036854775808.
  pose proof (Z.mod_pos_bound (z + 9223372036854775808) 18446744073709551616).
  lia.
Qed.

(** A non-negative length converted to [int32] either turns negative or
    does not exceed the length it came from. *)
Lemma int32_of_len_le (n : Z) : 0 <= n -> int32 n <= n.
Proof.
  intros Hn. unfold int32, wrap.
  change (2 ^ (32 - 1)) with 2147483648. change (2 ^ 32) with 4294967296.
  pose proof (Z.mod_le (n + 2147483648) 4294967296). lia.
Qed.

End IntFacts.

Module StringsFacts.

Import Strings.

Lemma LastIndex_from_absent (s : string) (c : ascii) :
  contains_byte s c = false ->
  forall i found, LastIndex_from i s c found = found.
Proof.
  induction s as [| a s IH]; simpl; intros Hc i found; [reflexivity |].
  apply orb_false_iff in Hc as [Ha Hs]. rewrite Ha. now apply IH.
Qed.

Lemma LastIndex_from_last (pre suf : string) (c : ascii) :
  contains_byte suf c = false ->
  forall i found,
    LastIndex_from i (pre +:+ String c suf) c found
    = i + Z.of_nat (String.length pre).
Proof.
  intros Hsuf. induction pre as [| a pre IH]; simpl; intros i found.
  - rewrite Ascii.eqb_refl, LastIndex_from_absent by assumption. lia.
  - rewrite IH. lia.
Qed.

Lemma LastIndexByte_absent (s : string) (c : ascii) :
  contains_byte s c = false -> LastIndexByte s c = -1.
Proof. intros H. unfold LastIndexByte. now apply LastIndex_from_absent. Qed.

Lemma LastIndexByte_last (pre suf : string) (c : ascii) :
  contains_byte suf c = false ->
  LastIndexByte (pre +:+ String c suf) c = Z.of_nat (String.length pre).
Proof.
  intros H. unfold LastIndexByte. now rewrite LastIndex_from_last.
Qed.

Lemma append_cons (x : ascii) (a b : string) :
  String x a +:+ b = String x (a +:+ b).
Proof. reflexivity. Qed.

Lemma append_nil_l (a : string) : EmptyString +:+ a = a.
Proof. reflexivity. Qed.

Lemma append_assoc (a b c : string) : (a +:+ b) +:+ c = a +:+ b +:+ c.
Proof.
  induction a as [| x a IH]; [reflexivity |].
  rewrite !append_cons. now rewrite IH.
Qed.

Lemma append_nil_r (a : string) : a +:+ EmptyString = a.
Proof.
  induction a as [| x a IH]; [reflexivity |].
  rewrite append_cons. now rewrite IH.
Qed.

Lemma substring_all (s : string) :
  String.substring 0 (String.length s) s = s.
Proof. induction s; simpl; congruence. Qed.

Lemma slice_to_app (pre rest : string) :
  slice_to (pre +:+ rest) (Z.of_nat (String.length pre)) = pre.
Proof.
  unfold slice_to. rewrite Nat2Z.id.
  induction pre as [| a pre IH]; simpl.
  - now destruct rest.
  - now rewrite IH.
Qed.

Lemma slice_from_app (pre : string) (c : ascii) (suf : string) :
  slice_from (pre +:+ String c suf) (Z.of_nat (String.length pre) + 1) = suf.
Proof.
  unfold slice_from.
  replace (Z.to_nat (Z.of_nat (String.length pre) + 1))
    with (S (String.length pre)) by lia.
  induction pre as [| a pre IH]; simpl.
  - rewrite Nat.sub_0_r. apply substring_all.
  - exact IH.
Qed.

End StringsFacts.

Module TimeFacts.

Import Time.

Lemma neg_exact (d : Duration) :
  Int.min_int64 < d <= Int.max_int64 -> neg d = - d.
Proof.
  intros H. unfold neg. apply IntFacts.int64_id.
  unfold Int.in_int64, Int.min_int64, Int.max_int64 in *. lia.
Qed.

Lemma Sub_lt (t u : Time) (d : Duration) :
  Int.in_int64 d -> u <= t -> (Sub t u <? d) = (t - u <? d).
Proof.
  unfold Int.in_int64, Sub. intros [Hlo Hhi] Hle.
  assert (Int.min_int64 < 0 < Int.max_int64) by (vm_compute; intuition congruence).
  destruct (Z.ltb_spec (t - u) Int.min_int64); [lia |].
  destruct (Z.ltb_spec Int.max_int64 (t - u)); [| reflexivity].
  destruct (Z.ltb_spec Int.max_int64 d), (Z.ltb_spec (t - u) d); lia.
Qed.

End TimeFacts.

(** ** Measurement and field key derivation *)

Section Derivation.

Variable s : Stackdriver.
Variables startTime endTime : Time.

Lemma newTimeSeriesConf_unsplit (metricType : string) :
  Strings.LastIndexByte metricType "/"%char <= 0 ->
  measurement (newTimeSeriesConf s metricType startTime endTime) = metricType
  /\ fieldKey (newTimeSeriesConf s metricType startTime endTime) = "value".
Proof.
  intros H. unfold newTimeSeriesConf.
  destruct (Z.ltb_spec 0 (Strings.LastIndexByte metricType "/"%char));
    [lia | now split].
Qed.

End Derivation.

(** The words of the specification: the metric type is split at its last
    ['/'] into measurement and field key, and the field key is ["value"] when
    there is no ['/']. *)
Definition splits_at_last_slash (metricType : string) (cfg : timeSeriesConf)
  : Prop :=
  (forall pre suf : string,
      metricType = pre +:+ "/" +:+ suf ->
      Strings.contains_byte suf "/"%char = false ->
      measurement cfg = pre /\ fieldKey cfg = suf) /\
  (Strings.contains_byte metricType "/"%char = false ->
   measurement cfg = metricType /\ fieldKey cfg = "value").

(** An engine with every option at its zero value. *)
Definition zero_Stackdriver : Stackdriver :=
  {| prevEnd := 0; client := None; timeSeriesConfCache_ := None;
     Filter := None; Project := EmptyString;
     MetricTypePrefixExclude := []; MetricTypePrefixInclude := [];
     DistributionAggregationAligners := [];
     CacheTTL := 0; Delay := 0; Window := 0; RateLimit := 0;
     GatherRawDistributionBuckets := false |}.

(** C7, as stated, fails: the metric type ["/foo"] has a ['/'], yet it is
    not split (its prefix is empty); the measurement is the whole string and
    the field key is the default. *)
Lemma newTimeSeriesConf_leading_slash_unsplit :
  ~ splits_at_last_slash "/foo"
      (newTimeSeriesConf zero_Stackdriver "/foo" 0 0).
Proof.
  intros [Hsplit _].
  destruct (Hsplit EmptyString "foo" eq_refl eq_refl) as [Hm _].
  vm_compute in Hm. discriminate.
Qed.

(** C7, amended: [newTimeSeriesConf] splits the metric type at its last
    ['/'] when that ['/'] is not the first byte: the non-empty prefix is the
    measurement and the suffix the field key.  When the metric type has no
    ['/'], or its only ['/'] is its first byte, the measurement is the whole
    metric type and the field key is ["value"]. *)
Theorem newTimeSeriesConf_split
    (s : Stackdriver) (metricType : string) (startTime endTime : Time) :
  let cfg := newTimeSeriesConf s metricType startTime endTime in
  (forall pre suf : string,
      metricType = pre +:+ "/" +:+ suf ->
      Strings.contains_byte suf "/"%char = false ->
      pre <> EmptyString ->
      measurement cfg = pre /\ fieldKey cfg = suf) /\
  (Strings.contains_byte metricType "/"%char = false ->
   measurement cfg = metricType /\ fieldKey cfg = "value") /\
  (forall suf : string,
      metricType = "/" +:+ suf ->
      Strings.contains_byte suf "/"%char = false ->
      measurement cfg = metricType /\ fieldKey cfg = "value").
Proof.
  cbv zeta. split; [| split].
  - intros pre suf -> Hsuf Hpre.
    unfold newTimeSeriesConf.
    change (pre +:+ "/" +:+ suf) with (pre +:+ String "/"%char suf).
    rewrite StringsFacts.LastIndexByte_last by assumption.
    destruct (Z.ltb_spec 0 (Z.of_nat (String.length pre))) as [_ | Hle].
    + simpl. now rewrite StringsFacts.slice_to_app, StringsFacts.slice_from_app.
    + destruct pre; [congruence | simpl in Hle; lia].
  - intros Hc. apply newTimeSeriesConf_unsplit.
    rewrite StringsFacts.LastIndexByte_absent by assumption. lia.
  - intros suf -> Hsuf. apply newTimeSeriesConf_unsplit.
    change ("/" +:+ suf) with (EmptyString +:+ String "/"%char suf).
    rewrite StringsFacts.LastIndexByte_last by assumption. simpl. lia.
Qed.

Lemma newTimeSeriesConf_split_witness :
  (measurement
     (newTimeSeriesConf zero_Stackdriver "custom.googleapis.com/foo/bar" 0 0)
   = "custom.googleapis.com/foo" /\
   fieldKey
     (newTimeSeriesConf zero_Stackdriver "custom.googleapis.com/foo/bar" 0 0)
   = "bar") /\
  (measurement (newTimeSeriesConf zero_Stackdriver "/foo" 0 0) = "/foo" /\
   fieldKey (newTimeSeriesConf zero_Stackdriver "/foo" 0 0) = "value").
Proof.
  split.
  - apply (proj1 (newTimeSeriesConf_split zero_Stackdriver
                    "custom.googleapis.com/foo/bar" 0 0)
             "custom.googleapis.com/foo" "bar");
      [reflexivity | reflexivity | discriminate].
  - apply (proj2 (proj2 (newTimeSeriesConf_split zero_Stackdriver
                           "/foo" 0 0)) "foo");
      reflexivity.
Defined.

(** ** Aggregation aligners *)

Lemma Aggregation_Aligner_name_zero :
  map_get EmptyString Aggregation_Aligner_name 0 = "ALIGN_NONE".
Proof. vm_compute. reflexivity. Qed.

(** On a recognized aligner name the configured name and its number are
    used. *)
Lemma initForAggregate_recognized
    (t : timeSeriesConf) (alignerStr : string) (n : Z) :
  Aggregation_Aligner_value !! alignerStr = Some n ->
  initForAggregate t alignerStr =
  {| listTimeSeriesRequest :=
       set_Aggregation (listTimeSeriesRequest t)
         (Some {| AlignmentPeriod_Seconds := 60; PerSeriesAligner := n |});
     measurement := measurement t;
     fieldKey := fieldKey t +:+ "_" +:+ Strings.ToLower alignerStr |}.
Proof.
  intros H. unfold initForAggregate, map_get2. now rewrite H.
Qed.

(** The words of the specification for an unrecognized aligner name: the
    configured name is kept in the field key, and the aggregation has a
    60-second alignment period. *)
Definition keeps_configured_aligner_name
    (t : timeSeriesConf) (alignerStr : string) (t' : timeSeriesConf) : Prop :=
  fieldKey t' = fieldKey t +:+ "_" +:+ Strings.ToLower alignerStr /\
  exists agg : Aggregation,
    req_Aggregation (listTimeSeriesRequest t') = Some agg /\
    AlignmentPeriod_Seconds agg = 60.

(** C1, as stated, fails: ["ALIGN_BOGUS"] is no enumerant, and the field key
    of the configuration for ["a/b"] becomes ["b_align_none"], not
    ["b_align_bogus"]. *)
Lemma initForAggregate_drops_unrecognized_name :
  Aggregation_Aligner_value !! "ALIGN_BOGUS" = None /\
  fieldKey (initForAggregate (newTimeSeriesConf zero_Stackdriver "a/b" 0 0)
              "ALIGN_BOGUS") = "b_align_none" /\
  ~ keeps_configured_aligner_name
      (newTimeSeriesConf zero_Stackdriver "a/b" 0 0) "ALIGN_BOGUS"
      (initForAggregate (newTimeSeriesConf zero_Stackdriver "a/b" 0 0)
         "ALIGN_BOGUS").
Proof.
  split; [vm_compute; reflexivity |].
  split; [vm_compute; reflexivity |].
  intros [Hkey _]. vm_compute in Hkey. discriminate.
Qed.

(** C1, amended: for every configured aligner name that is not a recognized
    [Aggregation_Aligner] enumerant, [initForAggregate] does not fail; it
    replaces the name by the name of the zero enumerant, [ALIGN_NONE]: the
    field key becomes the original field key suffixed with ["_align_none"],
    and the attached aggregation has per-series aligner 0 ([ALIGN_NONE]) and
    a fixed 60-second alignment period. *)
Theorem initForAggregate_unrecognized
    (t : timeSeriesConf) (alignerStr : string) :
  Aggregation_Aligner_value !! alignerStr = None ->
  initForAggregate t alignerStr =
  {| listTimeSeriesRequest :=
       set_Aggregation (listTimeSeriesRequest t)
         (Some {| AlignmentPeriod_Seconds := 60; PerSeriesAligner := 0 |});
     measurement := measurement t;
     fieldKey := fieldKey t +:+ "_align_none" |}.
Proof.
  intros H. unfold initForAggregate, map_get2. rewrite H. cbn [negb].
  now rewrite Aggregation_Aligner_name_zero.
Qed.

Lemma initForAggregate_unrecognized_witness :
  initForAggregate (newTimeSeriesConf zero_Stackdriver "a/b" 0 0)
    "ALIGN_BOGUS" =
  {| listTimeSeriesRequest :=
       set_Aggregation
         (listTimeSeriesRequest (newTimeSeriesConf zero_Stackdriver "a/b" 0 0))
         (Some {| AlignmentPeriod_Seconds := 60; PerSeriesAligner := 0 |});
     measurement := measurement (newTimeSeriesConf zero_Stackdriver "a/b" 0 0);
     fieldKey :=
       fieldKey (newTimeSeriesConf zero_Stackdriver "a/b" 0 0)
       +:+ "_align_none" |}.
Proof.
  apply (initForAggregate_unrecognized
           (newTimeSeriesConf zero_Stackdriver "a/b" 0 0) "ALIGN_BOGUS").
  vm_compute. reflexivity.
Defined.

Example initForAggregate_percentile :
  fieldKey (initForAggregate (newTimeSeriesConf zero_Stackdriver "a/b" 0 0)
              "ALIGN_PERCENTILE_99") = "b_align_percentile_99".
Proof. vm_compute. reflexivity. Qed.

(** ** The filter string of a list request *)

(** The words of the specification.  A label value is a call of a filter
    function when it starts with one of the four function names. *)
Definition is_filter_function (v : string) : bool :=
  existsb (fun f => String.prefix f v)
    ["starts_with"; "ends_with"; "has_substring"; "one_of"].

Definition label_clause (scope : string) (l : Label) : string :=
  scope +:+ Key l +:+ " = " +:+
  (if is_filter_function (Value l) then Value l
   else dq +:+ Value l +:+ dq).

(** One label category: nothing for no label, the clause alone for one
    label, the clauses joined by [OR] in parentheses for several. *)
Definition label_group (scope : string) (labels : list Label) : string :=
  match labels with
  | [] => EmptyString
  | [l] => " AND " +:+ label_clause scope l
  | _ => " AND (" +:+
         Strings.Join (map (label_clause scope) labels) " OR " +:+ ")"
  end.

Definition filter_spec (f : option ListTimeSeriesFilter) (metricType : string)
  : string :=
  ("metric.type = " +:+ dq +:+ metricType +:+ dq) +:+
  match f with
  | None => EmptyString
  | Some f =>
      label_group "resource.labels." (ResourceLabels f) +:+
      label_group "metric.labels." (MetricLabels f)
  end.

Lemma includeExcludeHelper_functions (v : string) :
  includeExcludeHelper v functions [] = is_filter_function v.
Proof. reflexivity. Qed.

Lemma resourceLabelsFilter_clauses (labels : list Label) :
  resourceLabelsFilter labels = map (label_clause "resource.labels.") labels.
Proof.
  unfold resourceLabelsFilter. apply map_ext. intros l.
  rewrite includeExcludeHelper_functions. unfold label_clause, Sprintf_label.
  now destruct (is_filter_function (Value l)).
Qed.

Lemma metricLabelsFilter_clauses (labels : list Label) :
  metricLabelsFilter labels = map (label_clause "metric.labels.") labels.
Proof.
  unfold metricLabelsFilter. apply map_ext. intros l.
  rewrite includeExcludeHelper_functions. unfold label_clause, Sprintf_label.
  now destruct (is_filter_function (Value l)).
Qed.

Lemma append_group_spec (filterString scope : string) (labels : list Label) :
  (if 0 <? len labels
   then append_group filterString (map (label_clause scope) labels)
   else filterString)
  = filterString +:+ label_group scope labels.
Proof.
  destruct labels as [| l [| l' labels]].
  - simpl. now rewrite StringsFacts.append_nil_r.
  - reflexivity.
  - unfold append_group, len, label_group.
    cbn [length map].
    destruct (Z.ltb_spec 0 (Z.of_nat (S (S (length labels))))); [| lia].
    rewrite length_map.
    destruct (Z.eqb_spec (Z.of_nat (S (S (length labels)))) 1); [lia |].
    reflexivity.
Qed.

(** C6: the filter string is the base clause [metric.type = "<type>"]
    followed by the resource-label group and then the metric-label group;
    a group is [AND]-appended, a single clause bare and several clauses
    [OR]-joined in parentheses; a label value is left unquoted exactly when
    it starts with one of the four filter function names, and is quoted
    otherwise. *)
Theorem newListTimeSeriesFilter_spec (s : Stackdriver) (metricType : string) :
  newListTimeSeriesFilter s metricType = filter_spec (Filter s) metricType.
Proof.
  unfold newListTimeSeriesFilter, filter_spec.
  destruct (Filter s) as [f |]; [| now rewrite StringsFacts.append_nil_r].
  rewrite resourceLabelsFilter_clauses, metricLabelsFilter_clauses.
  rewrite !append_group_spec.
  now rewrite !StringsFacts.append_assoc.
Qed.

Definition with_Filter (f : ListTimeSeriesFilter) : Stackdriver :=
  {| prevEnd := 0; client := None; timeSeriesConfCache_ := None;
     Filter := Some f; Project := EmptyString;
     MetricTypePrefixExclude := []; MetricTypePrefixInclude := [];
     DistributionAggregationAligners := [];
     CacheTTL := 0; Delay := 0; Window := 0; RateLimit := 0;
     GatherRawDistributionBuckets := false |}.

Example filter_single_resource_label :
  newListTimeSeriesFilter
    (with_Filter {| ResourceLabels := [ {| Key := "k"; Value := "v" |} ];
                    MetricLabels := [] |}) "X"
  = "metric.type = " +:+ dq +:+ "X" +:+ dq +:+
    " AND resource.labels.k = " +:+ dq +:+ "v" +:+ dq.
Proof. reflexivity. Qed.

Example filter_two_metric_labels :
  newListTimeSeriesFilter
    (with_Filter
       {| ResourceLabels := [];
          MetricLabels := [ {| Key := "a"; Value := "1" |};
                            {| Key := "b"; Value := "starts_with(x)" |} ] |})
    "X"
  = "metric.type = " +:+ dq +:+ "X" +:+ dq +:+
    " AND (metric.labels.a = " +:+ dq +:+ "1" +:+ dq +:+
    " OR metric.labels.b = starts_with(x))".
Proof. reflexivity. Qed.

Example filter_resource_before_metric :
  newListTimeSeriesFilter
    (with_Filter
       {| ResourceLabels := [ {| Key := "zone"; Value := "one_of(a,b)" |} ];
          MetricLabels := [ {| Key := "dev"; Value := "sda" |} ] |}) "X"
  = "metric.type = " +:+ dq +:+ "X" +:+ dq +:+
    " AND resource.labels.zone = one_of(a,b)" +:+
    " AND metric.labels.dev = " +:+ dq +:+ "sda" +:+ dq.
Proof. reflexivity. Qed.

(** ** What the converter computes

    The words of the specification: the number of buckets of a layout, the
    local count of a bucket and the upper bound of a bucket. *)

Section ConverterSpec.

Context `{GoRuntime}.

Definition bucket_total (options : BucketOptions) : Z :=
  match options with
  | LinearBuckets NumFiniteBuckets _ _ => Int.int32 (NumFiniteBuckets + 2)
  | ExponentialBuckets NumFiniteBuckets _ _ => Int.int32 (NumFiniteBuckets + 2)
  | ExplicitBuckets Bounds => Int.int32 (Int.int32 (len Bounds) + 1)
  end.

Definition localCount (metric : Distribution) (i : Z) : Z :=
  if i <? Int.int32 (len (BucketCounts metric))
  then default 0 (index (BucketCounts metric) i)
  else 0.

Definition bound (options : BucketOptions) (i : Z) : float :=
  if i =? 0 then 0%float
  else if i =? bucket_total options - 1 then overflow_bound
  else
    match options with
    | LinearBuckets _ Width Offset =>
        (Offset + Width * float64_of_int32 i)%float
    | ExponentialBuckets _ GrowthFactor Scale =>
        (Scale * math_Pow GrowthFactor (float64_of_int32 i))%float
    | ExplicitBuckets Bounds => default 0%float (index Bounds i)
    end.

(** A read is in range: a bucket count below the length of [BucketCounts],
    an explicit bound strictly between 0 and the number of bounds. *)
Definition read_in_range (metric : Distribution) (options : BucketOptions)
    (r : SliceRead) : Prop :=
  match r with
  | ReadBucketCount i => 0 <= i < len (BucketCounts metric)
  | ReadBound i =>
      match options with
      | ExplicitBuckets Bounds => 0 < i < len Bounds
      | _ => False
      end
  end.

Lemma numBuckets_Some (options : BucketOptions) :
  numBuckets (Some options) = Some (bucket_total options).
Proof. now destruct options. Qed.

Lemma index_in_range {A} (l : list A) (i : Z) :
  0 <= i < len l -> exists x, index l i = Some x.
Proof.
  intros Hi. unfold index, len in *.
  destruct (Z.leb_spec 0 i); [| lia].
  destruct (Z.ltb_spec i (Z.of_nat (length l))); [| lia].
  cbn [andb]. apply lookup_lt_is_Some_2. lia.
Qed.

Lemma len_nonneg {A} (l : list A) : 0 <= len l.
Proof. unfold len. lia. Qed.

(** Below a positive [int32] of a length, an index is below the length. *)
Lemma below_int32_len {A} (l : list A) (i : Z) :
  0 <= i -> i < Int.int32 (len l) -> i < len l.
Proof.
  intros Hi Hlt. pose proof (IntFacts.int32_of_len_le (len l) (len_nonneg l)). lia.
Qed.

(** In the explicit layout the last bucket index is at most the number of
    bounds. *)
Lemma explicit_total_le (Bounds : list float) :
  0 < bucket_total (ExplicitBuckets Bounds) ->
  bucket_total (ExplicitBuckets Bounds) - 1 <= len Bounds.
Proof.
  cbn [bucket_total]. intros Hpos.
  pose proof (IntFacts.int32_of_len_le (len Bounds) (len_nonneg Bounds)) as Hle.
  pose proof (IntFacts.int32_range (len Bounds)) as Hr.
  unfold Int.in_int32, Int.min_int32, Int.max_int32 in Hr.
  change (2 ^ 31) with 2147483648 in Hr.
  set (x := Int.int32 (len Bounds)) in *.
  destruct (Z.eq_dec x 2147483647) as [E | NE].
  - rewrite E in Hpos. vm_compute in Hpos. discriminate.
  - assert (Int.int32 (x + 1) = x + 1) as Hid.
    { apply IntFacts.int32_id. unfold Int.in_int32, Int.min_int32, Int.max_int32.
      change (2 ^ 31) with 2147483648. lia. }
    rewrite Hid in *. lia.
Qed.

Lemma int32_pred_total (options : BucketOptions) :
  0 < bucket_total options ->
  Int.int32 (bucket_total options - 1) = bucket_total options - 1.
Proof.
  intros Hpos. apply IntFacts.int32_id.
  assert (Int.in_int32 (bucket_total options)) as Hr
    by (destruct options; apply IntFacts.int32_range).
  unfold Int.in_int32, Int.min_int32, Int.max_int32 in *.
  change (2 ^ 31) with 2147483648 in *. lia.
Qed.

Variable metric : Distribution.
Variable options : BucketOptions.

Lemma upperBound_bound (i : Z) :
  0 <= i < bucket_total options ->
  exists rs,
    upperBound options (bucket_total options) i = Some (bound options i, rs)
    /\ Forall (read_in_range metric options) rs.
Proof.
  intros Hi. unfold upperBound, bound.
  rewrite int32_pred_total by lia.
  destruct (Z.eqb_spec i 0); [eexists; split; [reflexivity | constructor] |].
  destruct (Z.eqb_spec i (bucket_total options - 1));
    [eexists; split; [reflexivity | constructor] |].
  destruct options as [? ? ? | ? ? ? | Bounds];
    try (eexists; split; [reflexivity | constructor]).
  assert (0 < i < len Bounds) as Hin.
  { pose proof (explicit_total_le Bounds). lia. }
  destruct (index_in_range Bounds i) as [b Hb]; [lia |].
  rewrite Hb. cbn. eexists; split; [reflexivity |].
  repeat constructor; cbn; lia.
Qed.

Lemma bucket_step (i : Z) (st : histo) :
  0 <= i < bucket_total options ->
  exists c rs,
    bucket metric options (bucket_total options) i st
    = Some {| ret := if 0 <? localCount metric i
                     then <[fmt_e (bound options i) := localCount metric i]>
                            (ret st)
                     else ret st;
              count := c;
              reads := reads st ++ rs |}
    /\ Forall (read_in_range metric options) rs.
Proof.
  intros Hi. unfold bucket, localCount.
  destruct (Z.ltb_spec i (Int.int32 (len (BucketCounts metric)))) as [Hlt | Hge].
  - assert (0 <= i < len (BucketCounts metric)) as Hin
      by (split; [lia | apply below_int32_len; lia]).
    destruct (index_in_range (BucketCounts metric) i Hin) as [lc Hlc].
    rewrite Hlc. cbn.
    destruct (Z.ltb_spec 0 lc).
    + destruct (upperBound_bound i Hi) as (rs & -> & Hrs). cbn.
      exists (Int.int64 (count st + lc)), (ReadBucketCount i :: rs).
      split; [now rewrite <- app_assoc |].
      constructor; [exact Hin | exact Hrs].
    + exists (Int.int64 (count st + lc)), [ReadBucketCount i].
      split; [reflexivity |]. repeat constructor; cbn; lia.
  - cbn. exists (count st), []. rewrite app_nil_r.
    split; [now destruct st | constructor].
Qed.

(** Bucket [i] is the one the map holds under the key [k], with value [c],
    after the indices below [m]: its count is positive, its bound formats to
    [k], and no later bucket with a positive count has the same key. *)
Definition bucket_at (m : Z) (k : string) (c : Z) : Prop :=
  exists i,
    0 <= i < m /\ 0 < localCount metric i /\
    c = localCount metric i /\ k = fmt_e (bound options i) /\
    forall j, i < j < m -> 0 < localCount metric j ->
              fmt_e (bound options j) <> k.

Definition keyed_at (m : Z) (k : string) : Prop :=
  exists i,
    0 <= i < m /\ 0 < localCount metric i /\ k = fmt_e (bound options i).

Definition histo_upto (m : Z) (h : gmap string Z) : Prop :=
  (forall k, is_Some (h !! k) <-> keyed_at m k) /\
  (forall k c, h !! k = Some c <-> bucket_at m k c).

Lemma histo_upto_empty : histo_upto 0 ∅.
Proof.
  split.
  - intros k. rewrite lookup_empty. split.
    + intros [? ?]; discriminate.
    + intros (i & ? & _); lia.
  - intros k c. rewrite lookup_empty. split; [discriminate |].
    intros (i & ? & _); lia.
Qed.

Lemma histo_upto_skip (m : Z) (h : gmap string Z) :
  localCount metric m <= 0 -> histo_upto m h -> histo_upto (m + 1) h.
Proof.
  intros Hz [Hdom Hval]. split.
  - intros k. rewrite Hdom. split; intros (i & Hi & Hpos & Hk).
    + exists i. repeat split; [lia | lia | assumption | assumption].
    + exists i. assert (i <> m) by (intros ->; lia).
      repeat split; [lia | lia | assumption | assumption].
  - intros k c. rewrite Hval.
    split; intros (i & Hi & Hpos & Hc & Hk & Hlast).
    + exists i. repeat split; try assumption; try lia.
      intros j Hj Hjpos. assert (j <> m) by (intros ->; lia).
      apply Hlast; [lia | assumption].
    + exists i. assert (i <> m) by (intros ->; lia).
      repeat split; try assumption; try lia.
      intros j Hj Hjpos. apply Hlast; [lia | assumption].
Qed.

Lemma histo_upto_insert (m : Z) (h : gmap string Z) :
  0 <= m -> 0 < localCount metric m -> histo_upto m h ->
  histo_upto (m + 1)
    (<[fmt_e (bound options m) := localCount metric m]> h).
Proof.
  intros Hm Hpos [Hdom Hval]. split.
  - intros k. rewrite lookup_insert.
    destruct (decide (fmt_e (bound options m) = k)) as [E | NE].
    + split; [| eauto]. intros _. exists m. repeat split; [lia | lia | assumption | now symmetry].
    + rewrite Hdom. split; intros (i & Hi & Hipos & Hk).
      * exists i. repeat split; [lia | lia | assumption | assumption].
      * exists i. assert (i <> m) by (intros ->; congruence).
        repeat split; [lia | lia | assumption | assumption].
  - intros k c. rewrite lookup_insert.
    destruct (decide (fmt_e (bound options m) = k)) as [E | NE].
    + split.
      * intros [= <-]. exists m.
        repeat split; [lia | lia | assumption | now symmetry |].
        intros j Hj. lia.
      * intros (i & Hi & Hipos & Hc & Hk & Hlast).
        destruct (Z.eq_dec i m) as [-> | Hne]; [congruence |].
        exfalso. apply (Hlast m); [lia | assumption | assumption].
    + rewrite Hval. split; intros (i & Hi & Hipos & Hc & Hk & Hlast).
      * exists i. repeat split; try assumption; try lia.
        intros j Hj Hjpos. destruct (Z.eq_dec j m) as [-> | Hne];
          [assumption | apply Hlast; [lia | assumption]].
      * exists i. assert (i <> m) by (intros ->; congruence).
        repeat split; try assumption; try lia.
        intros j Hj Hjpos. apply Hlast; [lia | assumption].
Qed.

Lemma buckets_run (n : nat) :
  forall (i : Z) (st : histo),
    0 <= i -> i + Z.of_nat n <= bucket_total options ->
    histo_upto i (ret st) ->
    Forall (read_in_range metric options) (reads st) ->
    exists st',
      buckets metric options (bucket_total options) n i st = Some st' /\
      histo_upto (i + Z.of_nat n) (ret st') /\
      Forall (read_in_range metric options) (reads st').
Proof.
  induction n as [| n IH]; intros i st Hi Hn Hinv Hreads.
  - exists st. rewrite Z.add_0_r.
    split; [reflexivity | split; assumption].
  - cbn [buckets].
    destruct (bucket_step i st) as (c & rs & -> & Hrs); [lia |].
    cbn [mbind option_bind].
    match goal with
    | |- context [buckets _ _ _ _ _ ?s] => destruct (IH (i + 1) s) as (st' & Hrun & Hinv' & Hreads')
    end.
    + lia.
    + lia.
    + cbn [ret].
      destruct (Z.ltb_spec 0 (localCount metric i)).
      * now apply histo_upto_insert.
      * now apply histo_upto_skip.
    + cbn [reads]. apply Forall_app. now split.
    + exists st'. split; [exact Hrun |].
      replace (i + Z.of_nat (S n)) with (i + 1 + Z.of_nat n) by lia.
      now split.
Qed.

Lemma distributionToCircHisto_run_spec :
  exists st,
    distributionToCircHisto_run metric (Some options) = Some st /\
    histo_upto (bucket_total options) (ret st) /\
    Forall (read_in_range metric options) (reads st).
Proof.
  unfold distributionToCircHisto_run. rewrite numBuckets_Some.
  cbn [mbind option_bind].
  destruct (Z.le_gt_cases (bucket_total options) 0) as [Hle | Hgt].
  - replace (Z.to_nat (bucket_total options)) with O by lia.
    eexists; split; [reflexivity |]. cbn [buckets ret reads].
    split; [| constructor].
    destruct histo_upto_empty as [Hdom Hval]. split.
    + intros k. rewrite Hdom. split; intros (i & ? & _); lia.
    + intros k c. rewrite Hval. split; intros (i & ? & _); lia.
  - destruct (buckets_run (Z.to_nat (bucket_total options)) 0
                {| ret := ∅; count := 0; reads := [] |})
      as (st' & Hrun & Hinv & Hreads).
    + lia.
    + lia.
    + apply histo_upto_empty.
    + constructor.
    + exists st'. split; [exact Hrun |].
      replace (0 + Z.of_nat (Z.to_nat (bucket_total options)))
        with (bucket_total options) in Hinv by lia.
      now split.
Qed.

End ConverterSpec.

(** ** The bucket histogram *)

Lemma bound_first `{GoRuntime} (options : BucketOptions) :
  bound options 0 = 0%float.
Proof. reflexivity. Qed.

Lemma bound_overflow `{GoRuntime} (options : BucketOptions) :
  bucket_total options <> 1 ->
  bound options (bucket_total options - 1) = overflow_bound.
Proof.
  intros Hne. unfold bound.
  destruct (Z.eqb_spec (bucket_total options - 1) 0); [lia |].
  now rewrite Z.eqb_refl.
Qed.

Lemma bound_linear `{GoRuntime} (n : Z) (Width Offset : float) (i : Z) :
  i <> 0 -> i <> bucket_total (LinearBuckets n Width Offset) - 1 ->
  bound (LinearBuckets n Width Offset) i
  = (Offset + Width * float64_of_int32 i)%float.
Proof.
  intros H0 Hl. unfold bound.
  destruct (Z.eqb_spec i 0); [lia |].
  destruct (Z.eqb_spec i (bucket_total (LinearBuckets n Width Offset) - 1));
    [lia | reflexivity].
Qed.

Lemma bound_exponential `{GoRuntime} (n : Z) (GrowthFactor Scale : float)
    (i : Z) :
  i <> 0 -> i <> bucket_total (ExponentialBuckets n GrowthFactor Scale) - 1 ->
  bound (ExponentialBuckets n GrowthFactor Scale) i
  = (Scale * math_Pow GrowthFactor (float64_of_int32 i))%float.
Proof.
  intros H0 Hl. unfold bound.
  destruct (Z.eqb_spec i 0); [lia |].
  destruct (Z.eqb_spec i
              (bucket_total (ExponentialBuckets n GrowthFactor Scale) - 1));
    [lia | reflexivity].
Qed.

Lemma bound_explicit `{GoRuntime} (Bounds : list float) (i : Z) (b : float) :
  i <> 0 -> i <> bucket_total (ExplicitBuckets Bounds) - 1 ->
  index Bounds i = Some b ->
  bound (ExplicitBuckets Bounds) i = b.
Proof.
  intros H0 Hl Hb. unfold bound.
  destruct (Z.eqb_spec i 0); [lia |].
  destruct (Z.eqb_spec i (bucket_total (ExplicitBuckets Bounds) - 1));
    [lia | now rewrite Hb].
Qed.

Lemma bucket_total_finite (n : Z) :
  0 <= n <= Int.max_int32 - 2 -> Int.int32 (n + 2) = n + 2.
Proof.
  intros Hn. apply IntFacts.int32_id.
  unfold Int.in_int32, Int.min_int32, Int.max_int32 in *.
  change (2 ^ 31) with 2147483648 in *. lia.
Qed.

(** The words of the specification: the map has a key for exactly the
    buckets whose local count is not zero. *)
Definition keyed_by_nonzero_counts `{GoRuntime} (metric : Distribution)
    (options : BucketOptions) (h : gmap string Z) : Prop :=
  forall k : string,
    is_Some (h !! k) <->
    exists i, 0 <= i < bucket_total options /\
              localCount metric i <> 0 /\
              k = fmt_e (bound options i).

Definition negative_count_sample : Distribution :=
  {| Count := 1; Mean := 0; SumOfSquaredDeviation := 0; Range := None;
     BucketOptions_ := Some (LinearBuckets 3 10 0);
     BucketCounts := [-1; 2] |}.

(** C3, as stated, fails: with the bucket counts [-1; 2] the local count of
    bucket 0 is not zero, yet the map has the key of bucket 1 only. *)
Lemma distributionToCircHisto_skips_negative_count :
  distributionToCircHisto (H := Reference.runtime) negative_count_sample
    (Some (LinearBuckets 3 10 0))
  = Some {[ "1.000000e+01" := 2 ]} /\
  ~ keyed_by_nonzero_counts (H := Reference.runtime) negative_count_sample
      (LinearBuckets 3 10 0) {[ "1.000000e+01" := 2 ]}.
Proof.
  split; [vm_compute; reflexivity |].
  intros Hkeys.
  destruct (proj2 (Hkeys "0.000000e+00")) as [c Hc].
  - exists 0. split; [vm_compute; intuition congruence |].
    split; [vm_compute; congruence | vm_compute; reflexivity].
  - vm_compute in Hc. discriminate.
Qed.

(** C3, amended: for every distribution with a layout,
    [distributionToCircHisto] goes through the bucket indices below
    [finiteBuckets + 2] (linear, exponential) or [len(bounds) + 1]
    (explicit), in [int32] arithmetic; the map it returns has a key for
    exactly the indices whose local count is positive, the key being the
    [%e] formatting of the upper bound: 0 for index 0, 10^128 for the last
    index, [offset + width * index], [scale * growthFactor ^ index] or
    [bounds[index]]; the value under a key is the local count of the last
    such index.  A linear layout with offset 0, width 10 and 3 finite
    buckets has 5 buckets, and the upper bound of index 2 is 20. *)
Theorem distributionToCircHisto_buckets `{GoRuntime}
    (metric : Distribution) (options : BucketOptions) :
  (exists h : gmap string Z,
      distributionToCircHisto metric (Some options) = Some h /\
      (forall k : string,
          is_Some (h !! k) <->
          exists i, 0 <= i < bucket_total options /\
                    0 < localCount metric i /\
                    k = fmt_e (bound options i)) /\
      (forall (k : string) (c : Z),
          h !! k = Some c <->
          exists i, 0 <= i < bucket_total options /\
                    0 < localCount metric i /\
                    c = localCount metric i /\
                    k = fmt_e (bound options i) /\
                    forall j, i < j < bucket_total options ->
                              0 < localCount metric j ->
                              fmt_e (bound options j) <> k)) /\
  bucket_total (LinearBuckets 3 10 0) = 5 /\
  bound (LinearBuckets 3 10 0) 2 = 20%float /\
  bound (LinearBuckets 3 10 0) 4 = overflow_bound.
Proof.
  split; [| repeat split; reflexivity].
  destruct (distributionToCircHisto_run_spec metric options)
    as (st & Hrun & [Hdom Hval] & _).
  exists (ret st). unfold distributionToCircHisto. rewrite Hrun.
  split; [reflexivity |]. split; [exact Hdom | exact Hval].
Qed.

Definition linear_sample : Distribution :=
  {| Count := 5; Mean := 2; SumOfSquaredDeviation := 0; Range := None;
     BucketOptions_ := Some (LinearBuckets 3 10 0);
     BucketCounts := [0; 1; 3; 0; 1] |}.

Example linear_sample_histo :
  distributionToCircHisto (H := Reference.runtime) linear_sample
    (BucketOptions_ linear_sample)
  = Some {[ "1.000000e+01" := 1; "2.000000e+01" := 3;
            "1.000000e+128" := 1 ]}.
Proof. vm_compute. reflexivity. Qed.

Example explicit_sample_histo :
  distributionToCircHisto (H := Reference.runtime)
    {| Count := 4; Mean := 1; SumOfSquaredDeviation := 0; Range := None;
       BucketOptions_ := Some (ExplicitBuckets [1; 2.5; 4]%float);
       BucketCounts := [1; 0; 2; 1] |}
    (Some (ExplicitBuckets [1; 2.5; 4]%float))
  = Some {[ "0.000000e+00" := 1; "4.000000e+00" := 2;
            "1.000000e+128" := 1 ]}.
Proof. vm_compute. reflexivity. Qed.

(** C10: with a layout present every slice read of
    [distributionToCircHisto] is in range, so the function returns:
    [BucketCounts] is read at indices below its length only, and in the
    explicit layout [Bounds] is read at indices strictly between 0 and its
    length only.  With no layout present the function panics, on the nil
    [explicitBuckets] of the bucket-count computation. *)
Theorem distributionToCircHisto_reads_in_range `{GoRuntime}
    (metric : Distribution) :
  (forall options : BucketOptions,
      exists st : histo,
        distributionToCircHisto_run metric (Some options) = Some st /\
        distributionToCircHisto metric (Some options) = Some (ret st) /\
        Forall (read_in_range metric options) (reads st)) /\
  numBuckets None = None /\
  distributionToCircHisto_run metric None = None /\
  distributionToCircHisto metric None = None.
Proof.
  split; [| repeat split].
  intros options.
  destruct (distributionToCircHisto_run_spec metric options)
    as (st & Hrun & _ & Hreads).
  exists st. unfold distributionToCircHisto. rewrite Hrun. now repeat split.
Qed.

Example explicit_sample_reads :
  reads <$> distributionToCircHisto_run (H := Reference.runtime)
    {| Count := 4; Mean := 1; SumOfSquaredDeviation := 0; Range := None;
       BucketOptions_ := Some (ExplicitBuckets [1; 2.5; 4]%float);
       BucketCounts := [1; 0; 2; 1] |}
    (Some (ExplicitBuckets [1; 2.5; 4]%float))
  = Some [ReadBucketCount 0; ReadBucketCount 1; ReadBucketCount 2;
          ReadBound 2; ReadBucketCount 3].
Proof. vm_compute. reflexivity. Qed.

(** ** The metrics of a distribution sample *)

Section HistogramMetric.

Variables (field : string) (newTags : gmap string string) (ts : Time)
          (mk : cua_ValueType).

Definition set_field (fs : gmap string FieldValue) (kv : string * Z)
  : gmap string FieldValue :=
  <[fst kv := V_int64 (snd kv)]> fs.

Lemma histometric_of_Some (kvs : list (string * Z)) (m : Metric) :
  fold_left
    (fun histometric kv =>
       match histometric with
       | None =>
           Some (cuametric_New field newTags
                   {[ fst kv := V_int64 (snd kv) ]} ts mk)
       | Some m => Some (AddField m (fst kv) (V_int64 (snd kv)))
       end)
    kvs (Some m)
  = Some {| m_name := m_name m; m_tags := m_tags m;
            m_fields := fold_left set_field kvs (m_fields m);
            m_time := m_time m; m_type := m_type m |}.
Proof.
  revert m. induction kvs as [| kv kvs IH]; intros m; cbn [fold_left].
  - now destruct m.
  - now rewrite IH.
Qed.

Lemma set_fields_lookup (kvs : list (string * Z)) :
  NoDup (kvs.*1) ->
  forall (fs : gmap string FieldValue) (k : string),
    fold_left set_field kvs fs !! k
    = match (list_to_map kvs : gmap string Z) !! k with
      | Some v => Some (V_int64 v)
      | None => fs !! k
      end.
Proof.
  induction kvs as [| [k0 v0] kvs IH]; intros Hnd fs k; cbn [fold_left].
  - change (list_to_map [] : gmap string Z) with (∅ : gmap string Z).
    now rewrite lookup_empty.
  - apply NoDup_cons in Hnd as [Hnotin Hnd]. rewrite IH by assumption.
    cbn [list_to_map foldr]. unfold set_field. cbn [fst snd].
    rewrite !lookup_insert.
    destruct (decide (k0 = k)) as [-> | Hne]; [| reflexivity].
    now rewrite (not_elem_of_list_to_map_1 _ _ Hnotin).
Qed.

Lemma histometric_of_map (h : gmap string Z) :
  h <> ∅ ->
  histometric_of field newTags ts mk (map_to_list h)
  = Some (cuametric_New field newTags (V_int64 <$> h) ts mk).
Proof.
  intros Hne. unfold histometric_of.
  pose proof (NoDup_fst_map_to_list h) as Hnd.
  pose proof (list_to_map_to_list h) as Hmap.
  destruct (map_to_list h) as [| [k0 v0] kvs] eqn:E.
  - apply map_to_list_empty_iff in E. contradiction.
  - cbn [fold_left]. rewrite histometric_of_Some. unfold cuametric_New.
    cbn [m_name m_tags m_fields m_time m_type fst snd]. do 2 f_equal.
    apply map_eq. intros k.
    change ({[ k0 := V_int64 v0 ]} : gmap string FieldValue)
      with (set_field ∅ (k0, v0)).
    change (fold_left set_field kvs (set_field ∅ (k0, v0)))
      with (fold_left set_field ((k0, v0) :: kvs) ∅).
    rewrite set_fields_lookup by assumption.
    rewrite Hmap, lookup_fmap, lookup_empty.
    now destruct (h !! k).
Qed.

End HistogramMetric.

(** The scalar companions of a distribution sample, as calls of the
    grouper. *)
Definition companions (metric : Distribution) (tags : gmap string string)
    (ts : Time) (tsConf : timeSeriesConf) : list GrouperAdd :=
  let add field value :=
    {| add_measurement := measurement tsConf; add_tags := tags;
       add_tm := ts; add_field := fieldKey tsConf +:+ field;
       add_fieldValue := value |} in
  [ add "_count" (V_int64 (Count metric));
    add "_mean" (V_float64 (Mean metric));
    add "_sum_of_squared_deviation"
      (V_float64 (SumOfSquaredDeviation metric)) ] ++
  match Range metric with
  | Some r => [ add "_range_min" (V_float64 (Min r));
                add "_range_max" (V_float64 (Max r)) ]
  | None => []
  end.

(** The histogram metric of a distribution sample: named by the field key,
    tagged as the companions plus the measurement as metric group, with the
    bucket map as fields. *)
Definition histogram_metric (circhisto : gmap string Z)
    (tags : gmap string string) (ts : Time) (tsConf : timeSeriesConf)
    (metricKind : MetricDescriptor_MetricKind) : Metric :=
  {| m_name := fieldKey tsConf;
     m_tags := <["input_metric_group" := measurement tsConf]> tags;
     m_fields := V_int64 <$> circhisto;
     m_time := ts;
     m_type := if bool_decide (metricKind = CUMULATIVE)
               then CumulativeHistogram else Histogram |}.

Lemma size_pos_nonempty (h : gmap string Z) :
  (0 <? Z.of_nat (size h)) = negb (bool_decide (h = ∅)).
Proof.
  destruct (decide (h = ∅)) as [-> | Hne].
  - now rewrite map_size_empty.
  - rewrite bool_decide_eq_false_2 by assumption.
    assert (size h <> O) by now rewrite map_size_empty_iff.
    destruct (Z.ltb_spec 0 (Z.of_nat (size h))); [reflexivity | lia].
Qed.

Lemma addDistribution_run `{GoRuntime} (metric : Distribution)
    (tags : gmap string string) (ts : Time) (tsConf : timeSeriesConf)
    (metricKind : MetricDescriptor_MetricKind) (st : State) :
  addDistribution metric tags ts tsConf metricKind st =
  match distributionToCircHisto metric (BucketOptions_ metric) with
  | None => None
  | Some circhisto =>
      Some (tt,
            {| engine := engine st;
               world := world st;
               acc :=
                 if bool_decide (circhisto = ∅) then acc st
                 else {| acc_metrics :=
                           acc_metrics (acc st) ++
                           [histogram_metric circhisto tags ts tsConf
                              metricKind];
                         acc_errors := acc_errors (acc st) |};
               grouper := grouper st ++ companions metric tags ts tsConf |})
  end.
Proof.
  unfold addDistribution, companions, Bind, lockedSeriesGrouper_Add,
    put_grouper, Return, panic.
  cbn [engine world acc grouper].
  destruct (distributionToCircHisto metric (BucketOptions_ metric))
    as [circhisto |] eqn:Hh.
  - rewrite size_pos_nonempty.
    destruct (decide (circhisto = ∅)) as [-> | Hne].
    + rewrite bool_decide_eq_true_2 by reflexivity. cbn [negb].
      destruct (Range metric); cbn; rewrite <- ?app_assoc; destruct st;
        reflexivity.
    + rewrite bool_decide_eq_false_2 by assumption. cbn [negb].
      rewrite histometric_of_map by assumption.
      unfold acc_AddMetric, put_acc, histogram_metric, cuametric_New.
      destruct (Range metric); cbn; rewrite <- ?app_assoc; reflexivity.
  - destruct (Range metric); reflexivity.
Qed.

(** The words of the specification: the sample adds one metric to the
    accumulator, of a histogram type. *)
Definition emits_one_histogram (st st' : State) : Prop :=
  exists m : Metric,
    acc_metrics (acc st') = (acc_metrics (acc st) ++ [m])%list /\
    (m_type m = Histogram \/ m_type m = CumulativeHistogram).

Definition idle_World : World :=
  {| now_at := fun _ => 0; ticks := O; done_at := fun _ => false;
     polls := O; NewMetricClient := inl "no credentials"; calls := [] |}.

Definition idle_State : State :=
  {| engine := zero_Stackdriver; world := idle_World;
     acc := {| acc_metrics := []; acc_errors := [] |}; grouper := [] |}.

Definition empty_sample : Distribution :=
  {| Count := 0; Mean := 0; SumOfSquaredDeviation := 0; Range := None;
     BucketOptions_ := Some (LinearBuckets 3 10 0);
     BucketCounts := [0; 0; 0; 0; 0] |}.

Definition value_conf : timeSeriesConf :=
  newTimeSeriesConf zero_Stackdriver "custom.googleapis.com/latency" 0 0.

(** C2, as stated, fails: for a sample whose buckets are all empty the
    three companions are written and no histogram metric is emitted. *)
Lemma addDistribution_empty_histogram_not_emitted :
  exists st' : State,
    addDistribution (H := Reference.runtime) empty_sample ∅ 0 value_conf GAUGE
      idle_State = Some (tt, st') /\
    length (grouper st') = 3%nat /\
    acc_metrics (acc st') = [] /\
    ~ emits_one_histogram idle_State st'.
Proof.
  eexists. split; [vm_compute; reflexivity |].
  split; [reflexivity |]. split; [reflexivity |].
  intros (m & Hm & _). cbn in Hm. discriminate.
Qed.

(** C2, amended: for every distribution sample whose bucket options carry a
    layout, [addDistribution] writes the companions [<field>_count],
    [<field>_mean], [<field>_sum_of_squared_deviation] and, exactly when a
    range is present, [<field>_range_min] and [<field>_range_max] to the
    grouper, and then, exactly when the bucket map is not empty, emits a
    single metric named by the field key whose fields are the bucket map,
    of type cumulative histogram if and only if the metric kind is
    cumulative and histogram otherwise, tagged as the companions plus the
    tag [input_metric_group] holding the measurement; when the bucket map
    is empty no metric is emitted. *)
Theorem addDistribution_spec `{GoRuntime} (metric : Distribution)
    (tags : gmap string string) (ts : Time) (tsConf : timeSeriesConf)
    (metricKind : MetricDescriptor_MetricKind) (st : State)
    (options : BucketOptions) :
  BucketOptions_ metric = Some options ->
  exists circhisto : gmap string Z,
    distributionToCircHisto metric (Some options) = Some circhisto /\
    addDistribution metric tags ts tsConf metricKind st =
    Some (tt,
          {| engine := engine st;
             world := world st;
             acc :=
               if bool_decide (circhisto = ∅) then acc st
               else {| acc_metrics :=
                         acc_metrics (acc st) ++
                         [histogram_metric circhisto tags ts tsConf
                            metricKind];
                       acc_errors := acc_errors (acc st) |};
             grouper := grouper st ++ companions metric tags ts tsConf |}).
Proof.
  intros Hopt.
  destruct (distributionToCircHisto_run_spec metric options)
    as (h & Hh & _).
  exists (ret h). unfold distributionToCircHisto at 1. rewrite Hh.
  split; [reflexivity |].
  rewrite addDistribution_run, Hopt. unfold distributionToCircHisto.
  now rewrite Hh.
Qed.

Definition cumulative_sample : Distribution :=
  {| Count := 5; Mean := 2; SumOfSquaredDeviation := 0;
     Range := Some {| Min := 1; Max := 3 |};
     BucketOptions_ := Some (LinearBuckets 1 1 0);
     BucketCounts := [0; 3; 2] |}.

Lemma addDistribution_spec_witness :
  exists circhisto : gmap string Z,
    distributionToCircHisto (H := Reference.runtime) cumulative_sample
      (Some (LinearBuckets 1 1 0)) = Some circhisto /\
    addDistribution (H := Reference.runtime) cumulative_sample ∅ 0 value_conf
      CUMULATIVE idle_State =
    Some (tt,
          {| engine := engine idle_State;
             world := world idle_State;
             acc :=
               if bool_decide (circhisto = ∅) then acc idle_State
               else {| acc_metrics :=
                         acc_metrics (acc idle_State) ++
                         [histogram_metric circhisto ∅ 0 value_conf
                            CUMULATIVE];
                       acc_errors := acc_errors (acc idle_State) |};
             grouper :=
               grouper idle_State ++
               companions cumulative_sample ∅ 0 value_conf |}).
Proof.
  apply (addDistribution_spec (H := Reference.runtime) cumulative_sample ∅ 0
           value_conf CUMULATIVE idle_State (LinearBuckets 1 1 0)).
  reflexivity.
Defined.

Example cumulative_sample_metric :
  (acc_metrics ∘ acc ∘ snd) <$>
    addDistribution (H := Reference.runtime) cumulative_sample ∅ 0 value_conf
      CUMULATIVE idle_State
  = Some [ {| m_name := "latency";
              m_tags := {[ "input_metric_group" := "custom.googleapis.com" ]};
              m_fields := {[ "1.000000e+00" := V_int64 3;
                             "1.000000e+128" := V_int64 2 ]};
              m_time := 0;
              m_type := CumulativeHistogram |} ].
Proof. vm_compute. reflexivity. Qed.

(** ** Frames: what a computation leaves as it is *)

(** [keeps R m]: whenever [m] returns, the states before and after are
    related by [R]. *)
Definition keeps {A} (R : State -> State -> Prop) (m : M A) : Prop :=
  forall st a st', m st = Some (a, st') -> R st st'.

Section Frames.

Variable R : State -> State -> Prop.
Hypothesis R_refl : forall st, R st st.
Hypothesis R_trans : forall st1 st2 st3, R st1 st2 -> R st2 st3 -> R st1 st3.

Lemma keeps_Return {A} (a : A) : keeps R (Return a).
Proof. intros st a' st' [= _ <-]. apply R_refl. Qed.

Lemma keeps_panic {A} : keeps R (@panic A).
Proof. intros st a st' [=]. Qed.

Lemma keeps_Bind {A B} (m : M A) (k : A -> M B) :
  keeps R m -> (forall a, keeps R (k a)) -> keeps R (Bind m k).
Proof.
  intros Hm Hk st b st'. unfold Bind.
  destruct (m st) as [[a st1] |] eqn:E; [| discriminate].
  intros Hb. eapply R_trans; [eapply Hm; eassumption |].
  eapply Hk; eassumption.
Qed.

Lemma keeps_for_range {A S} (xs : list A) (body : A -> S -> M (bool * S)) :
  (forall x a, keeps R (body x a)) -> forall a, keeps R (for_range xs body a).
Proof.
  intros Hbody. induction xs as [| x xs IH]; intros a; cbn [for_range].
  - apply keeps_Return.
  - apply keeps_Bind; [apply Hbody |].
    intros [[] a']; [apply keeps_Return | apply IH].
Qed.

Lemma keeps_get_engine : keeps R get_engine.
Proof. intros st a st' [= _ <-]. apply R_refl. Qed.

Lemma keeps_get_world : keeps R get_world.
Proof. intros st a st' [= _ <-]. apply R_refl. Qed.

Lemma keeps_get_grouper : keeps R get_grouper.
Proof. intros st a st' [= _ <-]. apply R_refl. Qed.

End Frames.

(** The relations that the parts of a cycle keep. *)
Definition same_acc (st st' : State) : Prop := acc st' = acc st.

Definition same_schedule (st st' : State) : Prop :=
  prevEnd (engine st') = prevEnd (engine st) /\
  Window (engine st') = Window (engine st) /\
  Delay (engine st') = Delay (engine st).

Definition same_engine (st st' : State) : Prop := engine st' = engine st.

Lemma same_acc_refl st : same_acc st st.
Proof. reflexivity. Qed.

Lemma same_acc_trans st1 st2 st3 :
  same_acc st1 st2 -> same_acc st2 st3 -> same_acc st1 st3.
Proof. unfold same_acc. congruence. Qed.

Lemma same_schedule_refl st : same_schedule st st.
Proof. now repeat split. Qed.

Lemma same_schedule_trans st1 st2 st3 :
  same_schedule st1 st2 -> same_schedule st2 st3 -> same_schedule st1 st3.
Proof. unfold same_schedule. intuition congruence. Qed.

Lemma same_engine_refl st : same_engine st st.
Proof. reflexivity. Qed.

Lemma same_engine_trans st1 st2 st3 :
  same_engine st1 st2 -> same_engine st2 st3 -> same_engine st1 st3.
Proof. unfold same_engine. congruence. Qed.

Lemma same_engine_schedule st st' : same_engine st st' -> same_schedule st st'.
Proof. unfold same_engine, same_schedule. intros ->. now repeat split. Qed.

Create HintDb frame discriminated.

#[local] Hint Resolve same_acc_refl same_acc_trans same_schedule_refl
  same_schedule_trans same_engine_refl same_engine_trans : frame.

#[local] Hint Resolve keeps_Return keeps_panic keeps_get_engine
  keeps_get_world keeps_get_grouper : frame.

(** The writes, by the component they change. *)
Lemma put_world_same_acc w : keeps same_acc (put_world w).
Proof. now intros st a st' [= _ <-]. Qed.

Lemma put_world_same_engine w : keeps same_engine (put_world w).
Proof. now intros st a st' [= _ <-]. Qed.

Lemma put_grouper_same_acc g : keeps same_acc (put_grouper g).
Proof. now intros st a st' [= _ <-]. Qed.

Lemma put_grouper_same_engine g : keeps same_engine (put_grouper g).
Proof. now intros st a st' [= _ <-]. Qed.

Lemma put_engine_same_acc s : keeps same_acc (put_engine s).
Proof. now intros st a st' [= _ <-]. Qed.

Lemma put_acc_same_engine a : keeps same_engine (put_acc a).
Proof. now intros st x st' [= _ <-]. Qed.

#[local] Hint Resolve put_world_same_acc put_world_same_engine
  put_grouper_same_acc put_grouper_same_engine put_engine_same_acc
  put_acc_same_engine : frame.

(** Breaks a goal [keeps R m] down along the structure of [m]. *)
Ltac frame_step :=
  match goal with
  | |- keeps _ (Bind _ _) => apply keeps_Bind; [eauto with frame .. | intros]
  | |- keeps _ (for_range _ _ _) =>
      apply keeps_for_range; [eauto with frame .. | intros]
  | |- keeps _ (match ?x with _ => _ end) => destruct x
  | |- keeps _ (let '(_, _) := ?x in _) => destruct x
  | |- keeps _ _ => solve [eauto with frame]
  end.

Ltac frame := repeat frame_step.

Lemma time_Now_same_acc : keeps same_acc time_Now.
Proof. unfold time_Now. frame. Qed.

Lemma time_Now_same_engine : keeps same_engine time_Now.
Proof. unfold time_Now. frame. Qed.

Lemma done_same_acc : keeps same_acc done.
Proof. unfold done. frame. Qed.

Lemma done_same_engine : keeps same_engine done.
Proof. unfold done. frame. Qed.

Lemma log_call_same_acc c : keeps same_acc (log_call c).
Proof. unfold log_call. frame. Qed.

Lemma log_call_same_engine c : keeps same_engine (log_call c).
Proof. unfold log_call. frame. Qed.

#[local] Hint Resolve time_Now_same_acc time_Now_same_engine done_same_acc
  done_same_engine log_call_same_acc log_call_same_engine : frame.

Lemma lockedSeriesGrouper_Add_same_engine m t tm f v :
  keeps same_engine (lockedSeriesGrouper_Add m t tm f v).
Proof. now intros st a st' [= _ <-]. Qed.

Lemma acc_AddMetric_same_engine m : keeps same_engine (acc_AddMetric m).
Proof. now intros st a st' [= _ <-]. Qed.

Lemma acc_AddError_same_engine e : keeps same_engine (acc_AddError e).
Proof. destruct e; now intros st a st' [= _ <-]. Qed.

#[local] Hint Resolve lockedSeriesGrouper_Add_same_engine
  acc_AddMetric_same_engine acc_AddError_same_engine : frame.

(** ** The window scheduler *)

Definition set_world (st : State) (w : World) : State :=
  {| engine := engine st; world := w; acc := acc st; grouper := grouper st |}.

Definition set_engine (st : State) (s : Stackdriver) : State :=
  {| engine := s; world := world st; acc := acc st; grouper := grouper st |}.

(** The state after [n] more readings of the clock. *)
Definition advance (n : nat) (st : State) : State :=
  set_world st
    {| now_at := now_at (world st); ticks := (n + ticks (world st))%nat;
       done_at := done_at (world st); polls := polls (world st);
       NewMetricClient := NewMetricClient (world st);
       calls := calls (world st) |}.

Lemma time_Now_run (st : State) :
  time_Now st = Some (now_at (world st) (ticks (world st)), advance 1 st).
Proof. reflexivity. Qed.

(** The window as a function of the configuration, the clock readings and
    the previous end, with the number of clock readings taken. *)
Definition window_of (s : Stackdriver) (w : World) (prevEnd : Time)
  : Time * Time * nat :=
  let now0 := now_at w (ticks w) in
  let now1 := now_at w (S (ticks w)) in
  if negb (Window s =? 0) then
    (Time.Add (Time.Add now0 (Time.neg (Delay s))) (Time.neg (Window s)),
     Time.Add now1 (Time.neg (Delay s)), 2%nat)
  else if Time.IsZero prevEnd then
    (Time.Add (Time.Add now0 (Time.neg (Delay s))) (Time.neg defaultWindow),
     Time.Add now1 (Time.neg (Delay s)), 2%nat)
  else (prevEnd, Time.Add now0 (Time.neg (Delay s)), 1%nat).

Lemma updateWindow_run (prevEnd0 : Time) (st : State) :
  updateWindow prevEnd0 st =
  Some (fst (window_of (engine st) (world st) prevEnd0),
        advance (snd (window_of (engine st) (world st) prevEnd0)) st).
Proof.
  unfold updateWindow, window_of, Bind, get_engine.
  destruct (negb (Window (engine st) =? 0)); [reflexivity |].
  destruct (Time.IsZero prevEnd0); reflexivity.
Qed.

Lemma next_window_run (st : State) :
  next_window st =
  Some (fst (window_of (engine st) (world st) (prevEnd (engine st))),
        set_engine
          (advance (snd (window_of (engine st) (world st)
                           (prevEnd (engine st)))) st)
          (set_prevEnd (engine st)
             (snd (fst (window_of (engine st) (world st)
                          (prevEnd (engine st))))))).
Proof.
  unfold next_window, Bind, get_engine. rewrite updateWindow_run.
  destruct (window_of (engine st) (world st) (prevEnd (engine st)))
    as [[start end_] n].
  reflexivity.
Qed.

Lemma initializeStackdriverClient_run (st : State) :
  initializeStackdriverClient st =
  match client (engine st), NewMetricClient (world st) with
  | Some _, _ => Some (None, st)
  | None, inl err =>
      Some (Some (wrap_error
                    "failed to create stackdriver monitoring client" err),
            st)
  | None, inr c => Some (None, set_engine st (set_client (engine st) (Some c)))
  end.
Proof.
  unfold initializeStackdriverClient, Bind, get_engine, get_world.
  destruct (client (engine st)); [reflexivity |].
  destruct (NewMetricClient (world st)); reflexivity.
Qed.

(** The client is there, or can be made. *)
Definition client_available (st : State) : Prop :=
  match client (engine st), NewMetricClient (world st) with
  | None, inl _ => False
  | _, _ => True
  end.

Section EngineFrames.

Context `{GoRuntime}.

Lemma put_cache_same_schedule (s : Stackdriver) c :
  keeps (fun st st' => engine st = s -> same_schedule st st')
    (put_engine (set_cache s c)).
Proof. intros st a st' [= _ <-] <-. now repeat split. Qed.

Lemma client_ListMetricDescriptors_same_acc req :
  keeps same_acc (client_ListMetricDescriptors req).
Proof. unfold client_ListMetricDescriptors. frame. Qed.

Lemma client_ListMetricDescriptors_same_engine req :
  keeps same_engine (client_ListMetricDescriptors req).
Proof. unfold client_ListMetricDescriptors. frame. Qed.

Lemma client_ListTimeSeries_same_engine req :
  keeps same_engine (client_ListTimeSeries req).
Proof. unfold client_ListTimeSeries. frame. Qed.

Lemma IsValid_same_acc c : keeps same_acc (IsValid c).
Proof. unfold IsValid. frame. Qed.

Lemma IsValid_same_engine c : keeps same_engine (IsValid c).
Proof. unfold IsValid. frame. Qed.

Hint Resolve client_ListMetricDescriptors_same_acc
  client_ListMetricDescriptors_same_engine client_ListTimeSeries_same_engine
  IsValid_same_acc IsValid_same_engine : frame.

Lemma descriptor_body_same_acc s filter startTime endTime md ret0 :
  keeps same_acc (descriptor_body s filter startTime endTime md ret0).
Proof.
  unfold descriptor_body.
  destruct (_ && _); frame.
Qed.

Lemma descriptor_body_same_engine s filter startTime endTime md ret0 :
  keeps same_engine (descriptor_body s filter startTime endTime md ret0).
Proof.
  unfold descriptor_body.
  destruct (_ && _); frame.
Qed.

Hint Resolve descriptor_body_same_acc descriptor_body_same_engine : frame.

Lemma filter_body_same_acc s startTime endTime filter ret0 :
  keeps same_acc (filter_body s startTime endTime filter ret0).
Proof. unfold filter_body. frame. Qed.

Lemma filter_body_same_engine s startTime endTime filter ret0 :
  keeps same_engine (filter_body s startTime endTime filter ret0).
Proof. unfold filter_body. frame. Qed.

Hint Resolve filter_body_same_acc filter_body_same_engine : frame.

Lemma generatetimeSeriesConfs_same_acc startTime endTime :
  keeps same_acc (generatetimeSeriesConfs startTime endTime).
Proof. unfold generatetimeSeriesConfs. frame. Qed.

Lemma addDistribution_same_engine metric tags ts tsConf metricKind :
  keeps same_engine (addDistribution metric tags ts tsConf metricKind).
Proof.
  intros st a st'. rewrite addDistribution_run.
  destruct (distributionToCircHisto _ _); [| discriminate].
  now intros [= _ <-].
Qed.

Hint Resolve addDistribution_same_engine : frame.

Lemma point_body_same_engine tsConf tsDesc tags p u :
  keeps same_engine (point_body tsConf tsDesc tags p u).
Proof.
  unfold point_body. apply keeps_Bind; eauto with frame.
  - destruct (bool_decide _); [| eauto with frame].
    destruct (GetDistributionValue _); eauto with frame.
  - intros. frame.
Qed.

Hint Resolve point_body_same_engine : frame.

Lemma series_body_same_engine tsConf tsDesc u :
  keeps same_engine (series_body tsConf tsDesc u).
Proof. unfold series_body. frame. Qed.

Hint Resolve series_body_same_engine : frame.

Lemma gatherTimeSeries_same_engine tsConf :
  keeps same_engine (gatherTimeSeries tsConf).
Proof. unfold gatherTimeSeries. frame. Qed.

Hint Resolve gatherTimeSeries_same_engine : frame.

Lemma collect_same_engine tsConfs : keeps same_engine (collect tsConfs).
Proof.
  unfold collect, fetch_wave. frame.
  - unfold fetch_body. frame.
  - unfold emit_body. frame.
Qed.

(** A fetch changes the grouper by calls of [Add] only: what it leaves is
    what it found, with calls appended. *)
Definition grouper_grows (st st' : State) : Prop :=
  exists adds : list GrouperAdd, grouper st' = (grouper st ++ adds)%list.

Lemma grouper_grows_refl st : grouper_grows st st.
Proof. exists []. now rewrite app_nil_r. Qed.

Lemma grouper_grows_trans st1 st2 st3 :
  grouper_grows st1 st2 -> grouper_grows st2 st3 -> grouper_grows st1 st3.
Proof.
  intros [a1 E1] [a2 E2]. exists (a1 ++ a2)%list.
  now rewrite E2, E1, app_assoc.
Qed.

Lemma same_grouper_grows {A} (m : M A) :
  keeps (fun st st' => grouper st' = grouper st) m -> keeps grouper_grows m.
Proof.
  intros Hm st a st' Hrun. exists []. rewrite app_nil_r. eapply Hm, Hrun.
Qed.

Lemma gatherTimeSeries_grouper_grows tsConf :
  keeps grouper_grows (gatherTimeSeries tsConf).
Proof.
  pose proof grouper_grows_refl as Hrefl.
  pose proof grouper_grows_trans as Htrans.
  assert (keeps grouper_grows done) as Hdone
    by (apply same_grouper_grows; now intros st a st' [= _ <-]).
  assert (keeps grouper_grows get_engine) as Hget
    by now apply keeps_get_engine.
  assert (forall m t tm f v,
             keeps grouper_grows (lockedSeriesGrouper_Add m t tm f v)) as Hadd.
  { intros m t tm f v st a st' [= _ <-]. now eexists. }
  assert (forall A (a : A), keeps grouper_grows (Return a)) as Hret
    by (intros; now apply keeps_Return).
  unfold gatherTimeSeries. apply keeps_Bind; [assumption.. | |].
  { unfold client_ListTimeSeries. apply keeps_Bind; [assumption.. |].
    intros s. destruct (client s); [| now apply keeps_panic].
    apply keeps_Bind; [assumption.. | | intros; apply Hret].
    apply same_grouper_grows. now intros st a st' [= _ <-]. }
  intros [err | tss]; [apply Hret |].
  apply keeps_Bind; [assumption.. | | intros; apply Hret].
  apply keeps_for_range; [assumption.. |]. intros tsDesc [].
  unfold series_body. apply keeps_Bind; [assumption.. |]. intros s.
  apply keeps_Bind; [assumption.. | |].
  2: { intros. apply keeps_Bind; [assumption.. |]. intros; apply Hret. }
  apply keeps_for_range; [assumption.. |]. intros p [].
  unfold point_body. apply keeps_Bind; [assumption.. | |].
  2: { intros. apply keeps_Bind; [assumption.. |]. intros; apply Hret. }
  destruct (bool_decide _); [| apply Hadd].
  destruct (GetDistributionValue _); [| now apply keeps_panic].
  intros st a st'. rewrite addDistribution_run.
  destruct (distributionToCircHisto _ _); [| discriminate].
  intros [= _ <-]. now eexists.
Qed.

End EngineFrames.

Lemma Bind_inv {A B} (m : M A) (k : A -> M B) (st st' : State) (b : B) :
  Bind m k st = Some (b, st') ->
  exists a st1, m st = Some (a, st1) /\ k a st1 = Some (b, st').
Proof.
  unfold Bind. destruct (m st) as [[a st1] |]; [| discriminate].
  intros Hk. now exists a, st1.
Qed.

(** The engine is as before but for its cache. *)
Definition cache_only (st st' : State) : Prop :=
  exists c, engine st' = set_cache (engine st) c.

Lemma set_cache_same (s : Stackdriver) :
  set_cache s (timeSeriesConfCache_ s) = s.
Proof. now destruct s. Qed.

Lemma same_engine_cache_only st st' : same_engine st st' -> cache_only st st'.
Proof.
  unfold same_engine. intros E. exists (timeSeriesConfCache_ (engine st)).
  now rewrite E, set_cache_same.
Qed.

Lemma cache_only_schedule st st' : cache_only st st' -> same_schedule st st'.
Proof.
  intros [c E]. unfold same_schedule. rewrite E. now repeat split.
Qed.

Lemma window_of_ext (s s' : Stackdriver) (w : World) (p : Time) :
  Window s' = Window s -> Delay s' = Delay s ->
  window_of s' w p = window_of s w p.
Proof. intros HW HD. unfold window_of. now rewrite HW, HD. Qed.

Section Cycle.

Context `{GoRuntime}.

Lemma generatetimeSeriesConfs_cache_only startTime endTime :
  keeps cache_only (generatetimeSeriesConfs startTime endTime).
Proof.
  intros st r st' Hrun. unfold generatetimeSeriesConfs in Hrun.
  apply Bind_inv in Hrun as (s & st0 & [= <- <-] & Hrun).
  apply Bind_inv in Hrun as (hit & st1 & Hhit & Hrun).
  assert (same_engine st st1) as E1.
  { destruct (timeSeriesConfCache_ (engine st)).
    - eapply IsValid_same_engine; eassumption.
    - now injection Hhit as _ <-. }
  assert (forall c r0,
             Bind (put_engine (set_cache (engine st) c))
               (fun _ => Return r0) st1 = Some (r, st') ->
             cache_only st st') as Hput.
  { intros c r0 [= _ <-]. now exists c. }
  assert (Bind (for_range
                  (if len (newListMetricDescriptorsFilters (engine st)) =? 0
                   then [EmptyString]
                   else newListMetricDescriptorsFilters (engine st))
                  (filter_body (engine st) startTime endTime) (inr []))
            (fun r0 =>
               match r0 with
               | inl err => Return (None, Some err)
               | inr ret0 =>
                   Bind time_Now
                     (fun now =>
                        Bind (put_engine
                                (set_cache (engine st)
                                   (Some {| Generated := now;
                                            TimeSeriesConfs := Some ret0;
                                            TTL := CacheTTL (engine st) |})))
                          (fun _ => Return (Some ret0, None)))
               end) st1 = Some (r, st') -> cache_only st st') as Hmiss.
  { intros Hm. apply Bind_inv in Hm as (r0 & st2 & Hloop & Hm).
    assert (same_engine st1 st2) as E2.
    { eapply (keeps_for_range same_engine); [..| exact Hloop];
        eauto using filter_body_same_engine with frame. }
    destruct r0 as [err | ret0].
    - injection Hm as _ <-. apply same_engine_cache_only.
      unfold same_engine in *. congruence.
    - apply Bind_inv in Hm as (now & st3 & Hnow & Hm).
      rewrite time_Now_run in Hnow. injection Hnow as _ <-.
      injection Hm as _ <-. eexists. reflexivity. }
  destruct hit, (timeSeriesConfCache_ (engine st)); eauto.
Qed.

Lemma Gather_schedule (st st' : State) (r : option error) :
  Gather st = Some (r, st') ->
  client_available st ->
  prevEnd (engine st')
  = snd (fst (window_of (engine st) (world st) (prevEnd (engine st)))) /\
  Window (engine st') = Window (engine st) /\
  Delay (engine st') = Delay (engine st).
Proof.
  intros Hrun Havail. unfold Gather in Hrun.
  apply Bind_inv in Hrun as (s & st0 & [= <- <-] & Hrun).
  apply Bind_inv in Hrun as (u & st1 & Hrate & Hrun).
  assert (world st1 = world st /\ prevEnd (engine st1) = prevEnd (engine st)
          /\ Window (engine st1) = Window (engine st)
          /\ Delay (engine st1) = Delay (engine st)
          /\ client (engine st1) = client (engine st)) as (Hw1 & Hp1 & HW1 & HD1 & Hc1).
  { destruct (RateLimit (engine st) =? 0); injection Hrate as _ <-;
      now repeat split. }
  apply Bind_inv in Hrun as (err & st2 & Hinit & Hrun).
  rewrite initializeStackdriverClient_run in Hinit.
  unfold client_available in Havail. rewrite <- Hc1, <- Hw1 in Havail.
  assert (err = None /\ world st2 = world st /\
          prevEnd (engine st2) = prevEnd (engine st) /\
          Window (engine st2) = Window (engine st) /\
          Delay (engine st2) = Delay (engine st)) as (-> & Hw2 & Hp2 & HW2 & HD2).
  { destruct (client (engine st1)), (NewMetricClient (world st1));
      try contradiction; injection Hinit as <- <-; now repeat split. }
  apply Bind_inv in Hrun as ([start end_] & st3 & Hwin & Hrun).
  rewrite next_window_run in Hwin.
  rewrite (window_of_ext (engine st) (engine st2)), Hw2, Hp2 in Hwin
    by assumption.
  injection Hwin as Hse <-.
  apply Bind_inv in Hrun as ([tsConfs err] & st4 & Hgen & Hrun).
  apply generatetimeSeriesConfs_cache_only, cache_only_schedule in Hgen
    as (Hp4 & HW4 & HD4).
  cbn in Hp4, HW4, HD4.
  assert (same_engine st4 st') as E.
  { destruct err.
    - now injection Hrun as _ <-.
    - eapply collect_same_engine; eassumption. }
  unfold same_engine in E. rewrite E, Hp4, HW4, HD4.
  now repeat split.
Qed.

End Cycle.

Lemma window_end_exact (s : Stackdriver) (w : World) (p : Time) :
  Int.min_int64 < Delay s <= Int.max_int64 ->
  snd (fst (window_of s w p))
  = now_at w (ticks w + (snd (window_of s w p) - 1)) - Delay s.
Proof.
  intros Hd. unfold window_of.
  destruct (negb (Window s =? 0)); [| destruct (Time.IsZero p)];
    cbn [fst snd]; unfold Time.Add; rewrite TimeFacts.neg_exact by assumption;
    cbn [Nat.sub Nat.add]; rewrite ?Nat.add_0_r, ?Nat.add_1_r; lia.
Qed.

(** C4: [updateWindow] returns [end = now - delay], and
    [start = now - delay - window] when a window is configured,
    [start = now - delay - 1m] when none is configured and the previous end
    is the zero time, and [start = previousEnd] otherwise; each [now] is
    the reading of [time.Now()] where it is evaluated, and [- d] adds the
    [int64] negation of [d], which is [now - d] for every duration but the
    least one.  [Gather] keeps the end on the engine, so that with no window
    configured the next cycle starts where this one ended. *)
Theorem updateWindow_spec `{GoRuntime} (previousEnd : Time) (st : State) :
  let s := engine st in
  let now0 := now_at (world st) (ticks (world st)) in
  let now1 := now_at (world st) (S (ticks (world st))) in
  (Window s <> 0 ->
   updateWindow previousEnd st =
   Some ((Time.Add (Time.Add now0 (Time.neg (Delay s))) (Time.neg (Window s)),
          Time.Add now1 (Time.neg (Delay s))), advance 2 st)) /\
  (Window s = 0 -> previousEnd = 0 ->
   updateWindow previousEnd st =
   Some ((Time.Add (Time.Add now0 (Time.neg (Delay s)))
            (Time.neg (1 * Time.Minute)),
          Time.Add now1 (Time.neg (Delay s))), advance 2 st)) /\
  (Window s = 0 -> previousEnd <> 0 ->
   updateWindow previousEnd st =
   Some ((previousEnd, Time.Add now0 (Time.neg (Delay s))), advance 1 st)) /\
  (exists start end_ st1,
      updateWindow (prevEnd s) st = Some ((start, end_), st1) /\
      next_window st =
      Some ((start, end_), set_engine st1 (set_prevEnd s end_))) /\
  (forall (r : option error) (st' : State),
      Gather st = Some (r, st') -> client_available st ->
      exists start end_ st1,
        updateWindow (prevEnd s) st = Some ((start, end_), st1) /\
        prevEnd (engine st') = end_ /\
        Window (engine st') = Window s /\ Delay (engine st') = Delay s /\
        forall next : State,
          engine next = engine st' -> Window s = 0 -> end_ <> 0 ->
          exists end' next1,
            updateWindow (prevEnd (engine next)) next
            = Some ((end_, end'), next1)) /\
  (forall (now : Time) (d : Duration),
      Int.min_int64 < d <= Int.max_int64 ->
      Time.Add now (Time.neg d) = now - d).
Proof.
  cbv zeta. repeat split; [..
    | intros now d Hd; unfold Time.Add; now rewrite TimeFacts.neg_exact].
  - intros HW. rewrite updateWindow_run. unfold window_of.
    destruct (Z.eqb_spec (Window (engine st)) 0); [contradiction |].
    reflexivity.
  - intros HW ->. rewrite updateWindow_run. unfold window_of.
    rewrite HW. reflexivity.
  - intros HW Hp. rewrite updateWindow_run. unfold window_of.
    rewrite HW. unfold Time.IsZero.
    destruct (Z.eqb_spec previousEnd 0); [contradiction |]. reflexivity.
  - rewrite updateWindow_run, next_window_run.
    destruct (window_of (engine st) (world st) (prevEnd (engine st)))
      as [[start end_] n].
    now exists start, end_, (advance n st).
  - intros r st' Hrun Havail.
    destruct (Gather_schedule st st' r Hrun Havail) as (Hp & HW & HD).
    rewrite updateWindow_run.
    destruct (window_of (engine st) (world st) (prevEnd (engine st)))
      as [[start end_] n] eqn:Ewin.
    cbn [fst snd] in *.
    exists start, end_, (advance n st).
    split; [reflexivity |]. split; [exact Hp |].
    split; [exact HW |]. split; [exact HD |].
    intros next Heng HW0 Hend.
    rewrite updateWindow_run, Heng, Hp. unfold window_of.
    rewrite HW, HW0. unfold Time.IsZero.
    destruct (Z.eqb_spec end_ 0); [contradiction |].
    cbn [negb Z.eqb fst snd]. eauto.
Qed.

(** ** Computations that return *)

(** [safe P m]: from a state with [P], [m] returns, in a state with [P]. *)
Definition safe {A} (P : State -> Prop) (m : M A) : Prop :=
  forall st, P st -> exists a st', m st = Some (a, st') /\ P st'.

Section Safe.

Variable P : State -> Prop.

Lemma safe_Return {A} (a : A) : safe P (Return a).
Proof. intros st HP. now exists a, st. Qed.

Lemma safe_Bind {A B} (m : M A) (k : A -> M B) :
  safe P m -> (forall a, safe P (k a)) -> safe P (Bind m k).
Proof.
  intros Hm Hk st HP. unfold Bind.
  destruct (Hm st HP) as (a & st1 & -> & HP1).
  exact (Hk a st1 HP1).
Qed.

Lemma safe_for_range {A S} (xs : list A) (body : A -> S -> M (bool * S)) :
  (forall x a, safe P (body x a)) -> forall a, safe P (for_range xs body a).
Proof.
  intros Hbody. induction xs as [| x xs IH]; intros a; cbn [for_range].
  - apply safe_Return.
  - apply safe_Bind; [apply Hbody |].
    intros [[] a']; [apply safe_Return | apply IH].
Qed.

End Safe.

(** The engine has its client. *)
Definition has_client (st : State) : Prop := is_Some (client (engine st)).

Lemma safe_of_same_engine {A} (m : M A) :
  (forall st, exists a st', m st = Some (a, st')) ->
  keeps same_engine m -> safe has_client m.
Proof.
  intros Htotal Hkeeps st HP. destruct (Htotal st) as (a & st' & Hrun).
  exists a, st'. split; [exact Hrun |].
  unfold has_client. now rewrite (Hkeeps _ _ _ Hrun).
Qed.

Lemma safe_done : safe has_client done.
Proof.
  apply safe_of_same_engine; [| apply done_same_engine].
  intros st. now eexists _, _.
Qed.

Lemma safe_time_Now : safe has_client time_Now.
Proof.
  apply safe_of_same_engine; [| apply time_Now_same_engine].
  intros st. now eexists _, _.
Qed.

Lemma safe_client_ListMetricDescriptors req :
  safe has_client (client_ListMetricDescriptors req).
Proof.
  intros st [c Hc]. unfold client_ListMetricDescriptors, Bind, get_engine.
  rewrite Hc. eexists _, _. split; [reflexivity |].
  unfold has_client. cbn. now rewrite Hc.
Qed.

Section Cache.

Context `{GoRuntime}.

Lemma safe_filter_body s startTime endTime filter ret0 :
  safe has_client (filter_body s startTime endTime filter ret0).
Proof.
  unfold filter_body. destruct ret0 as [err | ret0]; [apply safe_Return |].
  apply safe_Bind; [apply safe_client_ListMetricDescriptors |].
  intros [err | mds]; [apply safe_Return |].
  apply safe_Bind.
  - apply safe_for_range. intros md ret1. unfold descriptor_body.
    destruct (_ && _); [apply safe_Return |].
    apply safe_Bind; [apply safe_done | intros; apply safe_Return].
  - intros ret1. apply safe_Bind; [apply safe_done |].
    intros; apply safe_Return.
Qed.

(** Whether the cache is there and valid at the next reading of the
    clock. *)
Definition cache_hit (st : State) : bool :=
  match timeSeriesConfCache_ (engine st) with
  | Some c =>
      match TimeSeriesConfs c with
      | Some _ =>
          Time.Sub (now_at (world st) (ticks (world st))) (Generated c)
          <? TTL c
      | None => false
      end
  | None => false
  end.

(** The state after the validity check, which reads the clock when there
    is a cache with a list. *)
Definition after_check (st : State) : State :=
  match timeSeriesConfCache_ (engine st) with
  | Some c =>
      match TimeSeriesConfs c with
      | Some _ => advance 1 st
      | None => st
      end
  | None => st
  end.

Lemma IsValid_run (c : timeSeriesConfCache) (st : State) :
  IsValid c st =
  match TimeSeriesConfs c with
  | None => Some (false, st)
  | Some _ =>
      Some (Time.Sub (now_at (world st) (ticks (world st))) (Generated c)
            <? TTL c, advance 1 st)
  end.
Proof. unfold IsValid. now destruct (TimeSeriesConfs c). Qed.

Definition window_interval (startTime endTime : Time) : TimeInterval :=
  {| EndTime_Seconds := Time.Unix endTime;
     StartTime_Seconds := Time.Unix startTime |}.

Lemma generatetimeSeriesConfs_hit (startTime endTime : Time) (st : State)
    (c : timeSeriesConfCache) (confs : list timeSeriesConf) :
  timeSeriesConfCache_ (engine st) = Some c ->
  TimeSeriesConfs c = Some confs ->
  cache_hit st = true ->
  generatetimeSeriesConfs startTime endTime st =
  Some ((Some (map (set_confs_Interval (window_interval startTime endTime))
                 confs), None),
        set_engine (advance 1 st)
          (set_cache (engine st)
             (Some {| Generated := Generated c;
                      TimeSeriesConfs :=
                        Some (map (set_confs_Interval
                                     (window_interval startTime endTime))
                                confs);
                      TTL := TTL c |}))).
Proof.
  intros Hc Hconfs Hhit. unfold cache_hit in Hhit. rewrite Hc, Hconfs in Hhit.
  unfold generatetimeSeriesConfs, Bind, get_engine.
  rewrite Hc, IsValid_run, Hconfs, Hhit. reflexivity.
Qed.

(** What a miss does once discovery has returned [r]. *)
Definition store_discovered (s : Stackdriver)
    (r : error + list timeSeriesConf)
  : M (option (list timeSeriesConf) * option error) :=
  match r with
  | inl err => Return (None, Some err)
  | inr ret0 =>
      let* now := time_Now in
      let* _ :=
        put_engine
          (set_cache s (Some {| Generated := now;
                                TimeSeriesConfs := Some ret0;
                                TTL := CacheTTL s |})) in
      Return (Some ret0, None)
  end.

Definition discovery_filters (s : Stackdriver) : list string :=
  if len (newListMetricDescriptorsFilters s) =? 0 then [EmptyString]
  else newListMetricDescriptorsFilters s.

Lemma generatetimeSeriesConfs_miss (startTime endTime : Time) (st : State) :
  cache_hit st = false ->
  generatetimeSeriesConfs startTime endTime st =
  Bind (for_range (discovery_filters (engine st))
          (filter_body (engine st) startTime endTime) (inr []))
    (store_discovered (engine st)) (after_check st).
Proof.
  intros Hhit. unfold cache_hit in Hhit. unfold after_check.
  unfold generatetimeSeriesConfs at 1. unfold Bind at 1 2. unfold get_engine.
  destruct (timeSeriesConfCache_ (engine st)) as [c |] eqn:Hc;
    [| reflexivity].
  rewrite IsValid_run.
  destruct (TimeSeriesConfs c) eqn:Hconfs; [| reflexivity].
  rewrite Hhit. reflexivity.
Qed.

End Cache.

(** ** The configuration cache *)

(** The words of the specification: the cache is valid if and only if
    [now - generation < ttl]. *)
Definition valid_iff_unexpired (c : timeSeriesConfCache) (st : State) : Prop :=
  exists (b : bool) (st' : State),
    IsValid c st = Some (b, st') /\
    (b = true <->
     now_at (world st) (ticks (world st)) - Generated c < TTL c).


(** What the refresh of a cached configuration changes: the interval of its
    request, and nothing else. *)
Definition refreshed (i : TimeInterval) (old new : timeSeriesConf) : Prop :=
  measurement new = measurement old /\
  fieldKey new = fieldKey old /\
  req_Name (listTimeSeriesRequest new) = req_Name (listTimeSeriesRequest old)
  /\
  req_Filter (listTimeSeriesRequest new)
  = req_Filter (listTimeSeriesRequest old) /\
  req_Aggregation (listTimeSeriesRequest new)
  = req_Aggregation (listTimeSeriesRequest old) /\
  req_Interval (listTimeSeriesRequest new) = i.

Lemma refreshed_map (i : TimeInterval) (confs : list timeSeriesConf) :
  Forall2 (refreshed i) confs (map (set_confs_Interval i) confs).
Proof.
  induction confs as [| conf confs IH]; constructor; [| exact IH].
  now repeat split.
Qed.

Lemma has_client_after_check (st : State) :
  has_client st -> has_client (after_check st).
Proof.
  unfold after_check. destruct (timeSeriesConfCache_ (engine st)) as [c |];
    [destruct (TimeSeriesConfs c) |]; trivial.
Qed.


(** ** Errors in a collection cycle *)

Definition set_acc (st : State) (a : Accumulator) : State :=
  {| engine := engine st; world := world st; acc := a; grouper := grouper st |}.

Definition set_grouper (st : State) (g : list GrouperAdd) : State :=
  {| engine := engine st; world := world st; acc := acc st; grouper := g |}.

(** The state with the call [c] made. *)
Definition called (c : ApiCall) (st : State) : State :=
  set_world st
    {| now_at := now_at (world st); ticks := ticks (world st);
       done_at := done_at (world st); polls := polls (world st);
       NewMetricClient := NewMetricClient (world st);
       calls := calls (world st) ++ [c] |}.

(** The state after the fetch of [tsConf] has failed with [err]: the call
    was made and the error is reported; the grouper, the metrics of the
    accumulator and the engine are as before. *)
Definition fetch_failed (tsConf : timeSeriesConf) (err : error) (st : State)
  : State :=
  set_acc (called (Call_ListTimeSeries (listTimeSeriesRequest tsConf)) st)
    {| acc_metrics := acc_metrics (acc st);
       acc_errors := acc_errors (acc st) ++
                     [wrap_error "list time series" err] |}.

(** The state with the grouped metrics handed to the accumulator. *)
Definition emitted (st : State) : State :=
  set_acc st
    {| acc_metrics := acc_metrics (acc st) ++
                      SeriesGrouper_Metrics (grouper st);
       acc_errors := acc_errors (acc st) |}.

(** The state with the default rate limit in place of none. *)
Definition with_default_RateLimit (st : State) : State :=
  if RateLimit (engine st) =? 0
  then set_engine st (set_RateLimit (engine st) defaultRateLimit)
  else st.

(** The state in which the cycle starts its work, or the error of the
    client initialization. *)
Definition prepare (st : State) : error + State :=
  let st1 := with_default_RateLimit st in
  match client (engine st1), NewMetricClient (world st1) with
  | Some _, _ => inr st1
  | None, inl err =>
      inl (wrap_error "failed to create stackdriver monitoring client" err)
  | None, inr c => inr (set_engine st1 (set_client (engine st1) (Some c)))
  end.

Lemma emit_run (ms : list Metric) :
  forall st : State,
    for_range ms emit_body tt st =
    Some (tt, set_acc st {| acc_metrics := acc_metrics (acc st) ++ ms;
                            acc_errors := acc_errors (acc st) |}).
Proof.
  induction ms as [| m ms IH]; intros st; cbn [for_range].
  - unfold Return, set_acc. rewrite app_nil_r. now destruct st as [? ? [] ?].
  - unfold Bind at 1. unfold emit_body, Bind, acc_AddMetric, put_acc, Return.
    rewrite IH. unfold set_acc. cbn. now rewrite <- app_assoc.
Qed.

Section CycleErrors.

Context `{GoRuntime}.

Lemma gatherTimeSeries_failed (tsConf : timeSeriesConf) (st : State)
    (c : metricClient) (err : error) :
  client (engine st) = Some c ->
  ListTimeSeries c (listTimeSeriesRequest tsConf) = inl err ->
  gatherTimeSeries tsConf st =
  Some (Some (wrap_error "list time series" err),
        called (Call_ListTimeSeries (listTimeSeriesRequest tsConf)) st).
Proof.
  intros Hc Herr.
  unfold gatherTimeSeries, client_ListTimeSeries, Bind, get_engine.
  rewrite Hc. cbn. now rewrite Herr.
Qed.

Lemma fetch_body_failed (tsConf : timeSeriesConf) (st : State)
    (c : metricClient) (err : error) :
  client (engine st) = Some c ->
  ListTimeSeries c (listTimeSeriesRequest tsConf) = inl err ->
  fetch_body tsConf tt st = Some ((false, tt), fetch_failed tsConf err st).
Proof.
  intros Hc Herr. unfold fetch_body, Bind.
  now rewrite (gatherTimeSeries_failed _ _ _ _ Hc Herr).
Qed.

Lemma fetch_body_continues (tsConf : timeSeriesConf) (st st' : State)
    (r : bool * unit) :
  fetch_body tsConf tt st = Some (r, st') -> r = (false, tt).
Proof.
  unfold fetch_body. intros Hrun.
  apply Bind_inv in Hrun as (err & st1 & _ & Hrun).
  apply Bind_inv in Hrun as (u & st2 & _ & Hrun).
  now injection Hrun as <- _.
Qed.

Lemma fetch_wave_cons (tsConf : timeSeriesConf) (rest : list timeSeriesConf)
    (st : State) :
  fetch_wave (tsConf :: rest) st =
  match fetch_body tsConf tt st with
  | Some (_, st1) => fetch_wave rest st1
  | None => None
  end.
Proof.
  unfold fetch_wave. cbn [for_range]. unfold Bind at 1.
  destruct (fetch_body tsConf tt st) as [[r st1] |] eqn:E; [| reflexivity].
  now rewrite (fetch_body_continues _ _ _ _ E).
Qed.

Lemma fetch_wave_app (pre rest : list timeSeriesConf) :
  forall st : State,
    fetch_wave (pre ++ rest) st =
    match fetch_wave pre st with
    | Some (_, st1) => fetch_wave rest st1
    | None => None
    end.
Proof.
  induction pre as [| tsConf pre IH]; intros st.
  - reflexivity.
  - cbn [app]. rewrite !fetch_wave_cons.
    destruct (fetch_body tsConf tt st) as [[r st1] |]; [apply IH | reflexivity].
Qed.

Lemma fetch_wave_same_engine (tsConfs : list timeSeriesConf) :
  keeps same_engine (fetch_wave tsConfs).
Proof.
  unfold fetch_wave. apply keeps_for_range; eauto with frame.
  intros tsConf []. unfold fetch_body.
  apply keeps_Bind; eauto using gatherTimeSeries_same_engine with frame.
  intros err. apply keeps_Bind; eauto with frame.
Qed.

Lemma fetch_wave_failed (pre rest : list timeSeriesConf)
    (tsConf : timeSeriesConf) (st : State) (c : metricClient) (err : error) :
  client (engine st) = Some c ->
  ListTimeSeries c (listTimeSeriesRequest tsConf) = inl err ->
  fetch_wave (pre ++ tsConf :: rest) st =
  match fetch_wave pre st with
  | Some (_, st1) => fetch_wave rest (fetch_failed tsConf err st1)
  | None => None
  end.
Proof.
  intros Hc Herr. rewrite fetch_wave_app.
  destruct (fetch_wave pre st) as [[[] st1] |] eqn:E; [| reflexivity].
  rewrite fetch_wave_cons.
  rewrite (fetch_body_failed tsConf st1 c err); [reflexivity | | exact Herr].
  now rewrite (fetch_wave_same_engine _ _ _ _ E).
Qed.

Lemma collect_run (tsConfs : list timeSeriesConf) (st : State) :
  collect tsConfs st =
  match fetch_wave tsConfs (set_grouper st []) with
  | Some (_, st1) => Some (None, emitted st1)
  | None => None
  end.
Proof.
  unfold collect, Bind, put_grouper, get_grouper.
  change {| engine := engine st; world := world st; acc := acc st;
            grouper := [] |} with (set_grouper st []).
  destruct (fetch_wave tsConfs (set_grouper st [])) as [[[] st1] |];
    [| reflexivity].
  now rewrite emit_run.
Qed.

Lemma Gather_run (st : State) :
  Gather st =
  match prepare st with
  | inl err => Some (Some err, with_default_RateLimit st)
  | inr st2 =>
      match next_window st2 with
      | Some ((start, end_), st3) =>
          match generatetimeSeriesConfs start end_ st3 with
          | Some ((_, Some err), st4) => Some (Some err, st4)
          | Some ((tsConfs, None), st4) => collect (default [] tsConfs) st4
          | None => None
          end
      | None => None
      end
  end.
Proof.
  unfold Gather, prepare. unfold Bind at 1 2 3. unfold get_engine.
  assert ((if RateLimit (engine st) =? 0
           then put_engine (set_RateLimit (engine st) defaultRateLimit)
           else Return tt) st = Some (tt, with_default_RateLimit st)) as ->.
  { unfold with_default_RateLimit.
    destruct (RateLimit (engine st) =? 0); [reflexivity |].
    unfold Return. now destruct st. }
  rewrite initializeStackdriverClient_run.
  destruct (client (engine (with_default_RateLimit st))),
    (NewMetricClient (world (with_default_RateLimit st)));
    try reflexivity;
    unfold Bind;
    match goal with
    | |- context [next_window ?s] =>
        destruct (next_window s) as [[[start end_] st3] |]; [| reflexivity]
    end;
    destruct (generatetimeSeriesConfs start end_ st3)
      as [[[tsConfs [err |]] st4] |]; reflexivity.
Qed.

Lemma with_default_RateLimit_acc (st : State) :
  acc (with_default_RateLimit st) = acc st.
Proof.
  unfold with_default_RateLimit. now destruct (RateLimit (engine st) =? 0).
Qed.

Lemma prepare_acc (st st2 : State) :
  prepare st = inr st2 -> acc st2 = acc st.
Proof.
  unfold prepare. pose proof (with_default_RateLimit_acc st) as Hacc.
  destruct (client (engine (with_default_RateLimit st))),
    (NewMetricClient (world (with_default_RateLimit st)));
    intros [= <-]; exact Hacc.
Qed.

Lemma Gather_error_no_metrics (st st' : State) (err : error) :
  Gather st = Some (Some err, st') -> acc st' = acc st.
Proof.
  rewrite Gather_run.
  destruct (prepare st) as [e | st2] eqn:Hprep.
  - intros [= _ <-]. apply with_default_RateLimit_acc.
  - rewrite next_window_run.
    destruct (window_of (engine st2) (world st2) (prevEnd (engine st2)))
      as [[start end_] n].
    cbn [fst snd].
    match goal with
    | |- context [generatetimeSeriesConfs start end_ ?s] =>
        destruct (generatetimeSeriesConfs start end_ s)
          as [[[tsConfs [e |]] st4] |] eqn:Hgen; [| | discriminate]
    end.
    + intros [= _ <-].
      apply generatetimeSeriesConfs_same_acc in Hgen.
      unfold same_acc in Hgen. rewrite Hgen. cbn.
      now apply prepare_acc.
    + rewrite collect_run.
      destruct (fetch_wave _ _) as [[[] st1] |]; discriminate.
Qed.

Lemma discovery_filters_cons (s : Stackdriver) :
  exists filter rest, discovery_filters s = filter :: rest.
Proof.
  unfold discovery_filters.
  destruct (Z.eqb_spec (len (newListMetricDescriptorsFilters s)) 0) as [E | NE].
  - now eexists _, _.
  - destruct (newListMetricDescriptorsFilters s) as [| f rest].
    + now cbn in NE.
    + now exists f, rest.
Qed.

(** The first request of discovery. *)
Definition first_discovery_request (s : Stackdriver)
  : ListMetricDescriptorsRequest :=
  {| mdreq_Name := "projects/" +:+ Project s;
     mdreq_Filter := hd EmptyString (discovery_filters s) |}.

Lemma generatetimeSeriesConfs_failed (startTime endTime : Time) (st : State)
    (c : metricClient) (err : error) :
  client (engine st) = Some c ->
  timeSeriesConfCache_ (engine st) = None ->
  ListMetricDescriptors c (first_discovery_request (engine st)) = inl err ->
  generatetimeSeriesConfs startTime endTime st =
  Some ((None, Some (wrap_error "list metric descriptors" err)),
        called (Call_ListMetricDescriptors
                  (first_discovery_request (engine st))) st).
Proof.
  intros Hc Hcache Herr.
  rewrite generatetimeSeriesConfs_miss
    by (unfold cache_hit; now rewrite Hcache).
  unfold after_check, first_discovery_request in *. rewrite Hcache.
  destruct (discovery_filters_cons (engine st)) as (filter & rest & Hf).
  rewrite Hf in *. cbn [hd] in Herr.
  unfold Bind at 1. cbn [for_range]. unfold Bind at 1.
  unfold filter_body, client_ListMetricDescriptors, Bind, get_engine.
  rewrite Hc. cbn. rewrite Herr. reflexivity.
Qed.

End CycleErrors.

Lemma with_default_RateLimit_client (st : State) :
  client (engine (with_default_RateLimit st)) = client (engine st) /\
  world (with_default_RateLimit st) = world st /\
  timeSeriesConfCache_ (engine (with_default_RateLimit st))
  = timeSeriesConfCache_ (engine st) /\
  Project (engine (with_default_RateLimit st)) = Project (engine st) /\
  MetricTypePrefixInclude (engine (with_default_RateLimit st))
  = MetricTypePrefixInclude (engine st).
Proof.
  unfold with_default_RateLimit.
  destruct (RateLimit (engine st) =? 0); now repeat split.
Qed.

Lemma first_discovery_request_ext `{GoRuntime} (s s' : Stackdriver) :
  Project s' = Project s ->
  MetricTypePrefixInclude s' = MetricTypePrefixInclude s ->
  first_discovery_request s' = first_discovery_request s.
Proof.
  intros HP HI.
  unfold first_discovery_request, discovery_filters,
    newListMetricDescriptorsFilters.
  now rewrite HP, HI.
Qed.


(** ** A cycle on concrete data *)

Definition demo_series : TimeSeries :=
  {| ts_Metric_Labels := ∅;
     ts_Resource_Type := "gce_instance";
     ts_Resource_Labels := {[ "zone" := "us-east1-b" ]};
     ts_MetricKind := GAUGE;
     ts_ValueType := INT64;
     ts_Points := [ {| pt_EndTime_Seconds := 1700000000;
                       pt_Value := TV_Int64Value 42 |} ] |}.

(** A service with two metric types; the listing of the second one fails. *)
Definition demo_client : metricClient :=
  {| ListMetricDescriptors := fun _ =>
       inr [ {| md_Type := "custom.googleapis.com/foo/bar";
                md_ValueType := INT64 |};
             {| md_Type := "custom.googleapis.com/foo/quota";
                md_ValueType := DOUBLE |} ];
     ListTimeSeries := fun req =>
       if String.prefix
            ("metric.type = " +:+ dq +:+ "custom.googleapis.com/foo/bar")
            (req_Filter req)
       then inr [demo_series]
       else inl "quota exceeded" |}.

(** A service whose discovery fails. *)
Definition down_client : metricClient :=
  {| ListMetricDescriptors := fun _ => inl "unavailable";
     ListTimeSeries := fun _ => inl "unavailable" |}.

Definition demo_engine (c : metricClient)
    (cache : option timeSeriesConfCache) : Stackdriver :=
  {| prevEnd := 0; client := Some c; timeSeriesConfCache_ := cache;
     Filter := None; Project := "demo";
     MetricTypePrefixExclude := []; MetricTypePrefixInclude := [];
     DistributionAggregationAligners := [];
     CacheTTL := defaultCacheTTL; Delay := defaultDelay; Window := 0;
     RateLimit := defaultRateLimit;
     GatherRawDistributionBuckets := true |}.

(** The clock starts at 1700000600 Unix seconds and advances by one second
    from one reading to the next; the context is never done. *)
Definition demo_World : World :=
  {| now_at := fun n => Time.FromUnix 1700000600 + Z.of_nat n * Time.Second;
     ticks := O; done_at := fun _ => false; polls := O;
     NewMetricClient := inr demo_client; calls := [] |}.

Definition demo_State (c : metricClient) (cache : option timeSeriesConfCache)
  : State :=
  {| engine := demo_engine c cache; world := demo_World;
     acc := {| acc_metrics := []; acc_errors := [] |}; grouper := [] |}.

Definition bar_conf : timeSeriesConf :=
  newTimeSeriesConf (demo_engine demo_client None)
    "custom.googleapis.com/foo/bar" 0 0.

Definition quota_conf : timeSeriesConf :=
  newTimeSeriesConf (demo_engine demo_client None)
    "custom.googleapis.com/foo/quota" 0 0.

(** A cache generated one minute before the first reading of the clock, and
    one generated 61 minutes before it. *)
Definition fresh_cache : timeSeriesConfCache :=
  {| Generated := Time.FromUnix 1700000600 - 1 * Time.Minute;
     TimeSeriesConfs := Some [bar_conf];
     TTL := 1 * Time.Hour |}.

Definition stale_cache : timeSeriesConfCache :=
  {| Generated := Time.FromUnix 1700000600 - 61 * Time.Minute;
     TimeSeriesConfs := Some [bar_conf];
     TTL := 1 * Time.Hour |}.

Example fresh_cache_valid :
  fst <$> IsValid fresh_cache (demo_State demo_client None) = Some true.
Proof. reflexivity. Qed.

Example stale_cache_invalid :
  fst <$> IsValid stale_cache (demo_State demo_client None) = Some false.
Proof. reflexivity. Qed.

(** The cycle of the demo service: the metric of the first type is emitted,
    the error of the second is reported, and no error is returned. *)
Example demo_cycle :
  (fun r => (fst r, acc (snd r))) <$>
    Gather (H := Reference.runtime) (demo_State demo_client None)
  = Some (None,
          {| acc_metrics :=
               [ {| m_name := "custom.googleapis.com/foo";
                    m_tags := {[ "resource_type" := "gce_instance";
                                 "project_id" := "demo";
                                 "zone" := "us-east1-b";
                                 "metric_category" := "foo";
                                 "metric_kind" := "gauge" ]};
                    m_fields := {[ "bar" := V_int64 42 ]};
                    m_time := Time.FromUnix 1700000000;
                    m_type := Untyped |} ];
             acc_errors := [ "list time series: quota exceeded" ] |}).
Proof. vm_compute. reflexivity. Qed.

Lemma demo_cycle_returns :
  exists (r : option error) (st' : State),
    Gather (H := Reference.runtime) (demo_State demo_client None)
    = Some (r, st').
Proof.
  assert (fst <$> Gather (H := Reference.runtime)
                    (demo_State demo_client None) = Some None) as Hrun
    by (vm_compute; reflexivity).
  destruct (Gather (H := Reference.runtime) (demo_State demo_client None))
    as [[r st'] |]; [eauto | discriminate].
Qed.

Lemma updateWindow_spec_witness :
  updateWindow 0
    (set_engine idle_State (set_prevEnd zero_Stackdriver 0)) =
  Some ((Time.Add (Time.Add 0 (Time.neg 0)) (Time.neg (1 * Time.Minute)),
         Time.Add 0 (Time.neg 0)),
        advance 2 (set_engine idle_State (set_prevEnd zero_Stackdriver 0))) /\
  updateWindow 77 idle_State =
  Some ((77, Time.Add 0 (Time.neg 0)), advance 1 idle_State) /\
  exists (r : option error) (st' : State),
    Gather (H := Reference.runtime) (demo_State demo_client None)
    = Some (r, st') /\
    exists start end_ st1,
      updateWindow (prevEnd (engine (demo_State demo_client None)))
        (demo_State demo_client None) = Some ((start, end_), st1) /\
      prevEnd (engine st') = end_ /\
      Window (engine st') = Window (engine (demo_State demo_client None)) /\
      Delay (engine st') = Delay (engine (demo_State demo_client None)) /\
      forall next : State,
        engine next = engine st' ->
        Window (engine (demo_State demo_client None)) = 0 -> end_ <> 0 ->
        exists end' next1,
          updateWindow (prevEnd (engine next)) next
          = Some ((end_, end'), next1).
Proof.
  split; [| split].
  - apply (updateWindow_spec (H := Reference.runtime) 0
             (set_engine idle_State (set_prevEnd zero_Stackdriver 0)));
      reflexivity.
  - apply (updateWindow_spec (H := Reference.runtime) 77 idle_State);
      [reflexivity | discriminate].
  - destruct demo_cycle_returns as (r & st' & E).
    exists r, st'. split; [exact E |].
    exact (proj1 (proj2 (proj2 (proj2 (proj2
             (updateWindow_spec (H := Reference.runtime) 0
                (demo_State demo_client None)))))) r st' E I).
Defined.

Example demo_cycle_window :
  (fun r => (fst r, prevEnd (engine (snd r)))) <$>
    next_window (demo_State demo_client None)
  = Some ((Time.FromUnix 1700000600 - 6 * Time.Minute,
           Time.FromUnix 1700000601 - 5 * Time.Minute),
          Time.FromUnix 1700000601 - 5 * Time.Minute).
Proof. vm_compute. reflexivity. Qed.



(** ** Mutual exclusion on the series grouper

    A fetch changes the grouper through calls of [Add] only
    ([gatherTimeSeries_grouper_grows]); the theorem below holds for the
    fetch tasks whatever calls they make. *)

Module Exclusion.

Import Locking.

(** The task [t] holds the mutex exactly when it is inside a call. *)
Definition holder_inside (σ : system) : Prop :=
  forall t f, fetchers σ !! t = Some f ->
              (at_ f <> Outside <-> Mutex σ = Some t).

Lemma holder_inside_start (programs : list (list GrouperAdd)) :
  holder_inside (start programs).
Proof.
  intros t f Hf. cbn in Hf. rewrite list_lookup_fmap in Hf.
  destruct (programs !! t); [| discriminate]. injection Hf as <-.
  cbn. split; [congruence | discriminate].
Qed.

Lemma lookup_after (l : list fetcher) (t u : nat) (f g : fetcher) :
  is_Some (l !! t) ->
  <[t := g]> l !! u = Some f ->
  (u = t /\ f = g) \/ (u <> t /\ l !! u = Some f).
Proof.
  intros Ht Hu. destruct (decide (u = t)) as [-> | Hne].
  - rewrite list_lookup_insert_eq in Hu by (now apply lookup_lt_is_Some).
    left. split; congruence.
  - rewrite list_lookup_insert_ne in Hu by congruence. now right.
Qed.

Lemma holder_inside_step (σ σ' : system) (l : nat * action) :
  holder_inside σ -> step σ l σ' -> holder_inside σ'.
Proof.
  intros Hinv Hstep u f Hu.
  destruct Hstep as [σ t a rest Ht Hfree | σ t a rest Ht | σ t a rest Ht
                    | σ t a rest Ht];
    cbn [fetchers Mutex] in *;
    (apply lookup_after in Hu as [[-> ->] | [Hne Hu]];
     [| | eexists; eassumption]);
    pose proof (Hinv t _ Ht) as Hholder; cbn [at_] in Hholder |- *.
  - split; [reflexivity | discriminate].
  - pose proof (Hinv u f Hu) as Hother. rewrite Hfree in Hother.
    split; [intros Hin; apply Hother in Hin; discriminate | congruence].
  - split; [intros _; apply Hholder; discriminate | discriminate].
  - apply (Hinv u f Hu).
  - split; [intros _; apply Hholder; discriminate | discriminate].
  - apply (Hinv u f Hu).
  - split; [congruence | discriminate].
  - pose proof (Hinv u f Hu) as Hother.
    assert (Mutex σ = Some t) as Hm by (apply Hholder; discriminate).
    rewrite Hm in Hother.
    split; [intros Hin; apply Hother in Hin; congruence | discriminate].
Qed.

Lemma holder_inside_reachable (programs : list (list GrouperAdd))
    (σ : system) :
  reachable programs σ -> holder_inside σ.
Proof.
  revert σ. unfold reachable. apply rtc_ind_r.
  - apply holder_inside_start.
  - intros σ σ' _ [l Hstep] IH. eapply holder_inside_step; eassumption.
Qed.

(** Alone, a task that calls [Add] goes through the four steps and leaves
    the mutex free and the call appended: the effect of
    [lockedSeriesGrouper_Add] on the grouper. *)
Lemma Add_alone (a : GrouperAdd) (rest done : list GrouperAdd) :
  rtc steps
    {| Mutex := None;
       fetchers := [ {| at_ := Outside; pending := a :: rest |} ];
       SeriesGrouper := done |}
    {| Mutex := None;
       fetchers := [ {| at_ := Outside; pending := rest |} ];
       SeriesGrouper := done ++ [a] |}.
Proof.
  eapply rtc_l; [exists (O, Lock); now eapply step_Lock |].
  eapply rtc_l; [exists (O, Add_begin); now eapply step_Add_begin |].
  eapply rtc_l; [exists (O, Add_end); now eapply step_Add_end |].
  eapply rtc_l; [exists (O, Unlock); now eapply step_Unlock |].
  apply rtc_refl.
Qed.

(** C9: in every state that the concurrently running fetch tasks of a cycle
    can reach, a task that is inside a call of [Add] holds the mutex, so no
    two tasks are inside the embedded [SeriesGrouper.Add] at once; and every
    step that changes the embedded grouper is taken by the task that holds
    the mutex, which took it before the embedded call began and frees it
    only after that call has ended. *)
Theorem lockedSeriesGrouper_Add_exclusive
    (programs : list (list GrouperAdd)) (σ : system) :
  reachable programs σ ->
  (forall t f, fetchers σ !! t = Some f ->
               at_ f <> Outside -> Mutex σ = Some t) /\
  (forall t1 t2 f1 f2,
      fetchers σ !! t1 = Some f1 -> fetchers σ !! t2 = Some f2 ->
      at_ f1 = Writing -> at_ f2 = Writing -> t1 = t2) /\
  (forall t act σ',
      step σ (t, act) σ' ->
      SeriesGrouper σ' <> SeriesGrouper σ ->
      act = Add_end /\ Mutex σ = Some t /\ Mutex σ' = Some t) /\
  (forall t σ',
      step σ (t, Add_begin) σ' -> Mutex σ = Some t /\ Mutex σ' = Some t) /\
  (forall t σ',
      step σ (t, Unlock) σ' ->
      Mutex σ = Some t /\
      exists f, fetchers σ !! t = Some f /\ at_ f = Written).
Proof.
  intros Hreach. pose proof (holder_inside_reachable _ _ Hreach) as Hinv.
  repeat apply conj.
  - intros t f Hf Hin. now apply (Hinv t f Hf).
  - intros t1 t2 f1 f2 H1 H2 Hw1 Hw2.
    assert (Mutex σ = Some t1) as E1
      by (apply (Hinv t1 f1 H1); rewrite Hw1; discriminate).
    assert (Mutex σ = Some t2) as E2
      by (apply (Hinv t2 f2 H2); rewrite Hw2; discriminate).
    congruence.
  - intros t act σ' Hstep Hchange.
    inversion Hstep as [? ? a rest Ht Hfree | ? ? a rest Ht | ? ? a rest Ht
                       | ? ? a rest Ht]; subst; cbn in Hchange;
      try congruence.
    assert (Mutex σ = Some t) as Hm
      by (apply (Hinv t _ Ht); discriminate).
    now repeat split.
  - intros t σ' Hstep.
    inversion Hstep as [| ? ? a rest Ht | |]; subst.
    assert (Mutex σ = Some t) as Hm
      by (apply (Hinv t _ Ht); discriminate).
    now split.
  - intros t σ' Hstep.
    inversion Hstep as [| | | ? ? a rest Ht]; subst.
    split; [apply (Hinv t _ Ht); discriminate |].
    eexists. split; [exact Ht | reflexivity].
Qed.

Lemma lockedSeriesGrouper_Add_exclusive_witness :
  let a := {| add_measurement := "m"; add_tags := ∅; add_tm := 0;
              add_field := "f"; add_fieldValue := V_int 1 |} in
  let σ := {| Mutex := Some 1%nat;
              fetchers := [ {| at_ := Outside; pending := [a] |};
                            {| at_ := Writing; pending := [a] |} ];
              SeriesGrouper := [] |} in
  (forall t f, fetchers σ !! t = Some f ->
               at_ f <> Outside -> Mutex σ = Some t) /\
  (forall t1 t2 f1 f2,
      fetchers σ !! t1 = Some f1 -> fetchers σ !! t2 = Some f2 ->
      at_ f1 = Writing -> at_ f2 = Writing -> t1 = t2) /\
  (forall t act σ',
      step σ (t, act) σ' ->
      SeriesGrouper σ' <> SeriesGrouper σ ->
      act = Add_end /\ Mutex σ = Some t /\ Mutex σ' = Some t) /\
  (forall t σ',
      step σ (t, Add_begin) σ' -> Mutex σ = Some t /\ Mutex σ' = Some t) /\
  (forall t σ',
      step σ (t, Unlock) σ' ->
      Mutex σ = Some t /\
      exists f, fetchers σ !! t = Some f /\ at_ f = Written).
Proof.
  intros a σ.
  apply (lockedSeriesGrouper_Add_exclusive [[a]; [a]] σ).
  eapply rtc_l; [exists (1%nat, Lock); now eapply step_Lock |].
  eapply rtc_l; [exists (1%nat, Add_begin); now eapply step_Add_begin |].
  apply rtc_refl.
Defined.

End Exclusion.

(** * Further properties of the engine *)

(** ** Which metric types are collected *)

(** [p] is a prefix of [s]. *)
Definition is_prefix_of (p s : string) : Prop := exists rest, s = p +:+ rest.

Lemma HasPrefix_spec (s p : string) :
  Strings.HasPrefix s p = true <-> is_prefix_of p s.
Proof.
  unfold Strings.HasPrefix, is_prefix_of. revert s.
  induction p as [| a p IH]; intros s.
  - split; [intros _; now exists s | now destruct s].
  - destruct s as [| b s]; simpl.
    + split; [discriminate | intros [rest Hrest]; discriminate].
    + destruct (Ascii.ascii_dec a b) as [-> | Hne].
      * rewrite IH. split; intros [rest Hrest]; exists rest.
        -- now rewrite Hrest.
        -- now injection Hrest.
      * split; [discriminate |]. intros [rest Hrest].
        injection Hrest as Hab _. congruence.
Qed.

Lemma existsb_HasPrefix (key : string) (prefixes : list string) :
  existsb (Strings.HasPrefix key) prefixes = true <->
  exists p, In p prefixes /\ is_prefix_of p key.
Proof.
  rewrite existsb_exists. split; intros (p & Hin & Hp); exists p;
    (split; [exact Hin | now apply HasPrefix_spec]).
Qed.

(** X1: With include prefixes configured, a metric type is collected if and
    only if one of them is a prefix of it, whatever the exclude prefixes
    are; with none configured, if and only if no exclude prefix is a prefix
    of it. *)
Theorem includeMetricType_prefixes (s : Stackdriver) (metricType : string) :
  includeMetricType s metricType = true <->
  match MetricTypePrefixInclude s with
  | [] =>
      forall p, In p (MetricTypePrefixExclude s) ->
                ~ is_prefix_of p metricType
  | _ :: _ =>
      exists p, In p (MetricTypePrefixInclude s) /\ is_prefix_of p metricType
  end.
Proof.
  unfold includeMetricType, includeExcludeHelper.
  destruct (MetricTypePrefixInclude s) as [| inc incs] eqn:Hinc.
  - change (0 <? len (@nil string)) with false. cbv iota.
    destruct (MetricTypePrefixExclude s) as [| exc excs] eqn:Hexc.
    + cbn. split; [intros _ p [] | reflexivity].
    + replace (0 <? len (exc :: excs)) with true
        by (symmetry; apply Z.ltb_lt; unfold len; cbn [length]; lia).
      cbv iota.
      rewrite negb_true_iff, <- not_true_iff_false, existsb_HasPrefix.
      split.
      * intros Hno p Hin Hp. apply Hno. now exists p.
      * intros Hno (p & Hin & Hp). exact (Hno p Hin Hp).
  - replace (0 <? len (inc :: incs)) with true
      by (symmetry; apply Z.ltb_lt; unfold len; cbn [length]; lia).
    cbv iota. apply existsb_HasPrefix.
Qed.

(** ** The metric type behind a configuration *)

Lemma contains_byte_last (s : string) (c : ascii) :
  Strings.contains_byte s c = true ->
  exists pre suf,
    s = pre +:+ String c suf /\ Strings.contains_byte suf c = false.
Proof.
  induction s as [| a s IH]; cbn [Strings.contains_byte]; [discriminate |].
  destruct (Strings.contains_byte s c) eqn:Hs.
  - intros _. destruct (IH eq_refl) as (pre & suf & -> & Hsuf).
    now exists (String a pre), suf.
  - rewrite orb_false_r. intros Ha. apply Ascii.eqb_eq in Ha as ->.
    now exists EmptyString, s.
Qed.

(** X2: The field key of a new configuration holds no ['/'], and the metric
    type can be read back from the configuration: either the measurement is
    the metric type and the field key is the default, or the measurement is
    not empty and measurement, ['/'] and field key make up the metric
    type. *)
Theorem newTimeSeriesConf_rejoin
    (s : Stackdriver) (metricType : string) (startTime endTime : Time) :
  let cfg := newTimeSeriesConf s metricType startTime endTime in
  Strings.contains_byte (fieldKey cfg) "/"%char = false /\
  ((measurement cfg = metricType /\ fieldKey cfg = "value") \/
   (measurement cfg +:+ "/" +:+ fieldKey cfg = metricType /\
    measurement cfg <> EmptyString)).
Proof.
  cbv zeta.
  destruct (Strings.contains_byte metricType "/"%char) eqn:Hc.
  - destruct (contains_byte_last _ _ Hc) as (pre & suf & -> & Hsuf).
    destruct pre as [| a pre].
    + destruct (newTimeSeriesConf_unsplit s startTime endTime
                  (EmptyString +:+ String "/"%char suf)) as [Hm Hf].
      { rewrite StringsFacts.LastIndexByte_last by assumption. cbn. lia. }
      rewrite Hm, Hf. split; [reflexivity | now left].
    + unfold newTimeSeriesConf.
      rewrite StringsFacts.LastIndexByte_last by assumption.
      replace (0 <? Z.of_nat (String.length (String a pre))) with true
        by (symmetry; apply Z.ltb_lt; cbn [String.length]; lia).
      cbn [measurement fieldKey].
      rewrite StringsFacts.slice_to_app, StringsFacts.slice_from_app.
      split; [exact Hsuf |]. right. split; [reflexivity | discriminate].
  - destruct (newTimeSeriesConf_unsplit s startTime endTime metricType)
      as [Hm Hf].
    { rewrite StringsFacts.LastIndexByte_absent by assumption. lia. }
    rewrite Hm, Hf. split; [reflexivity | now left].
Qed.

(** ** Recognized aggregation aligners *)

Lemma append_inj_l (a x y : string) : a +:+ x = a +:+ y -> x = y.
Proof.
  induction a as [| c a IH]; [trivial |].
  rewrite !StringsFacts.append_cons. intros [= E]. now apply IH.
Qed.

(** No two names of the table differ by case only, and no two have the same
    number. *)
Definition aligners_apart : bool :=
  forallb
    (fun a =>
       forallb
         (fun b =>
            implb
              (String.eqb (Strings.ToLower (fst a)) (Strings.ToLower (fst b))
               || (snd a =? snd b))
              (String.eqb (fst a) (fst b) && (snd a =? snd b)))
         Aggregation_Aligner_table)
    Aggregation_Aligner_table.

Lemma aligners_apart_true : aligners_apart = true.
Proof. vm_compute. reflexivity. Qed.

Lemma aligners_apart_spec (a b : string) (n m : Z) :
  Aggregation_Aligner_value !! a = Some n ->
  Aggregation_Aligner_value !! b = Some m ->
  Strings.ToLower a = Strings.ToLower b \/ n = m -> a = b /\ n = m.
Proof.
  intros Ha Hb Hsame.
  apply elem_of_list_to_map_2, list_elem_of_In in Ha, Hb.
  pose proof aligners_apart_true as Hall. unfold aligners_apart in Hall.
  rewrite forallb_forall in Hall. specialize (Hall _ Ha).
  rewrite forallb_forall in Hall. specialize (Hall _ Hb).
  cbn [fst snd] in Hall.
  assert ((Strings.ToLower a =? Strings.ToLower b)%string || (n =? m) = true)
    as Hpre.
  { destruct Hsame as [E | E].
    - rewrite E, String.eqb_refl. reflexivity.
    - rewrite E, Z.eqb_refl. apply orb_true_r. }
  rewrite Hpre in Hall. cbn [implb] in Hall.
  apply andb_true_iff in Hall as [Hab Hnm].
  apply String.eqb_eq in Hab. apply Z.eqb_eq in Hnm. now split.
Qed.

(** X3: For a recognized aligner name, [initForAggregate] suffixes the field
    key with ['_'] and the name in lower case and attaches an aggregation
    with that aligner and a 60-second alignment period; it changes nothing
    else of the configuration.  Two recognized names that differ give
    different field keys and different aligners. *)
Theorem initForAggregate_recognized_apart
    (t : timeSeriesConf) (a b : string) (n m : Z) :
  Aggregation_Aligner_value !! a = Some n ->
  Aggregation_Aligner_value !! b = Some m ->
  fieldKey (initForAggregate t a)
  = fieldKey t +:+ "_" +:+ Strings.ToLower a /\
  measurement (initForAggregate t a) = measurement t /\
  listTimeSeriesRequest (initForAggregate t a)
  = set_Aggregation (listTimeSeriesRequest t)
      (Some {| AlignmentPeriod_Seconds := 60; PerSeriesAligner := n |}) /\
  (fieldKey (initForAggregate t a) = fieldKey (initForAggregate t b) ->
   a = b) /\
  (req_Aggregation (listTimeSeriesRequest (initForAggregate t a))
   = req_Aggregation (listTimeSeriesRequest (initForAggregate t b)) ->
   a = b).
Proof.
  intros Ha Hb.
  rewrite (initForAggregate_recognized t a n Ha),
    (initForAggregate_recognized t b m Hb).
  cbn [fieldKey measurement listTimeSeriesRequest set_Aggregation
       req_Aggregation].
  repeat split.
  - intros E. apply append_inj_l in E.
    change ("_" +:+ Strings.ToLower a)
      with (String "_"%char (Strings.ToLower a)) in E.
    change ("_" +:+ Strings.ToLower b)
      with (String "_"%char (Strings.ToLower b)) in E.
    injection E as E.
    now apply (aligners_apart_spec a b n m Ha Hb); left.
  - intros [= E]. now apply (aligners_apart_spec a b n m Ha Hb); right.
Qed.

Lemma initForAggregate_recognized_apart_witness :
  fieldKey (initForAggregate value_conf "ALIGN_MEAN")
  = fieldKey value_conf +:+ "_" +:+ Strings.ToLower "ALIGN_MEAN" /\
  measurement (initForAggregate value_conf "ALIGN_MEAN")
  = measurement value_conf /\
  listTimeSeriesRequest (initForAggregate value_conf "ALIGN_MEAN")
  = set_Aggregation (listTimeSeriesRequest value_conf)
      (Some {| AlignmentPeriod_Seconds := 60; PerSeriesAligner := 12 |}) /\
  (fieldKey (initForAggregate value_conf "ALIGN_MEAN")
   = fieldKey (initForAggregate value_conf "ALIGN_SUM") ->
   "ALIGN_MEAN" = "ALIGN_SUM") /\
  (req_Aggregation (listTimeSeriesRequest
                      (initForAggregate value_conf "ALIGN_MEAN"))
   = req_Aggregation (listTimeSeriesRequest
                        (initForAggregate value_conf "ALIGN_SUM")) ->
   "ALIGN_MEAN" = "ALIGN_SUM").
Proof.
  apply (initForAggregate_recognized_apart value_conf "ALIGN_MEAN"
           "ALIGN_SUM" 12 14); vm_compute; reflexivity.
Defined.

(** ** The configurations of a metric descriptor *)

(** X4: Every configuration made for a descriptor queries the same time series
    (name, filter, interval) under the same measurement as a new
    configuration of its metric type; the one without aggregation is that
    configuration, and an aggregation has a 60-second alignment period.  A
    descriptor that is not a distribution gets one configuration; a
    distribution gets one for the raw buckets, if they are gathered, and one
    per configured aligner, so none at all when the raw buckets are not
    gathered and no aligner is configured. *)
Theorem descriptor_confs_shape
    (s : Stackdriver) (metricDescriptor : MetricDescriptor)
    (startTime endTime : Time) :
  let base :=
    newTimeSeriesConf s (md_Type metricDescriptor) startTime endTime in
  let confs := descriptor_confs s metricDescriptor startTime endTime in
  len confs
  = (if bool_decide (md_ValueType metricDescriptor = DISTRIBUTION)
     then (if GatherRawDistributionBuckets s then 1 else 0)
          + len (DistributionAggregationAligners s)
     else 1) /\
  Forall
    (fun c =>
       measurement c = measurement base /\
       set_Aggregation (listTimeSeriesRequest c) None
       = listTimeSeriesRequest base /\
       match req_Aggregation (listTimeSeriesRequest c) with
       | None => c = base
       | Some agg =>
           AlignmentPeriod_Seconds agg = 60 /\
           md_ValueType metricDescriptor = DISTRIBUTION /\
           exists alignerStr,
             In alignerStr (DistributionAggregationAligners s) /\
             c = initForAggregate base alignerStr
       end)
    confs.
Proof.
  cbv zeta. unfold descriptor_confs.
  set (base := newTimeSeriesConf s (md_Type metricDescriptor) startTime
                 endTime).
  assert (req_Aggregation (listTimeSeriesRequest base) = None) as Hnone
    by (unfold base, newTimeSeriesConf; now destruct (0 <? _)).
  assert (set_Aggregation (listTimeSeriesRequest base) None
          = listTimeSeriesRequest base) as Hsame.
  { destruct (listTimeSeriesRequest base) as [n f i a] eqn:E. cbn in Hnone.
    now subst a. }
  assert (measurement base = measurement base /\
          set_Aggregation (listTimeSeriesRequest base) None
          = listTimeSeriesRequest base /\
          match req_Aggregation (listTimeSeriesRequest base) with
          | None => base = base
          | Some agg =>
              AlignmentPeriod_Seconds agg = 60 /\
              md_ValueType metricDescriptor = DISTRIBUTION /\
              exists alignerStr,
                In alignerStr (DistributionAggregationAligners s) /\
                base = initForAggregate base alignerStr
          end) as Hbase by (rewrite Hnone; now repeat split).
  destruct (decide (md_ValueType metricDescriptor = DISTRIBUTION)) as [Hd | Hd].
  - rewrite !bool_decide_eq_true_2 by assumption. split.
    + unfold len. rewrite length_app, length_map.
      destruct (GatherRawDistributionBuckets s); cbn [length]; lia.
    + apply Forall_app. split.
      * destruct (GatherRawDistributionBuckets s); repeat constructor;
          apply Hbase.
      * apply Forall_forall. intros c Hc.
        apply list_elem_of_In, in_map_iff in Hc as (alignerStr & <- & Hin).
        unfold initForAggregate.
        destruct (map_get2 0 Aggregation_Aligner_value alignerStr)
          as [alignerInt isValid] eqn:E.
        cbn [measurement listTimeSeriesRequest set_Aggregation req_Name
             req_Filter req_Interval req_Aggregation AlignmentPeriod_Seconds].
        split; [reflexivity |]. split.
        { rewrite <- Hsame at 2. reflexivity. }
        split; [reflexivity |]. split; [assumption |].
        exists alignerStr. split; [assumption |].
        unfold initForAggregate. now rewrite E.
  - rewrite !bool_decide_eq_false_2 by assumption.
    split; [reflexivity |]. repeat constructor; apply Hbase.
Qed.

(** ** The tags of a time series *)

(** The name of a metric kind as a tag value; an enumerant out of the four
    has none. *)
Definition metric_kind_name (k : MetricDescriptor_MetricKind)
  : option string :=
  match k with
  | METRIC_KIND_UNSPECIFIED => Some "unspecified"
  | GAUGE => Some "gauge"
  | DELTA => Some "delta"
  | CUMULATIVE => Some "cumulative"
  | METRIC_KIND_other _ => None
  end.

(** The last segment of a measurement: what follows its last ['/'], if that
    is not its first byte, and the measurement itself otherwise. *)
Definition metric_category (measurement : string) : string :=
  let slashIdx := Strings.LastIndexByte measurement "/"%char in
  if 0 <? slashIdx then Strings.slice_from measurement (slashIdx + 1)
  else measurement.

(** The tag that the labels of a series and the engine give to a key: the
    metric label of that name, or else the resource label of that name, or
    else the project for [project_id] and the resource type for
    [resource_type]. *)
Definition label_tag (s : Stackdriver) (tsDesc : TimeSeries) (k : string)
  : option string :=
  match ts_Metric_Labels tsDesc !! k with
  | Some v => Some v
  | None =>
      match ts_Resource_Labels tsDesc !! k with
      | Some v => Some v
      | None =>
          if decide (k = "project_id") then Some (Project s)
          else if decide (k = "resource_type")
          then Some (ts_Resource_Type tsDesc)
          else None
      end
  end.

(** X5: The tags of a series, key by key: [metric_kind] is the name of the
    metric kind when it is one of the four, and [metric_category] is the
    last segment of the measurement, whatever labels the series has; any
    other key, and [metric_kind] for an unknown kind, has the tag that the
    labels give it: a metric label goes before a resource label of the same
    name, and both go before the project and the resource type. *)
Theorem series_tags_lookup
    (s : Stackdriver) (tsConf : timeSeriesConf) (tsDesc : TimeSeries)
    (k : string) :
  series_tags s tsConf tsDesc !! k =
  if decide (k = "metric_kind" /\
             is_Some (metric_kind_name (ts_MetricKind tsDesc)))
  then metric_kind_name (ts_MetricKind tsDesc)
  else if decide (k = "metric_category")
  then Some (metric_category (measurement tsConf))
  else label_tag s tsDesc k.
Proof.
  unfold series_tags, metric_category.
  set (base := <["project_id" := Project s]>
                 (<["resource_type" := ts_Resource_Type tsDesc]> ∅)
               : gmap string string).
  set (labelled :=
         ts_Metric_Labels tsDesc ∪ (ts_Resource_Labels tsDesc ∪ base)).
  set (cat := if 0 <? Strings.LastIndexByte (measurement tsConf) "/"%char
              then Strings.slice_from (measurement tsConf)
                     (Strings.LastIndexByte (measurement tsConf) "/"%char + 1)
              else measurement tsConf).
  assert (labelled !! k = label_tag s tsDesc k) as Hlab.
  { unfold labelled, base, label_tag.
    rewrite !lookup_union, !lookup_insert, lookup_empty.
    destruct (ts_Metric_Labels tsDesc !! k) as [v |],
      (ts_Resource_Labels tsDesc !! k) as [w |]; cbn;
      repeat (case_decide; subst; try congruence; cbn); reflexivity. }
  assert ((if 0 <? Strings.LastIndexByte (measurement tsConf) "/"%char
           then <["metric_category" :=
                    Strings.slice_from (measurement tsConf)
                      (Strings.LastIndexByte (measurement tsConf) "/"%char + 1)]>
                  labelled
           else <["metric_category" := measurement tsConf]> labelled)
          = <["metric_category" := cat]> labelled) as ->
    by (unfold cat; now destruct (0 <? _)).
  destruct (ts_MetricKind tsDesc); cbn [metric_kind_name];
    rewrite ?lookup_insert, Hlab;
    repeat (case_decide; subst; try congruence; cbn);
    try reflexivity;
    repeat match goal with
           | H : _ /\ _ |- _ => destruct H
           | H : is_Some None |- _ => destruct H; discriminate
           | H : ~ (_ /\ _) |- _ => exfalso; apply H; split; eauto
           end; try congruence.
Qed.

(** ** Runs of a fetch *)

(** The change of the state by a part of a cycle: the calls [adds] appended
    to the grouper, the metrics [ms] handed to the accumulator, [n] polls of
    the context and the API calls [cs]; the engine, the reported errors and
    the clock are as before. *)
Definition changes_by (adds : list GrouperAdd) (ms : list Metric) (n : nat)
    (cs : list ApiCall) (st st' : State) : Prop :=
  engine st' = engine st /\
  grouper st' = (grouper st ++ adds)%list /\
  acc_metrics (acc st') = (acc_metrics (acc st) ++ ms)%list /\
  acc_errors (acc st') = acc_errors (acc st) /\
  polls (world st') = (polls (world st) + n)%nat /\
  calls (world st') = (calls (world st) ++ cs)%list /\
  done_at (world st') = done_at (world st) /\
  now_at (world st') = now_at (world st) /\
  ticks (world st') = ticks (world st) /\
  NewMetricClient (world st') = NewMetricClient (world st).

Lemma changes_by_refl (st : State) : changes_by [] [] 0 [] st st.
Proof.
  unfold changes_by. rewrite !app_nil_r, Nat.add_0_r. now repeat split.
Qed.

Lemma changes_by_trans adds1 ms1 n1 cs1 adds2 ms2 n2 cs2 (st1 st2 st3 : State) :
  changes_by adds1 ms1 n1 cs1 st1 st2 ->
  changes_by adds2 ms2 n2 cs2 st2 st3 ->
  changes_by (adds1 ++ adds2) (ms1 ++ ms2) (n1 + n2) (cs1 ++ cs2) st1 st3.
Proof.
  unfold changes_by.
  intros (E1 & G1 & M1 & R1 & P1 & C1 & D1 & N1 & T1 & K1)
         (E2 & G2 & M2 & R2 & P2 & C2 & D2 & N2 & T2 & K2).
  rewrite E2, G2, M2, R2, P2, C2, D2, N2, T2, K2.
  rewrite E1, G1, M1, R1, P1, C1, D1, N1, T1, K1.
  rewrite !app_assoc, Nat.add_assoc. now repeat split.
Qed.

(** The context answers [b] to every poll. *)
Definition answers (b : bool) (st : State) : Prop :=
  forall n, done_at (world st) n = b.

Lemma answers_changes_by b adds ms n cs (st st' : State) :
  changes_by adds ms n cs st st' -> answers b st -> answers b st'.
Proof.
  intros (_ & _ & _ & _ & _ & _ & D & _) Hb k. rewrite D. apply Hb.
Qed.

Lemma done_changes_by (st : State) :
  exists st',
    done st = Some (done_at (world st) (polls (world st)), st') /\
    changes_by [] [] 1 [] st st'.
Proof.
  eexists. split; [reflexivity |].
  unfold changes_by. cbn. rewrite !app_nil_r, Nat.add_1_r. now repeat split.
Qed.

(** What a loop gets to when every round asks the context at its end: all
    of the items when it is not done, the first one when it is. *)
Definition handled {A} (b : bool) (l : list A) : list A :=
  if b then take 1 l else l.

Section Rounds.

Context {A : Type}.
Variable b : bool.
Variable body : A -> unit -> M (bool * unit).
Variable adds_of : A -> list GrouperAdd.
Variable metrics_of : A -> list Metric.
Variable polls_of : A -> nat.
Variable P : State -> Prop.
Variable Q : A -> Prop.

Hypothesis P_changes_by :
  forall adds ms n cs st st', changes_by adds ms n cs st st' -> P st -> P st'.

Hypothesis body_run :
  forall x st, P st -> Q x ->
    exists st', body x tt st = Some ((b, tt), st') /\
                changes_by (adds_of x) (metrics_of x) (polls_of x) [] st st'.

Lemma for_range_rounds (xs : list A) :
  forall st, P st -> Forall Q (handled b xs) ->
    exists st',
      for_range xs body tt st = Some (tt, st') /\
      changes_by (flat_map adds_of (handled b xs))
        (flat_map metrics_of (handled b xs))
        (sum_list (map polls_of (handled b xs))) [] st st'.
Proof.
  induction xs as [| x xs IH]; intros st HP HQ.
  - exists st. split; [reflexivity |].
    unfold handled. destruct b; apply changes_by_refl.
  - cbn [for_range]. unfold Bind at 1.
    assert (Q x) as Hx by (unfold handled in HQ; destruct b;
                           now apply Forall_cons in HQ as [? _]).
    destruct (body_run x st HP Hx) as (st1 & -> & Hch).
    destruct b eqn:Hb.
    + exists st1. split; [reflexivity |].
      cbn [handled take flat_map map sum_list sum_list_with].
      rewrite !app_nil_r, Nat.add_0_r. exact Hch.
    + destruct (IH st1) as (st2 & Hrun & Hch2).
      * eapply P_changes_by; eassumption.
      * unfold handled in *. now apply Forall_cons in HQ as [_ ?].
      * exists st2. split; [exact Hrun |].
        unfold handled in *. cbn [flat_map map sum_list sum_list_with].
        change [] with (@nil ApiCall ++ [])%list.
        eapply changes_by_trans; eassumption.
Qed.

End Rounds.

(** The calls of the grouper for one point: the companions of a
    distribution, or the one field of a scalar. *)
Definition point_adds (tsConf : timeSeriesConf) (tsDesc : TimeSeries)
    (tags : gmap string string) (p : Point) : list GrouperAdd :=
  let ts := Time.FromUnix (pt_EndTime_Seconds p) in
  if bool_decide (ts_ValueType tsDesc = DISTRIBUTION) then
    match GetDistributionValue (pt_Value p) with
    | Some dist => companions dist tags ts tsConf
    | None => []
    end
  else
    [ {| add_measurement := measurement tsConf; add_tags := tags;
         add_tm := ts; add_field := fieldKey tsConf;
         add_fieldValue := point_value (ts_ValueType tsDesc) (pt_Value p) |} ].

(** A distribution point carries a distribution with a bucket layout. *)
Definition sound_point (tsDesc : TimeSeries) (p : Point) : Prop :=
  ts_ValueType tsDesc = DISTRIBUTION ->
  exists dist options,
    GetDistributionValue (pt_Value p) = Some dist /\
    BucketOptions_ dist = Some options.

Lemma sum_list_ones {A} (l : list A) :
  sum_list (map (fun _ => 1%nat) l) = length l.
Proof.
  induction l as [| x l IH]; [reflexivity |].
  cbn [map length]. rewrite <- IH. reflexivity.
Qed.

Section FetchRun.

Context `{GoRuntime}.

(** The histogram metric of one point, if it has one. *)
Definition point_histograms (tsConf : timeSeriesConf) (tsDesc : TimeSeries)
    (tags : gmap string string) (p : Point) : list Metric :=
  let ts := Time.FromUnix (pt_EndTime_Seconds p) in
  if bool_decide (ts_ValueType tsDesc = DISTRIBUTION) then
    match GetDistributionValue (pt_Value p) with
    | Some dist =>
        match distributionToCircHisto dist (BucketOptions_ dist) with
        | Some circhisto =>
            if bool_decide (circhisto = ∅) then []
            else [histogram_metric circhisto tags ts tsConf
                    (ts_MetricKind tsDesc)]
        | None => []
        end
    | None => []
    end
  else [].

(** The writes for the points [ps] of a series. *)
Definition series_adds (s : Stackdriver) (tsConf : timeSeriesConf)
    (tsDesc : TimeSeries) (ps : list Point) : list GrouperAdd :=
  flat_map (point_adds tsConf tsDesc (series_tags s tsConf tsDesc)) ps.

Definition series_histograms (s : Stackdriver) (tsConf : timeSeriesConf)
    (tsDesc : TimeSeries) (ps : list Point) : list Metric :=
  flat_map (point_histograms tsConf tsDesc (series_tags s tsConf tsDesc)) ps.

Variable b : bool.

Lemma point_body_run (tsConf : timeSeriesConf) (tsDesc : TimeSeries)
    (tags : gmap string string) (p : Point) (st : State) :
  answers b st -> sound_point tsDesc p ->
  exists st',
    point_body tsConf tsDesc tags p tt st = Some ((b, tt), st') /\
    changes_by (point_adds tsConf tsDesc tags p)
      (point_histograms tsConf tsDesc tags p) 1 [] st st'.
Proof.
  intros Hb Hsound.
  assert (forall st1,
             changes_by (point_adds tsConf tsDesc tags p)
               (point_histograms tsConf tsDesc tags p) 0 [] st st1 ->
             exists st',
               Bind done (fun d => Return (d, tt)) st1 = Some ((b, tt), st') /\
               changes_by (point_adds tsConf tsDesc tags p)
                 (point_histograms tsConf tsDesc tags p) 1 [] st st')
    as Hdone.
  { intros st1 Hch.
    destruct (done_changes_by st1) as (st2 & Hrun & Hch2).
    exists st2. unfold Bind. rewrite Hrun.
    rewrite (answers_changes_by b _ _ _ _ st st1 Hch Hb).
    split; [reflexivity |].
    pose proof (changes_by_trans _ _ _ _ _ _ _ _ _ _ _ Hch Hch2) as Hall.
    now rewrite !app_nil_r in Hall. }
  unfold point_body, Bind at 1.
  destruct (decide (ts_ValueType tsDesc = DISTRIBUTION)) as [Hd | Hd].
  - rewrite bool_decide_eq_true_2 by assumption.
    destruct (Hsound Hd) as (dist & options & Hdist & Hopt).
    rewrite Hdist, addDistribution_run.
    destruct (distributionToCircHisto_run_spec dist options)
      as (h & Hh & _).
    assert (distributionToCircHisto dist (BucketOptions_ dist)
            = Some (ret h)) as Hcirc
      by (rewrite Hopt; unfold distributionToCircHisto; now rewrite Hh).
    rewrite Hcirc. apply Hdone.
    unfold point_adds, point_histograms.
    rewrite !bool_decide_eq_true_2 by assumption. rewrite Hdist, Hcirc.
    unfold changes_by. cbn [engine world acc grouper].
    destruct (bool_decide (ret h = ∅)); cbn [acc_metrics acc_errors];
      rewrite ?app_nil_r, ?Nat.add_0_r; now repeat split.
  - rewrite bool_decide_eq_false_2 by assumption.
    unfold lockedSeriesGrouper_Add, put_grouper. apply Hdone.
    unfold point_adds, point_histograms.
    rewrite !bool_decide_eq_false_2 by assumption.
    unfold changes_by. cbn [engine world acc grouper].
    rewrite ?app_nil_r, ?Nat.add_0_r. now repeat split.
Qed.

Lemma series_body_run (tsConf : timeSeriesConf) (tsDesc : TimeSeries)
    (st : State) :
  answers b st ->
  Forall (sound_point tsDesc) (handled b (ts_Points tsDesc)) ->
  exists st',
    series_body tsConf tsDesc tt st = Some ((b, tt), st') /\
    changes_by
      (series_adds (engine st) tsConf tsDesc (handled b (ts_Points tsDesc)))
      (series_histograms (engine st) tsConf tsDesc
         (handled b (ts_Points tsDesc)))
      (length (handled b (ts_Points tsDesc)) + 1) [] st st'.
Proof.
  intros Hb Hsound. unfold series_body, Bind at 1 2. unfold get_engine.
  destruct (for_range_rounds b
              (point_body tsConf tsDesc
                 (series_tags (engine st) tsConf tsDesc))
              (point_adds tsConf tsDesc
                 (series_tags (engine st) tsConf tsDesc))
              (point_histograms tsConf tsDesc
                 (series_tags (engine st) tsConf tsDesc))
              (fun _ => 1%nat) (answers b) (sound_point tsDesc)
              (answers_changes_by b)
              (fun p st0 => point_body_run tsConf tsDesc _ p st0)
              (ts_Points tsDesc) st Hb Hsound)
    as (st1 & -> & Hch).
  destruct (done_changes_by st1) as (st2 & Hrun & Hch2).
  exists st2. unfold Bind. rewrite Hrun.
  rewrite (answers_changes_by b _ _ _ _ st st1 Hch Hb).
  split; [reflexivity |].
  pose proof (changes_by_trans _ _ _ _ _ _ _ _ _ _ _ Hch Hch2) as Hall.
  rewrite !app_nil_r in Hall. unfold series_adds, series_histograms.
  now rewrite sum_list_ones in Hall.
Qed.

Lemma client_ListTimeSeries_run (req : ListTimeSeriesRequest) (st : State)
    (c : metricClient) :
  client (engine st) = Some c ->
  client_ListTimeSeries req st
  = Some (ListTimeSeries c req, called (Call_ListTimeSeries req) st).
Proof.
  intros Hc. unfold client_ListTimeSeries, Bind, get_engine.
  now rewrite Hc.
Qed.

(** The run of a fetch whose listing succeeds, under a context that answers
    [b] to every poll. *)
Lemma gatherTimeSeries_run (tsConf : timeSeriesConf) (st : State)
    (c : metricClient) (tss : list TimeSeries) :
  client (engine st) = Some c ->
  ListTimeSeries c (listTimeSeriesRequest tsConf) = inr tss ->
  answers b st ->
  Forall (fun tsDesc =>
            Forall (sound_point tsDesc) (handled b (ts_Points tsDesc)))
    (handled b tss) ->
  exists st',
    gatherTimeSeries tsConf st = Some (None, st') /\
    changes_by
      (flat_map (fun tsDesc =>
                   series_adds (engine st) tsConf tsDesc
                     (handled b (ts_Points tsDesc))) (handled b tss))
      (flat_map (fun tsDesc =>
                   series_histograms (engine st) tsConf tsDesc
                     (handled b (ts_Points tsDesc))) (handled b tss))
      (sum_list (map (fun tsDesc =>
                        (length (handled b (ts_Points tsDesc)) + 1)%nat)
                   (handled b tss)))
      [Call_ListTimeSeries (listTimeSeriesRequest tsConf)] st st'.
Proof.
  intros Hc Hlist Hb Hsound.
  unfold gatherTimeSeries, Bind at 1.
  rewrite (client_ListTimeSeries_run _ _ _ Hc), Hlist.
  set (st1 := called (Call_ListTimeSeries (listTimeSeriesRequest tsConf)) st).
  assert (changes_by [] [] 0
            [Call_ListTimeSeries (listTimeSeriesRequest tsConf)] st st1)
    as Hch1.
  { unfold changes_by, st1. cbn. rewrite !app_nil_r, Nat.add_0_r.
    now repeat split. }
  destruct (for_range_rounds b (series_body tsConf)
              (fun tsDesc =>
                 series_adds (engine st) tsConf tsDesc
                   (handled b (ts_Points tsDesc)))
              (fun tsDesc =>
                 series_histograms (engine st) tsConf tsDesc
                   (handled b (ts_Points tsDesc)))
              (fun tsDesc =>
                 (length (handled b (ts_Points tsDesc)) + 1)%nat)
              (fun st0 => answers b st0 /\ engine st0 = engine st)
              (fun tsDesc =>
                 Forall (sound_point tsDesc) (handled b (ts_Points tsDesc))))
    with (xs := tss) (st := st1) as (st2 & Hrun & Hch2).
  - intros adds ms n cs sta stb Hch [Ha He].
    split; [eapply answers_changes_by; eassumption |].
    destruct Hch as (E & _). congruence.
  - intros tsDesc st0 [Ha He] Hq. rewrite <- He.
    now apply series_body_run.
  - split; [eapply answers_changes_by; eassumption | reflexivity].
  - exact Hsound.
  - exists st2. unfold Bind. rewrite Hrun. split; [reflexivity |].
    pose proof (changes_by_trans _ _ _ _ _ _ _ _ _ _ _ Hch1 Hch2) as Hall.
    now rewrite !app_nil_r in Hall.
Qed.

End FetchRun.

(** X6: Under a context that is never done, a fetch whose listing succeeds
    returns no error after it has handled every point of every series, in
    order: a scalar point is one call of the grouper (measurement, tags of
    its series, end time of the point, field key, value), a distribution
    point is its companions in the grouper and its histogram metric, if it
    has one, in the accumulator.  The fetch makes its one API call and
    polls the context once after each point and once after each series; it
    changes nothing else. *)
Theorem gatherTimeSeries_writes_every_point `{GoRuntime}
    (tsConf : timeSeriesConf) (st : State) (c : metricClient)
    (tss : list TimeSeries) :
  client (engine st) = Some c ->
  ListTimeSeries c (listTimeSeriesRequest tsConf) = inr tss ->
  (forall n, done_at (world st) n = false) ->
  Forall (fun tsDesc => Forall (sound_point tsDesc) (ts_Points tsDesc)) tss ->
  exists st',
    gatherTimeSeries tsConf st = Some (None, st') /\
    changes_by
      (flat_map (fun tsDesc =>
                   series_adds (engine st) tsConf tsDesc (ts_Points tsDesc))
         tss)
      (flat_map (fun tsDesc =>
                   series_histograms (engine st) tsConf tsDesc
                     (ts_Points tsDesc)) tss)
      (sum_list (map (fun tsDesc => (length (ts_Points tsDesc) + 1)%nat) tss))
      [Call_ListTimeSeries (listTimeSeriesRequest tsConf)] st st'.
Proof.
  intros Hc Hlist Hquiet Hsound.
  exact (gatherTimeSeries_run false tsConf st c tss Hc Hlist Hquiet Hsound).
Qed.

Lemma gatherTimeSeries_writes_every_point_witness :
  exists st',
    gatherTimeSeries (H := Reference.runtime) bar_conf
      (demo_State demo_client None) = Some (None, st') /\
    changes_by
      (flat_map (fun tsDesc =>
                   series_adds (engine (demo_State demo_client None)) bar_conf
                     tsDesc (ts_Points tsDesc)) [demo_series])
      (flat_map (fun tsDesc =>
                   series_histograms (H := Reference.runtime)
                     (engine (demo_State demo_client None)) bar_conf tsDesc
                     (ts_Points tsDesc)) [demo_series])
      (sum_list (map (fun tsDesc => (length (ts_Points tsDesc) + 1)%nat)
                   [demo_series]))
      [Call_ListTimeSeries (listTimeSeriesRequest bar_conf)]
      (demo_State demo_client None) st'.
Proof.
  apply (gatherTimeSeries_writes_every_point (H := Reference.runtime)
           bar_conf (demo_State demo_client None) demo_client [demo_series]).
  - reflexivity.
  - reflexivity.
  - reflexivity.
  - repeat constructor. intros Hd. discriminate Hd.
Defined.

(** X7: Under a context that is done from the start, a fetch still makes its
    API call, and when the listing succeeds it handles the first point of
    the first series, and no other, before it returns no error: the context
    is asked only after a point has been handled, and after the points of a
    series. *)
Theorem gatherTimeSeries_done_first_point `{GoRuntime}
    (tsConf : timeSeriesConf) (st : State) (c : metricClient)
    (tss : list TimeSeries) :
  client (engine st) = Some c ->
  ListTimeSeries c (listTimeSeriesRequest tsConf) = inr tss ->
  (forall n, done_at (world st) n = true) ->
  Forall (fun tsDesc =>
            Forall (sound_point tsDesc) (take 1 (ts_Points tsDesc)))
    (take 1 tss) ->
  exists st',
    gatherTimeSeries tsConf st = Some (None, st') /\
    changes_by
      (flat_map (fun tsDesc =>
                   series_adds (engine st) tsConf tsDesc
                     (take 1 (ts_Points tsDesc))) (take 1 tss))
      (flat_map (fun tsDesc =>
                   series_histograms (engine st) tsConf tsDesc
                     (take 1 (ts_Points tsDesc))) (take 1 tss))
      (sum_list (map (fun tsDesc =>
                        (length (take 1 (ts_Points tsDesc)) + 1)%nat)
                   (take 1 tss)))
      [Call_ListTimeSeries (listTimeSeriesRequest tsConf)] st st'.
Proof.
  intros Hc Hlist Hdone Hsound.
  exact (gatherTimeSeries_run true tsConf st c tss Hc Hlist Hdone Hsound).
Qed.

(** The demo cycle's state under a context that is done from the start. *)
Definition done_State (c : metricClient) : State :=
  {| engine := demo_engine c None;
     world := {| now_at := now_at demo_World; ticks := O;
                 done_at := fun _ => true; polls := O;
                 NewMetricClient := inr c; calls := [] |};
     acc := {| acc_metrics := []; acc_errors := [] |}; grouper := [] |}.

(** A service that lists two series of two points each. *)
Definition busy_series : TimeSeries :=
  {| ts_Metric_Labels := ∅;
     ts_Resource_Type := "gce_instance";
     ts_Resource_Labels := ∅;
     ts_MetricKind := GAUGE;
     ts_ValueType := INT64;
     ts_Points := [ {| pt_EndTime_Seconds := 1700000000;
                       pt_Value := TV_Int64Value 1 |};
                    {| pt_EndTime_Seconds := 1700000060;
                       pt_Value := TV_Int64Value 2 |} ] |}.

Definition busy_client : metricClient :=
  {| ListMetricDescriptors := fun _ =>
       inr [ {| md_Type := "custom.googleapis.com/foo/bar";
                md_ValueType := INT64 |};
             {| md_Type := "custom.googleapis.com/foo/baz";
                md_ValueType := INT64 |} ];
     ListTimeSeries := fun _ => inr [busy_series; busy_series] |}.

Lemma gatherTimeSeries_done_first_point_witness :
  exists st',
    gatherTimeSeries (H := Reference.runtime) bar_conf
      (done_State busy_client) = Some (None, st') /\
    changes_by
      (flat_map (fun tsDesc =>
                   series_adds (engine (done_State busy_client)) bar_conf
                     tsDesc (take 1 (ts_Points tsDesc)))
         (take 1 [busy_series; busy_series]))
      (flat_map (fun tsDesc =>
                   series_histograms (H := Reference.runtime)
                     (engine (done_State busy_client)) bar_conf tsDesc
                     (take 1 (ts_Points tsDesc)))
         (take 1 [busy_series; busy_series]))
      (sum_list (map (fun tsDesc =>
                        (length (take 1 (ts_Points tsDesc)) + 1)%nat)
                   (take 1 [busy_series; busy_series])))
      [Call_ListTimeSeries (listTimeSeriesRequest bar_conf)]
      (done_State busy_client) st'.
Proof.
  apply (gatherTimeSeries_done_first_point (H := Reference.runtime)
           bar_conf (done_State busy_client) busy_client
           [busy_series; busy_series]).
  - reflexivity.
  - reflexivity.
  - reflexivity.
  - repeat constructor. intros Hd. discriminate Hd.
Defined.

Example done_fetch_writes_one_point :
  (length ∘ grouper ∘ snd) <$>
    gatherTimeSeries (H := Reference.runtime) bar_conf (done_State busy_client)
  = Some 1%nat.
Proof. vm_compute. reflexivity. Qed.

(** ** What every part of a cycle keeps *)

Section Traversal.

Context `{GoRuntime}.

Variable R : State -> State -> Prop.

Hypothesis R_refl : forall st, R st st.
Hypothesis R_trans : forall st1 st2 st3, R st1 st2 -> R st2 st3 -> R st1 st3.
Hypothesis R_done : keeps R done.
Hypothesis R_time_Now : keeps R time_Now.
Hypothesis R_put_engine : forall s, keeps R (put_engine s).
Hypothesis R_log_descriptors :
  forall req, keeps R (log_call (Call_ListMetricDescriptors req)).
Hypothesis R_log_series :
  forall req, keeps R (log_call (Call_ListTimeSeries req)).
Hypothesis R_addDistribution :
  forall metric tags ts tsConf metricKind,
    keeps R (addDistribution metric tags ts tsConf metricKind).
Hypothesis R_Add :
  forall measurement tags tm field fieldValue,
    keeps R (lockedSeriesGrouper_Add measurement tags tm field fieldValue).
Hypothesis R_AddError : forall err, keeps R (acc_AddError err).

Lemma Return_keeps {A} (a : A) : keeps R (Return a).
Proof. now apply keeps_Return. Qed.

Lemma generatetimeSeriesConfs_keeps (startTime endTime : Time) :
  keeps R (generatetimeSeriesConfs startTime endTime).
Proof.
  assert (keeps R get_engine) as Hget by now apply keeps_get_engine.
  assert (forall req, keeps R (client_ListMetricDescriptors req)) as Hlist.
  { intros req. unfold client_ListMetricDescriptors.
    apply keeps_Bind; [assumption.. |]. intros s.
    destruct (client s); [| now apply keeps_panic].
    apply keeps_Bind; [assumption | apply R_log_descriptors |].
    intros; apply Return_keeps. }
  unfold generatetimeSeriesConfs.
  apply keeps_Bind; [assumption.. |]. intros s.
  apply keeps_Bind; [assumption | |].
  { destruct (timeSeriesConfCache_ s) as [c |]; [| apply Return_keeps].
    unfold IsValid. destruct (TimeSeriesConfs c); [| apply Return_keeps].
    apply keeps_Bind; [assumption.. |]. intros; apply Return_keeps. }
  intros hit.
  assert (keeps R
            (Bind (for_range
                     (if len (newListMetricDescriptorsFilters s) =? 0
                      then [EmptyString]
                      else newListMetricDescriptorsFilters s)
                     (filter_body s startTime endTime) (inr []))
               (fun r =>
                  match r with
                  | inl err => Return (None, Some err)
                  | inr ret0 =>
                      Bind time_Now
                        (fun now =>
                           Bind (put_engine
                                   (set_cache s
                                      (Some {| Generated := now;
                                               TimeSeriesConfs := Some ret0;
                                               TTL := CacheTTL s |})))
                             (fun _ => Return (Some ret0, None)))
                  end))) as Hmiss.
  { apply keeps_Bind; [assumption | |].
    - apply keeps_for_range; [assumption.. |]. intros filter ret0.
      unfold filter_body. destruct ret0 as [err | ret0];
        [apply Return_keeps |].
      apply keeps_Bind; [assumption | apply Hlist |].
      intros [err | mds]; [apply Return_keeps |].
      apply keeps_Bind; [assumption | |].
      + apply keeps_for_range; [assumption.. |]. intros md ret1.
        unfold descriptor_body. destruct (_ && _); [apply Return_keeps |].
        apply keeps_Bind; [assumption.. |]. intros; apply Return_keeps.
      + intros ret1. apply keeps_Bind; [assumption.. |].
        intros; apply Return_keeps.
    - intros [err | ret0]; [apply Return_keeps |].
      apply keeps_Bind; [assumption.. |]. intros now.
      apply keeps_Bind; [assumption | apply R_put_engine |].
      intros; apply Return_keeps. }
  destruct hit, (timeSeriesConfCache_ s) as [c |]; try exact Hmiss.
  apply keeps_Bind; [assumption | apply R_put_engine |].
  intros; apply Return_keeps.
Qed.

Lemma gatherTimeSeries_keeps (tsConf : timeSeriesConf) :
  keeps R (gatherTimeSeries tsConf).
Proof.
  assert (keeps R get_engine) as Hget by now apply keeps_get_engine.
  unfold gatherTimeSeries. apply keeps_Bind; [assumption | |].
  { unfold client_ListTimeSeries. apply keeps_Bind; [assumption.. |].
    intros s. destruct (client s); [| now apply keeps_panic].
    apply keeps_Bind; [assumption | apply R_log_series |].
    intros; apply Return_keeps. }
  intros [err | tss]; [apply Return_keeps |].
  apply keeps_Bind; [assumption | | intros; apply Return_keeps].
  apply keeps_for_range; [assumption.. |]. intros tsDesc [].
  unfold series_body. apply keeps_Bind; [assumption.. |]. intros s.
  apply keeps_Bind; [assumption | |].
  2: { intros. apply keeps_Bind; [assumption.. |].
       intros; apply Return_keeps. }
  apply keeps_for_range; [assumption.. |]. intros p [].
  unfold point_body. apply keeps_Bind; [assumption | |].
  2: { intros. apply keeps_Bind; [assumption.. |].
       intros; apply Return_keeps. }
  destruct (bool_decide _); [| apply R_Add].
  destruct (GetDistributionValue _); [| now apply keeps_panic].
  apply R_addDistribution.
Qed.

Lemma fetch_wave_keeps (tsConfs : list timeSeriesConf) :
  keeps R (fetch_wave tsConfs).
Proof.
  unfold fetch_wave. apply keeps_for_range; [assumption.. |].
  intros tsConf []. unfold fetch_body.
  apply keeps_Bind; [assumption | apply gatherTimeSeries_keeps |].
  intros err. apply keeps_Bind; [assumption | apply R_AddError |].
  intros; apply Return_keeps.
Qed.

End Traversal.

(** ** The requests of a cycle *)

Definition is_discovery_call (c : ApiCall) : Prop :=
  match c with
  | Call_ListMetricDescriptors _ => True
  | Call_ListTimeSeries _ => False
  end.

(** The API calls made are calls of [ListMetricDescriptors]. *)
Definition discovery_calls_only (st st' : State) : Prop :=
  exists cs, calls (world st') = (calls (world st) ++ cs)%list /\
             Forall is_discovery_call cs.

Lemma discovery_calls_only_refl st : discovery_calls_only st st.
Proof. exists []. now rewrite app_nil_r. Qed.

Lemma discovery_calls_only_trans st1 st2 st3 :
  discovery_calls_only st1 st2 -> discovery_calls_only st2 st3 ->
  discovery_calls_only st1 st3.
Proof.
  intros (cs1 & E1 & F1) (cs2 & E2 & F2). exists (cs1 ++ cs2)%list.
  split; [now rewrite E2, E1, app_assoc | now apply Forall_app].
Qed.

(** The engine, the reported errors and the API calls are as before. *)
Definition writes_only (st st' : State) : Prop :=
  engine st' = engine st /\
  acc_errors (acc st') = acc_errors (acc st) /\
  calls (world st') = calls (world st).

Lemma writes_only_refl st : writes_only st st.
Proof. now repeat split. Qed.

Lemma writes_only_trans st1 st2 st3 :
  writes_only st1 st2 -> writes_only st2 st3 -> writes_only st1 st3.
Proof. unfold writes_only. intuition congruence. Qed.

Lemma same_calls_discovery_only {A} (m : M A) :
  keeps (fun st st' => calls (world st') = calls (world st)) m ->
  keeps discovery_calls_only m.
Proof.
  intros Hm st a st' Hrun. exists []. rewrite app_nil_r.
  split; [eapply Hm, Hrun | constructor].
Qed.

Section Requests.

Context `{GoRuntime}.

Lemma generatetimeSeriesConfs_discovery_calls_only startTime endTime :
  keeps discovery_calls_only (generatetimeSeriesConfs startTime endTime).
Proof.
  apply generatetimeSeriesConfs_keeps.
  - apply discovery_calls_only_refl.
  - apply discovery_calls_only_trans.
  - apply same_calls_discovery_only. now intros st a st' [= _ <-].
  - apply same_calls_discovery_only. now intros st a st' [= _ <-].
  - intros s. apply same_calls_discovery_only. now intros st a st' [= _ <-].
  - intros req st a st' [= _ <-]. exists [Call_ListMetricDescriptors req].
    split; [reflexivity | now repeat constructor].
Qed.

(** What [generatetimeSeriesConfs] returns without an error is what the
    cache then holds. *)
Lemma generatetimeSeriesConfs_returns_cache (startTime endTime : Time)
    (st st' : State) (tsConfs : option (list timeSeriesConf)) :
  generatetimeSeriesConfs startTime endTime st = Some ((tsConfs, None), st') ->
  exists (confs : list timeSeriesConf) (generated : Time) (ttl : Duration),
    tsConfs = Some confs /\
    timeSeriesConfCache_ (engine st')
    = Some {| Generated := generated; TimeSeriesConfs := Some confs;
              TTL := ttl |}.
Proof.
  destruct (cache_hit st) eqn:Hhit.
  - pose proof Hhit as Hhit'. unfold cache_hit in Hhit'.
    destruct (timeSeriesConfCache_ (engine st)) as [c |] eqn:Hc;
      [| discriminate].
    destruct (TimeSeriesConfs c) as [confs |] eqn:Hconfs; [| discriminate].
    rewrite (generatetimeSeriesConfs_hit _ _ _ _ _ Hc Hconfs Hhit).
    intros [= <- <-]. now eexists _, _, _.
  - rewrite generatetimeSeriesConfs_miss by assumption.
    intros Hrun. apply Bind_inv in Hrun as (r & st2 & _ & Hrun).
    destruct r as [err | ret0]; [discriminate |].
    unfold store_discovered, Bind in Hrun. rewrite time_Now_run in Hrun.
    injection Hrun as <- <-. now eexists _, _, _.
Qed.

Lemma addDistribution_writes_only metric tags ts tsConf metricKind :
  keeps writes_only (addDistribution metric tags ts tsConf metricKind).
Proof.
  intros st a st'. rewrite addDistribution_run.
  destruct (distributionToCircHisto _ _) as [h |]; [| discriminate].
  intros [= _ <-]. unfold writes_only. cbn [engine world acc].
  destruct (bool_decide (h = ∅)); now repeat split.
Qed.

Lemma series_loop_writes_only (tsConf : timeSeriesConf)
    (tss : list TimeSeries) :
  keeps writes_only (for_range tss (series_body tsConf) tt).
Proof.
  pose proof writes_only_refl as Hrefl.
  pose proof writes_only_trans as Htrans.
  assert (keeps writes_only done) as Hdone
    by (intros st a st' [= _ <-]; now repeat split).
  assert (forall A (a : A), keeps writes_only (Return a)) as Hret
    by (intros; now apply keeps_Return).
  apply keeps_for_range; [assumption.. |]. intros tsDesc [].
  unfold series_body. apply keeps_Bind; [assumption | |].
  { now apply keeps_get_engine. }
  intros s. apply keeps_Bind; [assumption | |].
  2: { intros. apply keeps_Bind; [assumption.. |]. intros; apply Hret. }
  apply keeps_for_range; [assumption.. |]. intros p [].
  unfold point_body. apply keeps_Bind; [assumption | |].
  2: { intros. apply keeps_Bind; [assumption.. |]. intros; apply Hret. }
  destruct (bool_decide _).
  - destruct (GetDistributionValue _); [| now apply keeps_panic].
    apply addDistribution_writes_only.
  - intros st a st' [= _ <-]. now repeat split.
Qed.

(** A fetch that returns has made its one API call; it has reported
    nothing, and it returns an error only when the listing has failed. *)
Lemma gatherTimeSeries_frame (tsConf : timeSeriesConf) (st st' : State)
    (r : option error) :
  gatherTimeSeries tsConf st = Some (r, st') ->
  engine st' = engine st /\
  acc_errors (acc st') = acc_errors (acc st) /\
  calls (world st')
  = (calls (world st) ++
     [Call_ListTimeSeries (listTimeSeriesRequest tsConf)])%list /\
  exists c, client (engine st) = Some c /\
            match ListTimeSeries c (listTimeSeriesRequest tsConf) with
            | inl err => r = Some (wrap_error "list time series" err)
            | inr _ => r = None
            end.
Proof.
  unfold gatherTimeSeries. intros Hrun.
  apply Bind_inv in Hrun as (res & st1 & Hcall & Hrun).
  destruct (client (engine st)) as [c |] eqn:Hc.
  2: { unfold client_ListTimeSeries, Bind, get_engine in Hcall.
       rewrite Hc in Hcall. discriminate. }
  rewrite (client_ListTimeSeries_run _ _ _ Hc) in Hcall.
  injection Hcall as <- <-.
  destruct (ListTimeSeries c (listTimeSeriesRequest tsConf)) as [err | tss]
    eqn:Hlist.
  - injection Hrun as <- <-. repeat split.
    exists c. now rewrite Hlist.
  - apply Bind_inv in Hrun as (u & st2 & Hloop & Hrun).
    injection Hrun as <- <-.
    apply series_loop_writes_only in Hloop as (E & R & C).
    rewrite E, R, C. repeat split. exists c. now rewrite Hlist.
Qed.

Lemma fetch_wave_frame (tsConfs : list timeSeriesConf) :
  forall (st st' : State) (u : unit),
    fetch_wave tsConfs st = Some (u, st') ->
    engine st' = engine st /\
    calls (world st')
    = (calls (world st) ++
       map (fun tsConf => Call_ListTimeSeries (listTimeSeriesRequest tsConf))
         tsConfs)%list /\
    ((forall c, client (engine st) = Some c ->
                forall req, exists tss, ListTimeSeries c req = inr tss) ->
     acc_errors (acc st') = acc_errors (acc st)).
Proof.
  induction tsConfs as [| tsConf tsConfs IH]; intros st st' u.
  - intros Hrun. change (Some (tt, st) = Some (u, st')) in Hrun.
    injection Hrun as _ <-. rewrite app_nil_r. now repeat split.
  - rewrite fetch_wave_cons. unfold fetch_body, Bind.
    destruct (gatherTimeSeries tsConf st) as [[r st1] |] eqn:Hfetch;
      [| discriminate].
    apply gatherTimeSeries_frame in Hfetch as (E1 & R1 & C1 & c & Hc & Hr).
    destruct (acc_AddError r st1) as [[[] st2] |] eqn:Hadd; [| discriminate].
    cbn [fst snd]. intros Hrest.
    apply IH in Hrest as (E3 & C3 & R3).
    assert (engine st2 = engine st1 /\ world st2 = world st1 /\
            (r = None -> acc st2 = acc st1)) as (E2 & W2 & R2).
    { destruct r; injection Hadd as <-; now repeat split. }
    split; [congruence |]. split.
    + rewrite C3, W2, C1. cbn [map]. now rewrite <- app_assoc.
    + intros Hok. rewrite R3.
      * destruct (Hok c Hc (listTimeSeriesRequest tsConf)) as [tss Htss].
        rewrite Htss in Hr. rewrite R2 by assumption. exact R1.
      * intros c' Hc'. apply Hok. congruence.
Qed.

End Requests.

(** The engine from its start to the fetches of a cycle: the rate limit,
    the client, the end of the window and the cache may have changed. *)
Definition same_configuration (s s' : Stackdriver) : Prop :=
  Filter s' = Filter s /\
  Project s' = Project s /\
  MetricTypePrefixExclude s' = MetricTypePrefixExclude s /\
  MetricTypePrefixInclude s' = MetricTypePrefixInclude s /\
  DistributionAggregationAligners s' = DistributionAggregationAligners s /\
  CacheTTL s' = CacheTTL s /\
  Delay s' = Delay s /\
  Window s' = Window s /\
  GatherRawDistributionBuckets s' = GatherRawDistributionBuckets s.

(** The client the cycle works with: the one of the engine, or else the one
    that [monitoring.NewMetricClient] makes. *)
Definition client_of (st : State) : option metricClient :=
  match client (engine st), NewMetricClient (world st) with
  | Some c, _ => Some c
  | None, inr c => Some c
  | None, inl _ => None
  end.

Lemma prepare_inr (st st2 : State) :
  prepare st = inr st2 ->
  world st2 = world st /\ acc st2 = acc st /\ grouper st2 = grouper st /\
  same_configuration (engine st) (engine st2) /\
  RateLimit (engine st2)
  = (if RateLimit (engine st) =? 0 then defaultRateLimit
     else RateLimit (engine st)) /\
  client (engine st2) = client_of st /\
  is_Some (client (engine st2)) /\
  prevEnd (engine st2) = prevEnd (engine st) /\
  timeSeriesConfCache_ (engine st2) = timeSeriesConfCache_ (engine st).
Proof.
  unfold prepare, with_default_RateLimit, client_of, same_configuration.
  destruct (RateLimit (engine st) =? 0) eqn:Hrate;
    cbn [engine world acc grouper set_engine set_RateLimit client];
    destruct (client (engine st)) as [c |] eqn:Hc;
    destruct (NewMetricClient (world st)) as [err | c'] eqn:Hnew;
    intros [= <-]; cbn; rewrite ?Hc; repeat split; eauto.
Qed.

Section CycleFrames.

Context `{GoRuntime}.

(** The stages of a cycle that returns. *)
Lemma Gather_stages (st st' : State) (r : option error) :
  Gather st = Some (r, st') ->
  (exists err, prepare st = inl err /\ r = Some err /\
               st' = with_default_RateLimit st) \/
  (exists st2 st3 st4 start end_ tsConfs err,
      prepare st = inr st2 /\
      next_window st2 = Some ((start, end_), st3) /\
      generatetimeSeriesConfs start end_ st3 = Some ((tsConfs, err), st4) /\
      match err with
      | Some e => r = Some e /\ st' = st4
      | None => collect (default [] tsConfs) st4 = Some (r, st')
      end).
Proof.
  rewrite Gather_run.
  destruct (prepare st) as [err | st2] eqn:Hprep.
  - intros [= <- <-]. left. now exists err.
  - destruct (next_window st2) as [[[start end_] st3] |] eqn:Hwin;
      [| discriminate].
    destruct (generatetimeSeriesConfs start end_ st3)
      as [[[tsConfs [e |]] st4] |] eqn:Hgen; [| | discriminate].
    + intros [= <- <-]. right.
      exists st2, st3, st4, start, end_, tsConfs, (Some e). now repeat split.
    + intros Hcol. right.
      exists st2, st3, st4, start, end_, tsConfs, None. now repeat split.
Qed.

Lemma next_window_frame (st st' : State) (w : Time * Time) :
  next_window st = Some (w, st') ->
  calls (world st') = calls (world st) /\ acc st' = acc st /\
  grouper st' = grouper st /\
  same_configuration (engine st) (engine st') /\
  RateLimit (engine st') = RateLimit (engine st) /\
  client (engine st') = client (engine st) /\
  timeSeriesConfCache_ (engine st') = timeSeriesConfCache_ (engine st) /\
  done_at (world st') = done_at (world st).
Proof.
  rewrite next_window_run. intros [= _ <-].
  unfold same_configuration. cbn. now repeat split.
Qed.

Lemma cache_only_frame (st st' : State) :
  cache_only st st' ->
  same_configuration (engine st) (engine st') /\
  RateLimit (engine st') = RateLimit (engine st) /\
  client (engine st') = client (engine st) /\
  prevEnd (engine st') = prevEnd (engine st).
Proof.
  intros [c E]. rewrite E. unfold same_configuration. cbn. now repeat split.
Qed.

Lemma same_configuration_trans (s1 s2 s3 : Stackdriver) :
  same_configuration s1 s2 -> same_configuration s2 s3 ->
  same_configuration s1 s3.
Proof. unfold same_configuration. intuition congruence. Qed.

Lemma same_configuration_refl (s : Stackdriver) : same_configuration s s.
Proof. unfold same_configuration. now repeat split. Qed.

End CycleFrames.

(** X8: [Gather] changes nothing of the configuration: the filter, the project,
    the include and exclude prefixes, the aligners, the cache duration, the
    delay, the window and the choice of raw buckets are as before.  A rate
    limit of 0 becomes the default of 14 and any other is kept; the engine
    keeps the client it has, and an engine without one gets the one that
    [monitoring.NewMetricClient] makes, or stays without when that
    fails. *)
Theorem Gather_keeps_configuration `{GoRuntime} (st st' : State)
    (r : option error) :
  Gather st = Some (r, st') ->
  same_configuration (engine st) (engine st') /\
  RateLimit (engine st')
  = (if RateLimit (engine st) =? 0 then defaultRateLimit
     else RateLimit (engine st)) /\
  client (engine st') = client_of st.
Proof.
  intros Hrun. apply Gather_stages in Hrun
    as [(err & Hprep & -> & ->)
       | (st2 & st3 & st4 & start & end_ & tsConfs & err & Hprep & Hwin
          & Hgen & Hrest)].
  - unfold prepare in Hprep. unfold client_of.
    assert (client (engine (with_default_RateLimit st)) = client (engine st)
            /\ world (with_default_RateLimit st) = world st) as [Ec Ew]
      by (unfold with_default_RateLimit;
          destruct (RateLimit (engine st) =? 0); now split).
    rewrite Ec, Ew in Hprep.
    unfold with_default_RateLimit, same_configuration.
    destruct (client (engine st)) eqn:Hc; [discriminate |].
    destruct (NewMetricClient (world st)) eqn:Hn; [| discriminate].
    destruct (RateLimit (engine st) =? 0); cbn; rewrite ?Hc, ?Hn;
      now repeat split.
  - apply prepare_inr in Hprep
      as (_ & _ & _ & Hconf2 & Hrate2 & Hclient2 & _).
    apply next_window_frame in Hwin
      as (_ & _ & _ & Hconf3 & Hrate3 & Hclient3 & _).
    apply generatetimeSeriesConfs_cache_only, cache_only_frame in Hgen
      as (Hconf4 & Hrate4 & Hclient4 & _).
    assert (engine st' = engine st4) as ->.
    { destruct err as [e |].
      - now destruct Hrest as [_ ->].
      - eapply collect_same_engine; eassumption. }
    split; [| split; congruence].
    eauto using same_configuration_trans.
Qed.

Lemma Gather_keeps_configuration_witness :
  exists (r : option error) (st' : State),
    Gather (H := Reference.runtime) (demo_State demo_client None)
    = Some (r, st') /\
    same_configuration (engine (demo_State demo_client None)) (engine st') /\
    RateLimit (engine st')
    = (if RateLimit (engine (demo_State demo_client None)) =? 0
       then defaultRateLimit
       else RateLimit (engine (demo_State demo_client None))) /\
    client (engine st') = client_of (demo_State demo_client None).
Proof.
  destruct demo_cycle_returns as (r & st' & E).
  exists r, st'. split; [exact E |].
  exact (Gather_keeps_configuration (H := Reference.runtime) _ _ _ E).
Defined.

(** X9: The API calls of a cycle: first the calls of [ListMetricDescriptors],
    and then, when the cycle returns no error, one call of [ListTimeSeries]
    for each configuration of the cache that the cycle leaves, with its
    request, whether the listings fail or not and whatever the context
    answers.  A cycle that returns an error has made no call of
    [ListTimeSeries]. *)
Theorem Gather_requests `{GoRuntime} (st st' : State) (r : option error) :
  Gather st = Some (r, st') ->
  exists discovery : list ApiCall,
    Forall is_discovery_call discovery /\
    match r with
    | Some _ => calls (world st') = (calls (world st) ++ discovery)%list
    | None =>
        exists (cache : timeSeriesConfCache) (confs : list timeSeriesConf)
               (fetches : list ApiCall),
          timeSeriesConfCache_ (engine st') = Some cache /\
          TimeSeriesConfs cache = Some confs /\
          calls (world st')
          = (calls (world st) ++ discovery ++ fetches)%list /\
          fetches ≡ₚ
          map (fun tsConf =>
                 Call_ListTimeSeries (listTimeSeriesRequest tsConf)) confs
    end.
Proof.
  intros Hrun. apply Gather_stages in Hrun
    as [(err & Hprep & -> & ->)
       | (st2 & st3 & st4 & start & end_ & tsConfs & err & Hprep & Hwin
          & Hgen & Hrest)].
  - exists []. split; [constructor |]. rewrite app_nil_r.
    unfold with_default_RateLimit. now destruct (RateLimit (engine st) =? 0).
  - apply prepare_inr in Hprep as (Hw2 & _).
    apply next_window_frame in Hwin as (Hc3 & _).
    pose proof (generatetimeSeriesConfs_discovery_calls_only _ _ _ _ _ Hgen)
      as (discovery & Hc4 & Hdisc).
    exists discovery. split; [exact Hdisc |].
    destruct err as [e |].
    + destruct Hrest as [-> ->]. now rewrite Hc4, Hc3, Hw2.
    + apply generatetimeSeriesConfs_returns_cache in Hgen
        as (confs & generated & ttl & -> & Hcache).
      change (default [] (Some confs)) with confs in Hrest.
      rewrite collect_run in Hrest.
      destruct (fetch_wave confs (set_grouper st4 [])) as [[u st5] |] eqn:Hwave;
        [| discriminate].
      injection Hrest as <- <-.
      apply fetch_wave_frame in Hwave as (E5 & C5 & _).
      eexists _, confs, _. cbn [emitted set_acc engine world].
      rewrite E5. cbn [set_grouper engine]. split; [exact Hcache |].
      split; [reflexivity |].
      rewrite C5. cbn [set_grouper world]. rewrite Hc4, Hc3, Hw2.
      split; [now rewrite <- app_assoc | reflexivity].
Qed.

Lemma Gather_requests_witness :
  exists (r : option error) (st' : State),
    Gather (H := Reference.runtime) (demo_State demo_client None)
    = Some (r, st') /\
    exists discovery : list ApiCall,
      Forall is_discovery_call discovery /\
      match r with
      | Some _ =>
          calls (world st')
          = (calls (world (demo_State demo_client None)) ++ discovery)%list
      | None =>
          exists (cache : timeSeriesConfCache) (confs : list timeSeriesConf)
                 (fetches : list ApiCall),
            timeSeriesConfCache_ (engine st') = Some cache /\
            TimeSeriesConfs cache = Some confs /\
            calls (world st')
            = (calls (world (demo_State demo_client None)) ++ discovery ++
               fetches)%list /\
            fetches ≡ₚ
            map (fun tsConf =>
                   Call_ListTimeSeries (listTimeSeriesRequest tsConf)) confs
      end.
Proof.
  destruct demo_cycle_returns as (r & st' & E).
  exists r, st'. split; [exact E |].
  exact (Gather_requests (H := Reference.runtime) _ _ _ E).
Defined.

(** ** Windows in order *)

(** The clock and the context are as before, and the readings taken and
    the polls made are not fewer. *)
Definition world_advances (st st' : State) : Prop :=
  now_at (world st') = now_at (world st) /\
  done_at (world st') = done_at (world st) /\
  NewMetricClient (world st') = NewMetricClient (world st) /\
  (ticks (world st) <= ticks (world st'))%nat /\
  (polls (world st) <= polls (world st'))%nat.

Lemma world_advances_refl st : world_advances st st.
Proof. unfold world_advances. now repeat split. Qed.

Lemma world_advances_trans st1 st2 st3 :
  world_advances st1 st2 -> world_advances st2 st3 -> world_advances st1 st3.
Proof.
  unfold world_advances.
  intros (N1 & D1 & C1 & T1 & P1) (N2 & D2 & C2 & T2 & P2).
  repeat split; try congruence; lia.
Qed.

Lemma same_world_advances {A} (m : M A) :
  keeps (fun st st' => world st' = world st) m -> keeps world_advances m.
Proof.
  intros Hm st a st' Hrun. unfold world_advances.
  rewrite (Hm _ _ _ Hrun). now repeat split.
Qed.

Section WorldAdvances.

Context `{GoRuntime}.

Lemma addDistribution_same_world metric tags ts tsConf metricKind :
  keeps (fun st st' => world st' = world st)
    (addDistribution metric tags ts tsConf metricKind).
Proof.
  intros st a st'. rewrite addDistribution_run.
  destruct (distributionToCircHisto _ _); [| discriminate].
  now intros [= _ <-].
Qed.

Lemma primitive_world_advances {A} (m : M A) :
  (forall st, exists a w,
      m st = Some (a, {| engine := engine st; world := w; acc := acc st;
                         grouper := grouper st |}) /\
      now_at w = now_at (world st) /\ done_at w = done_at (world st) /\
      NewMetricClient w = NewMetricClient (world st) /\
      (ticks (world st) <= ticks w)%nat /\
      (polls (world st) <= polls w)%nat) ->
  keeps world_advances m.
Proof.
  intros Hm st a st' Hrun. destruct (Hm st) as (a0 & w & E & Hw).
  rewrite E in Hrun. injection Hrun as _ <-. exact Hw.
Qed.

Lemma done_world_advances : keeps world_advances done.
Proof.
  apply primitive_world_advances. intros st. eexists _, _.
  split; [reflexivity |]. cbn. repeat split; lia.
Qed.

Lemma time_Now_world_advances : keeps world_advances time_Now.
Proof.
  apply primitive_world_advances. intros st. eexists _, _.
  split; [reflexivity |]. cbn. repeat split; lia.
Qed.

Lemma log_call_world_advances c : keeps world_advances (log_call c).
Proof.
  apply primitive_world_advances. intros st. eexists _, _.
  split; [reflexivity |]. cbn. repeat split; lia.
Qed.

Lemma generatetimeSeriesConfs_world_advances startTime endTime :
  keeps world_advances (generatetimeSeriesConfs startTime endTime).
Proof.
  apply generatetimeSeriesConfs_keeps.
  - apply world_advances_refl.
  - apply world_advances_trans.
  - apply done_world_advances.
  - apply time_Now_world_advances.
  - intros s. apply same_world_advances. now intros st a st' [= _ <-].
  - intros req. apply log_call_world_advances.
Qed.

Lemma fetch_wave_world_advances tsConfs :
  keeps world_advances (fetch_wave tsConfs).
Proof.
  apply fetch_wave_keeps.
  - apply world_advances_refl.
  - apply world_advances_trans.
  - apply done_world_advances.
  - intros req. apply log_call_world_advances.
  - intros. apply same_world_advances, addDistribution_same_world.
  - intros. apply same_world_advances. now intros st a st' [= _ <-].
  - intros err. apply same_world_advances. destruct err;
      now intros st a st' [= _ <-].
Qed.

End WorldAdvances.

(** The schedule of the engine is sound: the clock does not go back, the
    delay can be negated, the window is not negative, and the previous end,
    if there is one, is not after the present less the delay. *)
Definition well_scheduled (st : State) : Prop :=
  (forall n, now_at (world st) n <= now_at (world st) (S n)) /\
  Int.min_int64 < Delay (engine st) <= Int.max_int64 /\
  0 <= Window (engine st) <= Int.max_int64 /\
  (prevEnd (engine st) = 0 \/
   prevEnd (engine st)
   <= now_at (world st) (ticks (world st)) - Delay (engine st)).

Lemma clock_le (now_at : nat -> Time) (n m : nat) :
  (forall k, now_at k <= now_at (S k)) -> (n <= m)%nat ->
  now_at n <= now_at m.
Proof.
  intros Hmono Hle. induction Hle as [| m _ IH]; [lia |].
  specialize (Hmono m). lia.
Qed.

Lemma window_of_in_order (s : Stackdriver) (w : World) (p : Time) :
  (forall n, now_at w n <= now_at w (S n)) ->
  Int.min_int64 < Delay s <= Int.max_int64 ->
  0 <= Window s <= Int.max_int64 ->
  (p = 0 \/ p <= now_at w (ticks w) - Delay s) ->
  fst (fst (window_of s w p)) <= snd (fst (window_of s w p)).
Proof.
  intros Hmono HD HW Hp. unfold window_of.
  assert (Int.min_int64 < 0) by (vm_compute; reflexivity).
  assert (Time.neg (Delay s) = - Delay s) as ED
    by (apply TimeFacts.neg_exact; lia).
  assert (Time.neg (Window s) = - Window s) as EW
    by (apply TimeFacts.neg_exact; lia).
  assert (Time.neg defaultWindow = - defaultWindow) as E1
    by (vm_compute; reflexivity).
  assert (0 <= defaultWindow) by (vm_compute; discriminate).
  specialize (Hmono (ticks w)).
  destruct (negb (Window s =? 0)); [| destruct (Time.IsZero p) eqn:Hz];
    cbn [fst snd]; unfold Time.Add; rewrite ?ED, ?EW, ?E1; try lia.
  unfold Time.IsZero in Hz. apply Z.eqb_neq in Hz.
  destruct Hp as [-> | Hp]; [contradiction | lia].
Qed.

(** X19: An engine that is scheduled soundly collects windows that are in
    order: the start that [updateWindow] returns is not after the end.
    [Gather] keeps the schedule sound, so that this holds cycle after
    cycle, as long as the clock does not go back. *)
Theorem Gather_windows_in_order `{GoRuntime} (st : State) :
  well_scheduled st ->
  (forall start end_ st1,
      updateWindow (prevEnd (engine st)) st = Some ((start, end_), st1) ->
      start <= end_) /\
  (forall r st', Gather st = Some (r, st') -> well_scheduled st').
Proof.
  intros (Hmono & HD & HW & Hprev). split.
  - intros start end_ st1. rewrite updateWindow_run. intros [= Hwin _].
    pose proof (window_of_in_order (engine st) (world st)
                  (prevEnd (engine st)) Hmono HD HW Hprev) as Hle.
    rewrite Hwin in Hle. exact Hle.
  - intros r st' Hrun. apply Gather_stages in Hrun
      as [(err & Hprep & -> & ->)
         | (st2 & st3 & st4 & start & end_ & tsConfs & err & Hprep & Hwin
            & Hgen & Hrest)].
    + unfold well_scheduled, with_default_RateLimit.
      destruct (RateLimit (engine st) =? 0); now repeat split.
    + apply prepare_inr in Hprep
        as (Hw2 & _ & _ & (_ & _ & _ & _ & _ & _ & HD2 & HW2 & _) & _ & _ & _
            & Hp2 & _).
      rewrite next_window_run in Hwin.
      pose proof (window_end_exact (engine st2) (world st2)
                    (prevEnd (engine st2))) as Hend.
      rewrite HD2 in Hend. specialize (Hend HD).
      destruct (window_of (engine st2) (world st2) (prevEnd (engine st2)))
        as [[start0 end0] n] eqn:Hwindow.
      cbn [fst snd] in Hwin, Hend. injection Hwin as <- <- <-.
      pose proof (generatetimeSeriesConfs_world_advances _ _ _ _ _ Hgen)
        as (N4 & _ & _ & T4 & _).
      apply generatetimeSeriesConfs_cache_only, cache_only_frame in Hgen
        as ((_ & _ & _ & _ & _ & _ & HD4 & HW4 & _) & _ & _ & Hp4).
      cbn [set_engine advance set_world engine world set_prevEnd prevEnd
           Delay Window now_at ticks] in N4, T4, HD4, HW4, Hp4.
      assert (engine st' = engine st4 /\
              now_at (world st') = now_at (world st4) /\
              (ticks (world st4) <= ticks (world st'))%nat) as (E5 & N5 & T5).
      { destruct err as [e |].
        - destruct Hrest as [_ ->]. now repeat split.
        - rewrite collect_run in Hrest.
          destruct (fetch_wave (default [] tsConfs) (set_grouper st4 []))
            as [[u st5] |] eqn:Hwave; [| discriminate].
          injection Hrest as _ <-.
          pose proof (fetch_wave_world_advances _ _ _ _ Hwave)
            as (N & _ & _ & T & _).
          apply fetch_wave_same_engine in Hwave.
          unfold same_engine in Hwave. cbn in Hwave, N, T |- *.
          now repeat split. }
      unfold well_scheduled. rewrite E5, N5, N4, HD4, HW4, Hp4, HD2, HW2, Hw2.
      split; [exact Hmono |]. split; [exact HD |]. split; [exact HW |].
      right. rewrite Hend, Hw2.
      assert (now_at (world st) (ticks (world st) + (n - 1))
              <= now_at (world st) (ticks (world st'))); [| lia].
      apply clock_le; [exact Hmono |]. rewrite Hw2 in T4. lia.
Qed.

Lemma Gather_windows_in_order_witness :
  (forall start end_ st1,
      updateWindow (prevEnd (engine (demo_State demo_client None)))
        (demo_State demo_client None) = Some ((start, end_), st1) ->
      start <= end_) /\
  (forall r st',
      Gather (H := Reference.runtime) (demo_State demo_client None)
      = Some (r, st') ->
      well_scheduled st').
Proof.
  apply (Gather_windows_in_order (H := Reference.runtime)
           (demo_State demo_client None)).
  unfold well_scheduled.
  split.
  { intros n. cbn [demo_State demo_World world now_at].
    unfold Time.Second. lia. }
  split; [vm_compute; split; [reflexivity | discriminate] |].
  split; [vm_compute; split; discriminate |].
  now left.
Defined.

(** ** What a cycle hands to the accumulator *)

Definition histogram_typed (m : Metric) : Prop :=
  m_type m = Histogram \/ m_type m = CumulativeHistogram.

(** The metrics handed to the accumulator are histograms. *)
Definition histograms_only (st st' : State) : Prop :=
  exists hs, acc_metrics (acc st') = (acc_metrics (acc st) ++ hs)%list /\
             Forall histogram_typed hs.

Lemma histograms_only_refl st : histograms_only st st.
Proof. exists []. now rewrite app_nil_r. Qed.

Lemma histograms_only_trans st1 st2 st3 :
  histograms_only st1 st2 -> histograms_only st2 st3 ->
  histograms_only st1 st3.
Proof.
  intros (h1 & E1 & F1) (h2 & E2 & F2). exists (h1 ++ h2)%list.
  split; [now rewrite E2, E1, app_assoc | now apply Forall_app].
Qed.

Lemma same_metrics_histograms_only {A} (m : M A) :
  keeps (fun st st' => acc_metrics (acc st') = acc_metrics (acc st)) m ->
  keeps histograms_only m.
Proof.
  intros Hm st a st' Hrun. exists []. rewrite app_nil_r.
  split; [eapply Hm, Hrun | constructor].
Qed.

(** The error that the fetch of a configuration reports, if its listing
    fails. *)
Definition failure_of (c : metricClient) (tsConf : timeSeriesConf)
  : list error :=
  match ListTimeSeries c (listTimeSeriesRequest tsConf) with
  | inl err => [wrap_error "list time series" err]
  | inr _ => []
  end.

Section Accumulates.

Context `{GoRuntime}.

Lemma fetch_wave_histograms_only tsConfs :
  keeps histograms_only (fetch_wave tsConfs).
Proof.
  apply fetch_wave_keeps.
  - apply histograms_only_refl.
  - apply histograms_only_trans.
  - apply same_metrics_histograms_only. now intros st a st' [= _ <-].
  - intros c. apply same_metrics_histograms_only.
    now intros st a st' [= _ <-].
  - intros metric tags ts tsConf metricKind st a st'.
    rewrite addDistribution_run.
    destruct (distributionToCircHisto _ _) as [h |]; [| discriminate].
    intros [= _ <-]. unfold histograms_only. cbn [acc].
    destruct (bool_decide (h = ∅)).
    + exists []. now rewrite app_nil_r.
    + eexists. split; [reflexivity |]. constructor; [| constructor].
      unfold histogram_typed, histogram_metric. cbn [m_type].
      destruct (bool_decide _); [now right | now left].
  - intros. apply same_metrics_histograms_only.
    now intros st a st' [= _ <-].
  - intros err. apply same_metrics_histograms_only.
    destruct err; now intros st a st' [= _ <-].
Qed.

Lemma fetch_wave_errors (c : metricClient) (tsConfs : list timeSeriesConf) :
  forall (st st' : State) (u : unit),
    client (engine st) = Some c ->
    fetch_wave tsConfs st = Some (u, st') ->
    acc_errors (acc st')
    = (acc_errors (acc st) ++ flat_map (failure_of c) tsConfs)%list.
Proof.
  induction tsConfs as [| tsConf tsConfs IH]; intros st st' u Hc.
  - intros Hrun. change (Some (tt, st) = Some (u, st')) in Hrun.
    injection Hrun as _ <-. cbn [flat_map]. now rewrite app_nil_r.
  - rewrite fetch_wave_cons. unfold fetch_body, Bind.
    destruct (gatherTimeSeries tsConf st) as [[r st1] |] eqn:Hfetch;
      [| discriminate].
    apply gatherTimeSeries_frame in Hfetch as (E1 & R1 & _ & c' & Hc' & Hr).
    assert (c' = c) as -> by congruence.
    destruct (acc_AddError r st1) as [[[] st2] |] eqn:Hadd; [| discriminate].
    cbn [fst snd]. intros Hrest.
    apply IH in Hrest.
    2: { destruct r; injection Hadd as <-; cbn; congruence. }
    rewrite Hrest. cbn [flat_map]. rewrite app_assoc. f_equal.
    unfold failure_of.
    destruct (ListTimeSeries c (listTimeSeriesRequest tsConf)); subst r;
      injection Hadd as <-; cbn; rewrite ?app_nil_r; congruence.
Qed.

End Accumulates.

(** X20: A cycle that returns no error has handed to the accumulator, after the
    histogram metrics of its distribution points, the grouped metrics of
    the calls that its fetches made on the grouper, and it has reported one
    error for each configuration whose listing failed, and no other. *)
Theorem Gather_accumulates `{GoRuntime} (st st' : State) :
  Gather st = Some (None, st') ->
  exists (c : metricClient) (cache : timeSeriesConfCache)
         (confs : list timeSeriesConf) (hs : list Metric)
         (reported : list error),
    client (engine st') = Some c /\
    timeSeriesConfCache_ (engine st') = Some cache /\
    TimeSeriesConfs cache = Some confs /\
    acc_metrics (acc st')
    = (acc_metrics (acc st) ++ hs ++ SeriesGrouper_Metrics (grouper st'))%list
    /\
    Forall histogram_typed hs /\
    acc_errors (acc st') = (acc_errors (acc st) ++ reported)%list /\
    reported ≡ₚ flat_map (failure_of c) confs.
Proof.
  intros Hrun. apply Gather_stages in Hrun
    as [(err & _ & [=] & _)
       | (st2 & st3 & st4 & start & end_ & tsConfs & err & Hprep & Hwin
          & Hgen & Hrest)].
  apply prepare_inr in Hprep as (_ & Hacc2 & _ & _ & _ & _ & [c Hc2] & _).
  apply next_window_frame in Hwin as (_ & Hacc3 & _ & _ & _ & Hc3 & _).
  pose proof (generatetimeSeriesConfs_same_acc _ _ _ _ _ Hgen) as Hacc4.
  pose proof (generatetimeSeriesConfs_cache_only _ _ _ _ _ Hgen) as Hco.
  apply cache_only_frame in Hco as (_ & _ & Hc4 & _).
  destruct err as [e |]; [now destruct Hrest |].
  apply generatetimeSeriesConfs_returns_cache in Hgen
    as (confs & generated & ttl & -> & Hcache).
  change (default [] (Some confs)) with confs in Hrest.
  rewrite collect_run in Hrest.
  destruct (fetch_wave confs (set_grouper st4 [])) as [[u st5] |] eqn:Hwave;
    [| discriminate].
  injection Hrest as <-.
  assert (client (engine (set_grouper st4 [])) = Some c) as Hc
    by (cbn; congruence).
  pose proof (fetch_wave_errors c confs _ _ _ Hc Hwave) as Herrors.
  pose proof (fetch_wave_histograms_only _ _ _ _ Hwave) as (hs & Hms & Hhs).
  apply fetch_wave_same_engine in Hwave. unfold same_engine in Hwave.
  cbn [set_grouper engine acc] in Hwave, Herrors, Hms.
  unfold same_acc in Hacc4.
  exists c, {| Generated := generated; TimeSeriesConfs := Some confs;
               TTL := ttl |}, confs, hs, (flat_map (failure_of c) confs).
  cbn [emitted set_acc engine acc acc_metrics acc_errors grouper
       TimeSeriesConfs].
  rewrite Hwave, Hms, Herrors, Hacc4, Hacc3, Hacc2.
  repeat split; try assumption; try reflexivity; try congruence.
  now rewrite <- app_assoc.
Qed.

Lemma Gather_accumulates_witness :
  exists st' : State,
    Gather (H := Reference.runtime) (demo_State demo_client None)
    = Some (None, st') /\
    exists (c : metricClient) (cache : timeSeriesConfCache)
           (confs : list timeSeriesConf) (hs : list Metric)
           (reported : list error),
      client (engine st') = Some c /\
      timeSeriesConfCache_ (engine st') = Some cache /\
      TimeSeriesConfs cache = Some confs /\
      acc_metrics (acc st')
      = (acc_metrics (acc (demo_State demo_client None)) ++ hs ++
         SeriesGrouper_Metrics (grouper st'))%list /\
      Forall histogram_typed hs /\
      acc_errors (acc st')
      = (acc_errors (acc (demo_State demo_client None)) ++ reported)%list /\
      reported ≡ₚ flat_map (failure_of c) confs.
Proof.
  assert (fst <$> Gather (H := Reference.runtime)
                    (demo_State demo_client None) = Some None) as Hrun
    by (vm_compute; reflexivity).
  destruct (Gather (H := Reference.runtime) (demo_State demo_client None))
    as [[r st'] |] eqn:E; [| discriminate].
  cbn in Hrun. injection Hrun as ->.
  exists st'. split; [reflexivity |].
  exact (Gather_accumulates (H := Reference.runtime) _ _ E).
Defined.

(** ** The listings of the client *)

(** What the loop of a listing task leaves as it is: the call statistics
    and the context. *)
Definition listing_frame (st st' : Client.state) : Prop :=
  Client.listMetricDescriptorsCalls st' = Client.listMetricDescriptorsCalls st
  /\ Client.listTimeSeriesCalls st' = Client.listTimeSeriesCalls st
  /\ Client.ctx_done st' = Client.ctx_done st.

(** What a listing delivers, for an iterator of [items] that ends with
    [ending], from the log [log0] and under the context [ctx] polled from
    [poll0] on: an initial part of the items; all of them, with the failure
    of the iterator logged, when the context is not done during the
    listing; none, and nothing logged, when the context is done at the
    start; and a failure is logged only after all items are delivered. *)
Definition delivers {A} (line : error -> Client.LogLine) (items : list A)
    (ending : Client.IteratorError) (ctx : nat -> bool) (poll0 : nat)
    (log0 : list Client.LogLine) (sent : list A)
    (log1 : list Client.LogLine) : Prop :=
  (exists n, sent = take n items) /\
  (log1 = log0 \/
   exists err, ending = Client.iterator_failure err /\ sent = items /\
               log1 = (log0 ++ [line err])%list) /\
  ((forall k, (k <= length items)%nat -> ctx (poll0 + k)%nat = false) ->
   sent = items /\
   log1 = (log0 ++
           match ending with
           | Client.iterator_Done => []
           | Client.iterator_failure err => [line err]
           end)%list) /\
  (ctx poll0 = true -> sent = [] /\ log1 = log0).

Lemma iterate_done {A} (line : error -> Client.LogLine) (items : list A)
    (ending : Client.IteratorError) (st : Client.state) :
  Client.ctx_done st (Client.ctx_polls st) = true ->
  Client.iterate line items ending st = ([], snd (Client.done st)).
Proof.
  intros Hd. destruct items; cbn [Client.iterate]; unfold Client.done;
    now rewrite Hd.
Qed.

Lemma iterate_end {A} (line : error -> Client.LogLine)
    (ending : Client.IteratorError) (st : Client.state) :
  Client.ctx_done st (Client.ctx_polls st) = false ->
  Client.iterate line (@nil A) ending st
  = ([], match ending with
         | Client.iterator_Done => snd (Client.done st)
         | Client.iterator_failure err =>
             Client.Errorf (line err) (snd (Client.done st))
         end).
Proof.
  intros Hd. cbn [Client.iterate]. unfold Client.done. rewrite Hd.
  now destruct ending.
Qed.

Lemma iterate_item {A} (line : error -> Client.LogLine) (x : A)
    (items : list A) (ending : Client.IteratorError) (st : Client.state) :
  Client.ctx_done st (Client.ctx_polls st) = false ->
  Client.iterate line (x :: items) ending st
  = (x :: fst (Client.iterate line items ending (snd (Client.done st))),
     snd (Client.iterate line items ending (snd (Client.done st)))).
Proof.
  intros Hd. cbn [Client.iterate]. unfold Client.done. rewrite Hd.
  cbn [snd]. now destruct (Client.iterate line items ending _).
Qed.

Lemma delivers_nothing {A} (line : error -> Client.LogLine) (items : list A)
    (ending : Client.IteratorError) (ctx : nat -> bool) (poll0 : nat)
    (log0 : list Client.LogLine) :
  ctx poll0 = true -> delivers line items ending ctx poll0 log0 [] log0.
Proof.
  intros Hd. unfold delivers.
  split; [now exists O |]. split; [now left |]. split; [| now split].
  intros Hopen. specialize (Hopen O (Nat.le_0_l _)).
  rewrite Nat.add_0_r in Hopen. congruence.
Qed.

Lemma iterate_delivers {A} (line : error -> Client.LogLine)
    (ending : Client.IteratorError) (items : list A) :
  forall st : Client.state,
    listing_frame st (snd (Client.iterate line items ending st)) /\
    delivers line items ending (Client.ctx_done st) (Client.ctx_polls st)
      (Client.log st)
      (fst (Client.iterate line items ending st))
      (Client.log (snd (Client.iterate line items ending st))).
Proof.
  induction items as [| x items IH]; intros st;
    destruct (Client.ctx_done st (Client.ctx_polls st)) eqn:Hd.
  - rewrite iterate_done by assumption.
    split; [now repeat split | now apply delivers_nothing].
  - rewrite iterate_end by assumption. cbn [fst snd].
    split; [destruct ending; now repeat split |].
    unfold delivers.
    split; [now exists O |].
    split.
    { destruct ending as [| err]; [now left | right].
      exists err. now repeat split. }
    split; [| congruence].
    intros _. split; [reflexivity |].
    destruct ending; cbn; now rewrite ?app_nil_r.
  - rewrite iterate_done by assumption.
    split; [now repeat split | now apply delivers_nothing].
  - rewrite iterate_item by assumption. cbn [fst snd].
    set (st1 := snd (Client.done st)).
    assert (Client.log st1 = Client.log st /\
            Client.ctx_done st1 = Client.ctx_done st /\
            Client.ctx_polls st1 = S (Client.ctx_polls st) /\
            Client.listMetricDescriptorsCalls st1
            = Client.listMetricDescriptorsCalls st /\
            Client.listTimeSeriesCalls st1 = Client.listTimeSeriesCalls st)
      as (L1 & D1 & P1 & M1 & T1) by now repeat split.
    destruct (IH st1) as ((F1 & F2 & F3) & (n & Hn) & Hlog & Hopen & _).
    rewrite ?L1, ?D1, ?P1, ?M1, ?T1 in *.
    split; [now repeat split |].
    unfold delivers.
    split; [exists (S n); cbn [take]; now rewrite <- Hn |].
    split.
    { destruct Hlog as [Hlog | (err & He & Hs & Hl)]; [now left | right].
      exists err. repeat split; [assumption | now rewrite Hs | assumption]. }
    split; [| congruence].
    intros Hall.
    destruct Hopen as [Hs Hl].
    { intros k Hk. specialize (Hall (S k)).
      rewrite Nat.add_succ_comm. apply Hall. cbn [length]. lia. }
    split; [now rewrite Hs | exact Hl].
Qed.

(** X10: A listing of the client returns its channel and no error, and counts
    one call.  The channel delivers an initial part of what the iterator of
    the API library yields: all of it when the context is not done during
    the listing, nothing when the context is done at the start.  A failure
    of the iterator is not returned: it ends the listing after the items
    before it have been delivered, and is logged, in one line. *)
Theorem listings_deliver_prefix (smc : Client.MetricClient)
    (st : Client.state) :
  (forall req : ListTimeSeriesRequest,
      let tsResp := Client.conn_ListTimeSeries smc req in
      let r := Client.ListTimeSeries smc req st in
      snd (fst r) = None /\
      Client.listTimeSeriesCalls (snd r) = S (Client.listTimeSeriesCalls st) /\
      Client.listMetricDescriptorsCalls (snd r)
      = Client.listMetricDescriptorsCalls st /\
      delivers (Client.Failed_iterating_time_series_responses req)
        (Client.it_items tsResp) (Client.it_end tsResp)
        (Client.ctx_done st) (Client.ctx_polls st) (Client.log st)
        (fst (fst r)) (Client.log (snd r))) /\
  (forall req : ListMetricDescriptorsRequest,
      let mdResp := Client.conn_ListMetricDescriptors smc req in
      let r := Client.ListMetricDescriptors smc req st in
      snd (fst r) = None /\
      Client.listMetricDescriptorsCalls (snd r)
      = S (Client.listMetricDescriptorsCalls st) /\
      Client.listTimeSeriesCalls (snd r) = Client.listTimeSeriesCalls st /\
      delivers (Client.Failed_iterating_metric_descriptor_responses req)
        (Client.it_items mdResp) (Client.it_end mdResp)
        (Client.ctx_done st) (Client.ctx_polls st) (Client.log st)
        (fst (fst r)) (Client.log (snd r))).
Proof.
  split; intros req; cbv zeta.
  - unfold Client.ListTimeSeries.
    match goal with
    | |- context [Client.iterate ?l ?i ?e ?s] =>
        pose proof (iterate_delivers l e i s) as [(F1 & F2 & F3) Hd];
        destruct (Client.iterate l i e s) as [sent st'] eqn:E
    end.
    cbn [fst snd Client.listMetricDescriptorsCalls Client.listTimeSeriesCalls
         Client.log Client.ctx_done Client.ctx_polls] in *.
    split; [reflexivity | split; [exact F2 | split; [exact F1 | exact Hd]]].
  - unfold Client.ListMetricDescriptors.
    match goal with
    | |- context [Client.iterate ?l ?i ?e ?s] =>
        pose proof (iterate_delivers l e i s) as [(F1 & F2 & F3) Hd];
        destruct (Client.iterate l i e s) as [sent st'] eqn:E
    end.
    cbn [fst snd Client.listMetricDescriptorsCalls Client.listTimeSeriesCalls
         Client.log Client.ctx_done Client.ctx_polls] in *.
    split; [reflexivity | split; [exact F1 | split; [exact F2 | exact Hd]]].
Qed.

Example listing_with_failure :
  let smc :=
    {| Client.conn_ListMetricDescriptors := fun _ =>
         {| Client.it_items := []; Client.it_end := Client.iterator_Done |};
       Client.conn_ListTimeSeries := fun _ =>
         {| Client.it_items := [demo_series; demo_series];
            Client.it_end := Client.iterator_failure "deadline exceeded" |} |}
  in
  let st :=
    {| Client.listMetricDescriptorsCalls := O;
       Client.listTimeSeriesCalls := O; Client.log := [];
       Client.ctx_done := fun _ => false; Client.ctx_polls := O |} in
  let r := Client.ListTimeSeries smc (listTimeSeriesRequest bar_conf) st in
  fst r = ([demo_series; demo_series], None) /\
  Client.log (snd r)
  = [Client.Failed_iterating_time_series_responses
       (listTimeSeriesRequest bar_conf) "deadline exceeded"] /\
  Client.ctx_polls (snd r) = 3%nat.
Proof. cbv zeta. now repeat split. Qed.

(** ** A cycle over the client *)

(** A client whose listings return no error. *)
Definition never_fails (c : metricClient) : Prop :=
  (forall req, exists mds, ListMetricDescriptors c req = inr mds) /\
  (forall req, exists tss, ListTimeSeries c req = inr tss).

Lemma as_metricClient_never_fails (smc : Client.MetricClient)
    (ctx : nat -> bool) :
  never_fails (Client.as_metricClient smc ctx).
Proof.
  split; intros req; unfold Client.as_metricClient;
    cbn [ListMetricDescriptors ListTimeSeries].
  - unfold Client.ListMetricDescriptors.
    destruct (Client.iterate _ _ _ _) as [sent st']. now exists sent.
  - unfold Client.ListTimeSeries.
    destruct (Client.iterate _ _ _ _) as [sent st']. now exists sent.
Qed.

Section NoError.

Context `{GoRuntime}.

Lemma discovery_loop_no_error (s : Stackdriver) (startTime endTime : Time)
    (c : metricClient) (filters : list string) :
  never_fails c ->
  forall (ret0 : list timeSeriesConf) (st st' : State)
         (r : error + list timeSeriesConf),
    client (engine st) = Some c ->
    for_range filters (filter_body s startTime endTime) (inr ret0) st
    = Some (r, st') ->
    exists ret1, r = inr ret1.
Proof.
  intros [Hmd _]. induction filters as [| filter filters IH];
    intros ret0 st st' r Hc; cbn [for_range].
  - intros [= <- _]. now exists ret0.
  - intros Hrun. apply Bind_inv in Hrun as ([brk a] & st1 & Hbody & Hrun).
    pose proof (filter_body_same_engine _ _ _ _ _ _ _ _ Hbody) as E1.
    unfold filter_body in Hbody.
    apply Bind_inv in Hbody as (res & st2 & Hcall & Hbody).
    unfold client_ListMetricDescriptors, Bind, get_engine in Hcall.
    rewrite Hc in Hcall. injection Hcall as <- <-.
    match type of Hbody with
    | context [ListMetricDescriptors c ?req] =>
        destruct (Hmd req) as [mds Hmds]; rewrite Hmds in Hbody
    end.
    apply Bind_inv in Hbody as (ret1 & st3 & _ & Hbody).
    apply Bind_inv in Hbody as (d & st4 & _ & Hbody).
    injection Hbody as <- <- <-.
    destruct d.
    + injection Hrun as <- _. now exists ret1.
    + eapply IH; [| exact Hrun]. unfold same_engine in E1. congruence.
Qed.

Lemma generatetimeSeriesConfs_no_error (startTime endTime : Time)
    (st st' : State) (c : metricClient)
    (tsConfs : option (list timeSeriesConf)) (err : option error) :
  never_fails c -> client (engine st) = Some c ->
  generatetimeSeriesConfs startTime endTime st = Some ((tsConfs, err), st') ->
  err = None.
Proof.
  intros Hnf Hc. destruct (cache_hit st) eqn:Hhit.
  - pose proof Hhit as Hhit'. unfold cache_hit in Hhit'.
    destruct (timeSeriesConfCache_ (engine st)) as [cache |] eqn:Hcache;
      [| discriminate].
    destruct (TimeSeriesConfs cache) as [confs |] eqn:Hconfs;
      [| discriminate].
    rewrite (generatetimeSeriesConfs_hit _ _ _ _ _ Hcache Hconfs Hhit).
    now intros [= _ <- _].
  - rewrite generatetimeSeriesConfs_miss by assumption. intros Hrun.
    apply Bind_inv in Hrun as (r & st2 & Hloop & Hrun).
    eapply discovery_loop_no_error in Hloop as [ret1 ->]; [| eassumption |].
    + unfold store_discovered, Bind in Hrun. rewrite time_Now_run in Hrun.
      now injection Hrun as _ <- _.
    + unfold after_check.
      destruct (timeSeriesConfCache_ (engine st)) as [cache |];
        [destruct (TimeSeriesConfs cache) |]; exact Hc.
Qed.

End NoError.

(** X11: With the client in place, or made at the start of the cycle, a cycle
    of the engine over it returns no error and reports none: the listings
    of the client return no error, so that a failure of the remote API
    shows in the log of the client only. *)
Theorem Gather_over_client_reports_no_error `{GoRuntime}
    (smc : Client.MetricClient) (ctx : nat -> bool) (st st' : State)
    (r : option error) :
  client_of st = Some (Client.as_metricClient smc ctx) ->
  Gather st = Some (r, st') ->
  r = None /\ acc_errors (acc st') = acc_errors (acc st).
Proof.
  intros Hclient Hrun.
  pose proof (as_metricClient_never_fails smc ctx) as Hnf.
  apply Gather_stages in Hrun
    as [(err & Hprep & -> & ->)
       | (st2 & st3 & st4 & start & end_ & tsConfs & err & Hprep & Hwin
          & Hgen & Hrest)].
  - exfalso. unfold prepare in Hprep. unfold client_of in Hclient.
    assert (client (engine (with_default_RateLimit st)) = client (engine st)
            /\ world (with_default_RateLimit st) = world st) as [Ec Ew]
      by (unfold with_default_RateLimit;
          destruct (RateLimit (engine st) =? 0); now split).
    rewrite Ec, Ew in Hprep.
    destruct (client (engine st)), (NewMetricClient (world st));
      discriminate.
  - apply prepare_inr in Hprep
      as (_ & Hacc2 & _ & _ & _ & Hclient2 & _).
    apply next_window_frame in Hwin as (_ & Hacc3 & _ & _ & _ & Hclient3 & _).
    assert (client (engine st3) = Some (Client.as_metricClient smc ctx))
      as Hc3 by congruence.
    pose proof (generatetimeSeriesConfs_no_error _ _ _ _ _ _ _ Hnf Hc3 Hgen)
      as ->.
    pose proof (generatetimeSeriesConfs_same_acc _ _ _ _ _ Hgen) as Hacc4.
    pose proof (generatetimeSeriesConfs_cache_only _ _ _ _ _ Hgen) as Hco.
    apply cache_only_frame in Hco as (_ & _ & Hclient4 & _).
    rewrite collect_run in Hrest.
    destruct (fetch_wave (default [] tsConfs) (set_grouper st4 []))
      as [[u st5] |] eqn:Hwave; [| discriminate].
    injection Hrest as <- <-. split; [reflexivity |].
    apply fetch_wave_frame in Hwave as (_ & _ & Herrors).
    cbn [emitted set_acc acc acc_errors].
    rewrite Herrors.
    + cbn [set_grouper acc]. unfold same_acc in Hacc4. congruence.
    + cbn [set_grouper engine]. intros c Hc. destruct Hnf as [_ Hts].
      assert (c = Client.as_metricClient smc ctx) as -> by congruence.
      exact Hts.
Qed.

Definition remote : Client.MetricClient :=
  {| Client.conn_ListMetricDescriptors := fun _ =>
       {| Client.it_items := [ {| md_Type := "custom.googleapis.com/foo/bar";
                                  md_ValueType := INT64 |} ];
          Client.it_end := Client.iterator_Done |};
     Client.conn_ListTimeSeries := fun _ =>
       {| Client.it_items := [demo_series];
          Client.it_end := Client.iterator_failure "deadline exceeded" |} |}.

Definition remote_State : State :=
  demo_State (Client.as_metricClient remote (fun _ => false)) None.

Lemma remote_cycle_returns :
  exists (r : option error) (st' : State),
    Gather (H := Reference.runtime) remote_State = Some (r, st').
Proof.
  assert (fst <$> Gather (H := Reference.runtime) remote_State = Some None)
    as Hrun by (vm_compute; reflexivity).
  destruct (Gather (H := Reference.runtime) remote_State)
    as [[r st'] |]; [eauto | discriminate].
Qed.

Lemma Gather_over_client_reports_no_error_witness :
  exists (r : option error) (st' : State),
    Gather (H := Reference.runtime) remote_State = Some (r, st') /\
    r = None /\ acc_errors (acc st') = acc_errors (acc remote_State).
Proof.
  destruct remote_cycle_returns as (r & st' & E).
  exists r, st'. split; [exact E |].
  apply (Gather_over_client_reports_no_error (H := Reference.runtime)
           remote (fun _ => false) remote_State st' r);
    [reflexivity | exact E].
Defined.

(** ** Runs of discovery *)

(** Whether discovery takes a descriptor listed for [filter]: with the
    empty filter the include and exclude prefixes decide; a descriptor
    listed for another filter is taken as it is. *)
Definition kept (s : Stackdriver) (filter : string)
    (metricDescriptor : MetricDescriptor) : bool :=
  negb (String.eqb filter EmptyString &&
        negb (includeMetricType s (md_Type metricDescriptor))).

(** The request of discovery for a filter, and what the client lists for
    it. *)
Definition discovery_request (s : Stackdriver) (filter : string)
  : ListMetricDescriptorsRequest :=
  {| mdreq_Name := "projects/" +:+ Project s; mdreq_Filter := filter |}.

Definition listed (c : metricClient) (s : Stackdriver) (filter : string)
  : list MetricDescriptor :=
  match ListMetricDescriptors c (discovery_request s filter) with
  | inr mds => mds
  | inl _ => []
  end.

(** The configurations that discovery makes under a context that answers
    [b] to every poll: of every descriptor taken, for every filter, when it
    is not done; of the first descriptor taken for the first filter when it
    is. *)
Definition discovered (b : bool) (c : metricClient) (s : Stackdriver)
    (startTime endTime : Time) (filters : list string)
  : list timeSeriesConf :=
  flat_map
    (fun filter =>
       flat_map (fun md => descriptor_confs s md startTime endTime)
         (handled b (List.filter (kept s filter) (listed c s filter))))
    (handled b filters).

Section DiscoveryRun.

Context `{GoRuntime}.
Variable b : bool.
Variable s : Stackdriver.
Variables startTime endTime : Time.

Lemma descriptor_loop_run (filter : string) (mds : list MetricDescriptor) :
  forall (ret0 : list timeSeriesConf) (st : State),
    answers b st ->
    exists st',
      for_range mds (descriptor_body s filter startTime endTime) ret0 st
      = Some ((ret0 ++
               flat_map (fun md => descriptor_confs s md startTime endTime)
                 (handled b (List.filter (kept s filter) mds)))%list, st') /\
      changes_by [] []
        (length (handled b (List.filter (kept s filter) mds))) [] st st'.
Proof.
  induction mds as [| md mds IH]; intros ret0 st Hb.
  - exists st. cbn [for_range List.filter]. unfold Return.
    replace (handled b (@nil MetricDescriptor)) with (@nil MetricDescriptor)
      by now destruct b.
    cbn [flat_map length]. rewrite app_nil_r.
    split; [reflexivity | apply changes_by_refl].
  - cbn [for_range List.filter].
    assert (descriptor_body s filter startTime endTime md ret0
            = if kept s filter md
              then Bind done
                     (fun d =>
                        Return (d, (ret0 ++
                                    descriptor_confs s md startTime endTime)%list))
              else Return (false, ret0)) as ->
      by (unfold descriptor_body, kept; now destruct (_ && _)).
    destruct (kept s filter md) eqn:Hkept.
    + unfold Bind at 1 2.
      destruct (done_changes_by st) as (st1 & -> & Hch1).
      rewrite (Hb (polls (world st))). unfold Return at 1.
      destruct b eqn:Eb.
      * exists st1. cbn [handled take flat_map length]. rewrite app_nil_r.
        split; [reflexivity | exact Hch1].
      * destruct (IH (ret0 ++ descriptor_confs s md startTime endTime)%list
                    st1)
          as (st2 & Hrun & Hch2);
          [eapply answers_changes_by; eassumption |].
        exists st2. cbn [handled] in *. cbn [flat_map length].
        rewrite Hrun, <- app_assoc. split; [reflexivity |].
        pose proof (changes_by_trans _ _ _ _ _ _ _ _ _ _ _ Hch1 Hch2) as Hall.
        now rewrite !app_nil_r in Hall.
    + unfold Bind at 1, Return at 1. apply IH, Hb.
Qed.

Lemma discovery_loop_run (c : metricClient) (filters : list string) :
  forall (ret0 : list timeSeriesConf) (st : State),
    answers b st ->
    client (engine st) = Some c ->
    Forall (fun filter =>
              exists mds,
                ListMetricDescriptors c (discovery_request s filter)
                = inr mds) (handled b filters) ->
    exists st',
      for_range filters (filter_body s startTime endTime) (inr ret0) st
      = Some (inr (ret0 ++ discovered b c s startTime endTime filters)%list,
              st') /\
      changes_by [] []
        (sum_list
           (map (fun filter =>
                   (length (handled b
                              (List.filter (kept s filter)
                                 (listed c s filter))) + 1)%nat)
              (handled b filters)))
        (map (fun filter =>
                Call_ListMetricDescriptors (discovery_request s filter))
           (handled b filters)) st st'.
Proof.
  unfold discovered.
  induction filters as [| filter filters IH]; intros ret0 st Hb Hc Hok.
  - exists st. cbn [for_range]. unfold Return.
    replace (handled b (@nil string)) with (@nil string) by now destruct b.
    cbn [flat_map map sum_list sum_list_with]. rewrite app_nil_r.
    split; [reflexivity | apply changes_by_refl].
  - assert (exists mds,
               ListMetricDescriptors c (discovery_request s filter) = inr mds)
      as [mds Hmds]
      by (unfold handled in Hok; destruct b;
          now apply Forall_cons in Hok as [? _]).
    assert (listed c s filter = mds) as Hlisted
      by (unfold listed; now rewrite Hmds).
    cbn [for_range]. unfold filter_body at 1. unfold Bind at 1 2.
    unfold client_ListMetricDescriptors, Bind at 1 2. unfold get_engine.
    rewrite Hc. unfold log_call, Bind at 1. unfold get_world, put_world.
    unfold Return at 1.
    change {| mdreq_Name := "projects/" +:+ Project s;
              mdreq_Filter := filter |} with (discovery_request s filter).
    rewrite Hmds.
    set (st1 := called (Call_ListMetricDescriptors
                          (discovery_request s filter)) st).
    change {| engine := engine st;
              world :=
                {| now_at := now_at (world st); ticks := ticks (world st);
                   done_at := done_at (world st); polls := polls (world st);
                   NewMetricClient := NewMetricClient (world st);
                   calls := calls (world st) ++
                            [Call_ListMetricDescriptors
                               (discovery_request s filter)] |};
              acc := acc st; grouper := grouper st |} with st1.
    assert (changes_by [] [] 0
              [Call_ListMetricDescriptors (discovery_request s filter)]
              st st1) as Hch1.
    { unfold changes_by, st1. cbn. rewrite !app_nil_r, Nat.add_0_r.
      now repeat split. }
    pose proof (answers_changes_by b _ _ _ _ _ _ Hch1 Hb) as Hb1.
    unfold Bind at 1.
    destruct (descriptor_loop_run filter mds ret0 st1 Hb1)
      as (st2 & -> & Hch2).
    pose proof (answers_changes_by b _ _ _ _ _ _ Hch2 Hb1) as Hb2.
    unfold Bind at 1.
    destruct (done_changes_by st2) as (st3 & -> & Hch3).
    rewrite (Hb2 (polls (world st2))). unfold Return at 1.
    pose proof (changes_by_trans _ _ _ _ _ _ _ _ _ _ _
                  (changes_by_trans _ _ _ _ _ _ _ _ _ _ _ Hch1 Hch2) Hch3)
      as Hch13.
    rewrite !app_nil_r in Hch13. cbn [Nat.add] in Hch13.
    destruct b eqn:Eb.
    + exists st3. cbn [handled take flat_map map sum_list sum_list_with].
      rewrite Hlisted, !app_nil_r, Nat.add_0_r.
      split; [reflexivity | exact Hch13].
    + destruct (IH (ret0 ++
                    flat_map
                      (fun md => descriptor_confs s md startTime endTime)
                      (handled false (List.filter (kept s filter) mds)))%list
                  st3)
        as (st4 & Hrun & Hch4).
      * eapply answers_changes_by; eassumption.
      * destruct Hch13 as (E & _). congruence.
      * unfold handled in *. now apply Forall_cons in Hok as [_ ?].
      * exists st4. cbn [handled] in *.
        cbn [flat_map map sum_list sum_list_with].
        rewrite Hrun, Hlisted, <- app_assoc. split; [reflexivity |].
        pose proof (changes_by_trans _ _ _ _ _ _ _ _ _ _ _ Hch13 Hch4)
          as Hall.
        now rewrite !app_nil_r in Hall.
Qed.

End DiscoveryRun.

(** The run of discovery on a miss, under a context that answers [b] to
    every poll, when the listings it makes succeed. *)
Lemma generatetimeSeriesConfs_run `{GoRuntime} (b : bool)
    (startTime endTime : Time) (st : State) (c : metricClient) :
  cache_hit st = false ->
  client (engine st) = Some c ->
  answers b st ->
  Forall (fun filter =>
            exists mds,
              ListMetricDescriptors c (discovery_request (engine st) filter)
              = inr mds)
    (handled b (discovery_filters (engine st))) ->
  exists st',
    generatetimeSeriesConfs startTime endTime st
    = Some ((Some (discovered b c (engine st) startTime endTime
                     (discovery_filters (engine st))), None), st') /\
    timeSeriesConfCache_ (engine st')
    = Some {| Generated :=
                now_at (world st) (ticks (world (after_check st)));
              TimeSeriesConfs :=
                Some (discovered b c (engine st) startTime endTime
                        (discovery_filters (engine st)));
              TTL := CacheTTL (engine st) |} /\
    calls (world st')
    = (calls (world st) ++
       map (fun filter =>
              Call_ListMetricDescriptors
                (discovery_request (engine st) filter))
         (handled b (discovery_filters (engine st))))%list /\
    acc st' = acc st.
Proof.
  intros Hmiss Hc Hb Hok.
  rewrite generatetimeSeriesConfs_miss by assumption.
  assert (engine (after_check st) = engine st /\
          calls (world (after_check st)) = calls (world st) /\
          done_at (world (after_check st)) = done_at (world st) /\
          now_at (world (after_check st)) = now_at (world st) /\
          acc (after_check st) = acc st) as (E0 & C0 & D0 & N0 & A0).
  { unfold after_check.
    destruct (timeSeriesConfCache_ (engine st)) as [cache |];
      [destruct (TimeSeriesConfs cache) |]; now repeat split. }
  destruct (discovery_loop_run b (engine st) startTime endTime c
              (discovery_filters (engine st)) [] (after_check st))
    as (st2 & Hloop & Hch).
  - intros n. rewrite D0. apply Hb.
  - now rewrite E0.
  - exact Hok.
  - unfold Bind. rewrite Hloop. cbn [app store_discovered].
    unfold Bind. rewrite time_Now_run.
    destruct Hch as (E2 & _ & M2 & R2 & _ & C2 & _ & N2 & T2 & _).
    eexists. split; [reflexivity |]. cbn.
    rewrite C2, C0, N2, N0, T2. repeat split.
    rewrite app_nil_r in M2.
    destruct (acc st2) as [ms es] eqn:Eacc2. cbn in M2, R2.
    rewrite <- A0. destruct (acc (after_check st)). cbn in M2, R2.
    congruence.
Qed.

(** X12: A miss under a context that is never done, with a client whose
    listings succeed: discovery makes one request per filter, in order (one
    with the empty filter when no include prefix is configured), takes
    every descriptor listed (with the empty filter, those that the include
    and exclude prefixes admit), and returns their configurations in the
    order of the listings; the cache then holds them, generated at the
    reading of the clock after discovery, with the configured duration. *)
Theorem generatetimeSeriesConfs_discovers_all `{GoRuntime}
    (startTime endTime : Time) (st : State) (c : metricClient) :
  cache_hit st = false ->
  client (engine st) = Some c ->
  (forall n, done_at (world st) n = false) ->
  Forall (fun filter =>
            exists mds,
              ListMetricDescriptors c (discovery_request (engine st) filter)
              = inr mds)
    (discovery_filters (engine st)) ->
  let ret :=
    flat_map
      (fun filter =>
         flat_map (fun md => descriptor_confs (engine st) md startTime endTime)
           (List.filter (kept (engine st) filter)
              (listed c (engine st) filter)))
      (discovery_filters (engine st)) in
  exists st',
    generatetimeSeriesConfs startTime endTime st
    = Some ((Some ret, None), st') /\
    timeSeriesConfCache_ (engine st')
    = Some {| Generated :=
                now_at (world st) (ticks (world (after_check st)));
              TimeSeriesConfs := Some ret;
              TTL := CacheTTL (engine st) |} /\
    calls (world st')
    = (calls (world st) ++
       map (fun filter =>
              Call_ListMetricDescriptors
                (discovery_request (engine st) filter))
         (discovery_filters (engine st)))%list /\
    acc st' = acc st.
Proof.
  intros Hmiss Hc Hquiet Hok.
  exact (generatetimeSeriesConfs_run false startTime endTime st c
           Hmiss Hc Hquiet Hok).
Qed.

Lemma generatetimeSeriesConfs_discovers_all_witness :
  let st := demo_State busy_client (Some stale_cache) in
  let ret :=
    flat_map
      (fun filter =>
         flat_map (fun md => descriptor_confs (engine st) md 5 7)
           (List.filter (kept (engine st) filter)
              (listed busy_client (engine st) filter)))
      (discovery_filters (H := Reference.runtime) (engine st)) in
  exists st',
    generatetimeSeriesConfs (H := Reference.runtime) 5 7 st
    = Some ((Some ret, None), st') /\
    timeSeriesConfCache_ (engine st')
    = Some {| Generated :=
                now_at (world st) (ticks (world (after_check st)));
              TimeSeriesConfs := Some ret;
              TTL := CacheTTL (engine st) |} /\
    calls (world st')
    = (calls (world st) ++
       map (fun filter =>
              Call_ListMetricDescriptors
                (discovery_request (engine st) filter))
         (discovery_filters (H := Reference.runtime) (engine st)))%list /\
    acc st' = acc st.
Proof.
  intros st.
  apply (generatetimeSeriesConfs_discovers_all (H := Reference.runtime) 5 7
           st busy_client).
  - reflexivity.
  - reflexivity.
  - reflexivity.
  - repeat constructor. now eexists.
Defined.

(** X13: A miss under a context that is done from the start: discovery still
    makes its first request, and when that listing succeeds it takes the
    first descriptor that it would take, and no other, makes no further
    request, and stores the configurations of that one descriptor in the
    cache, with the configured duration, as it stores a full list. *)
Theorem generatetimeSeriesConfs_done_first_descriptor `{GoRuntime}
    (startTime endTime : Time) (st : State) (c : metricClient)
    (mds : list MetricDescriptor) :
  cache_hit st = false ->
  client (engine st) = Some c ->
  (forall n, done_at (world st) n = true) ->
  ListMetricDescriptors c (first_discovery_request (engine st)) = inr mds ->
  let ret :=
    flat_map (fun md => descriptor_confs (engine st) md startTime endTime)
      (take 1 (List.filter
                 (kept (engine st)
                    (mdreq_Filter (first_discovery_request (engine st))))
                 mds)) in
  exists st',
    generatetimeSeriesConfs startTime endTime st
    = Some ((Some ret, None), st') /\
    timeSeriesConfCache_ (engine st')
    = Some {| Generated :=
                now_at (world st) (ticks (world (after_check st)));
              TimeSeriesConfs := Some ret;
              TTL := CacheTTL (engine st) |} /\
    calls (world st')
    = (calls (world st) ++
       [Call_ListMetricDescriptors (first_discovery_request (engine st))])%list
    /\
    acc st' = acc st.
Proof.
  intros Hmiss Hc Hdone Hmds. cbv zeta.
  destruct (discovery_filters_cons (engine st)) as (filter & rest & Hf).
  assert (first_discovery_request (engine st)
          = discovery_request (engine st) filter) as Hreq
    by (unfold first_discovery_request, discovery_request; now rewrite Hf).
  rewrite Hreq in *. cbn [mdreq_Filter discovery_request].
  destruct (generatetimeSeriesConfs_run true startTime endTime st c
              Hmiss Hc Hdone)
    as (st' & Hrun & Hcache & Hcalls & Hacc).
  { rewrite Hf. cbn [handled take]. repeat constructor. now exists mds. }
  rewrite Hf in Hrun, Hcache, Hcalls.
  unfold discovered in Hrun, Hcache.
  cbn [handled take flat_map map] in Hrun, Hcache, Hcalls.
  rewrite app_nil_r in Hrun, Hcache.
  assert (listed c (engine st) filter = mds) as Hlisted
    by (unfold listed; now rewrite Hmds).
  rewrite Hlisted in Hrun, Hcache.
  exists st'. now repeat split.
Qed.

Lemma generatetimeSeriesConfs_done_first_descriptor_witness :
  let st := done_State busy_client in
  let mds := [ {| md_Type := "custom.googleapis.com/foo/bar";
                  md_ValueType := INT64 |};
               {| md_Type := "custom.googleapis.com/foo/baz";
                  md_ValueType := INT64 |} ] in
  let ret :=
    flat_map (fun md => descriptor_confs (engine st) md 5 7)
      (take 1 (List.filter
                 (kept (engine st)
                    (mdreq_Filter
                       (first_discovery_request (H := Reference.runtime)
                          (engine st))))
                 mds)) in
  exists st',
    generatetimeSeriesConfs (H := Reference.runtime) 5 7 st
    = Some ((Some ret, None), st') /\
    timeSeriesConfCache_ (engine st')
    = Some {| Generated :=
                now_at (world st) (ticks (world (after_check st)));
              TimeSeriesConfs := Some ret;
              TTL := CacheTTL (engine st) |} /\
    calls (world st')
    = (calls (world st) ++
       [Call_ListMetricDescriptors
          (first_discovery_request (H := Reference.runtime) (engine st))])%list
    /\
    acc st' = acc st.
Proof.
  intros st mds.
  apply (generatetimeSeriesConfs_done_first_descriptor
           (H := Reference.runtime) 5 7 st busy_client mds); reflexivity.
Defined.

Example done_discovery_caches_one_configuration :
  (fun r => fst (fst r)) <$>
    generatetimeSeriesConfs (H := Reference.runtime) 5 7
      (done_State busy_client)
  = Some (Some [newTimeSeriesConf (demo_engine busy_client None)
                  "custom.googleapis.com/foo/bar" 5 7]).
Proof. vm_compute. reflexivity. Qed.

(** ** The filters of discovery *)


(** ** The cache from one call to the next *)

(** X14: What [generatetimeSeriesConfs] returns without an error is kept in the
    cache, and serves the next call: while the cache has not expired at the
    reading of the clock of that call, the call returns the same
    configurations, with the interval of its own window, and makes no API
    call; once it has expired the call is a miss.  With a duration of zero
    or less the cache never serves a call, under a clock that does not go
    back. *)
Theorem generatetimeSeriesConfs_cached_then_reused `{GoRuntime}
    (startTime endTime : Time) (st st1 : State)
    (confs : list timeSeriesConf) :
  generatetimeSeriesConfs startTime endTime st
  = Some ((Some confs, None), st1) ->
  exists cache : timeSeriesConfCache,
    timeSeriesConfCache_ (engine st1) = Some cache /\
    TimeSeriesConfs cache = Some confs /\
    (cache_hit st = false -> TTL cache = CacheTTL (engine st)) /\
    forall (startTime' endTime' : Time) (st2 : State),
      engine st2 = engine st1 ->
      let now := now_at (world st2) (ticks (world st2)) in
      (Time.Sub now (Generated cache) < TTL cache ->
       exists st3,
         generatetimeSeriesConfs startTime' endTime' st2
         = Some ((Some (map (set_confs_Interval
                               (window_interval startTime' endTime'))
                          confs), None), st3) /\
         calls (world st3) = calls (world st2)) /\
      (TTL cache <= Time.Sub now (Generated cache) ->
       cache_hit st2 = false) /\
      (TTL cache <= 0 -> Generated cache <= now -> cache_hit st2 = false).
Proof.
  intros Hrun.
  pose proof (generatetimeSeriesConfs_returns_cache _ _ _ _ _ Hrun)
    as (confs' & generated & ttl & [= <-] & Hcache).
  eexists. split; [exact Hcache |]. split; [reflexivity |]. split.
  { intros Hmiss. rewrite generatetimeSeriesConfs_miss in Hrun by assumption.
    apply Bind_inv in Hrun as (r & st2 & _ & Hrun).
    destruct r as [err | ret0]; [discriminate |].
    unfold store_discovered, Bind in Hrun. rewrite time_Now_run in Hrun.
    injection Hrun as _ <-. cbn in Hcache. now injection Hcache as _ _ <-. }
  intros startTime' endTime' st2 E2. cbn [Generated TTL].
  assert (cache_hit st2
          = (Time.Sub (now_at (world st2) (ticks (world st2))) generated
             <? ttl)) as Hhit
    by (unfold cache_hit; now rewrite E2, Hcache).
  split; [| split].
  - intros Hfresh.
    assert (cache_hit st2 = true) as Hhit'
      by (rewrite Hhit; now apply Z.ltb_lt).
    rewrite (generatetimeSeriesConfs_hit startTime' endTime' st2
               {| Generated := generated; TimeSeriesConfs := Some confs;
                  TTL := ttl |} confs);
      [| now rewrite E2 | reflexivity | exact Hhit'].
    eexists. split; reflexivity.
  - intros Hstale. rewrite Hhit. now apply Z.ltb_ge.
  - intros Hzero Hgen. rewrite Hhit. apply Z.ltb_ge.
    unfold Time.Sub.
    assert (Int.min_int64 < 0 < Int.max_int64)
      by (vm_compute; intuition congruence).
    destruct (Z.ltb_spec (now_at (world st2) (ticks (world st2)) - generated)
                Int.min_int64); [lia |].
    destruct (Z.ltb_spec Int.max_int64
                (now_at (world st2) (ticks (world st2)) - generated)); lia.
Qed.

Lemma generatetimeSeriesConfs_cached_then_reused_witness :
  exists (confs : list timeSeriesConf) (st1 : State),
    generatetimeSeriesConfs (H := Reference.runtime) 5 7
      (demo_State busy_client None) = Some ((Some confs, None), st1) /\
    exists cache : timeSeriesConfCache,
      timeSeriesConfCache_ (engine st1) = Some cache /\
      TimeSeriesConfs cache = Some confs /\
      (cache_hit (demo_State busy_client None) = false ->
       TTL cache = CacheTTL (engine (demo_State busy_client None))) /\
      forall (startTime' endTime' : Time) (st2 : State),
        engine st2 = engine st1 ->
        let now := now_at (world st2) (ticks (world st2)) in
        (Time.Sub now (Generated cache) < TTL cache ->
         exists st3,
           generatetimeSeriesConfs (H := Reference.runtime)
             startTime' endTime' st2
           = Some ((Some (map (set_confs_Interval
                                 (window_interval startTime' endTime'))
                            confs), None), st3) /\
           calls (world st3) = calls (world st2)) /\
        (TTL cache <= Time.Sub now (Generated cache) ->
         cache_hit st2 = false) /\
        (TTL cache <= 0 -> Generated cache <= now -> cache_hit st2 = false).
Proof.
  destruct (generatetimeSeriesConfs_run (H := Reference.runtime) false 5 7
              (demo_State busy_client None) busy_client)
    as (st1 & E & _).
  - reflexivity.
  - reflexivity.
  - intros n. reflexivity.
  - repeat constructor. now eexists.
  - eexists _, st1. split; [exact E |].
    exact (generatetimeSeriesConfs_cached_then_reused
             (H := Reference.runtime) 5 7 _ _ _ E).
Defined.

(** ** Bucket counts and the layout *)

Definition with_BucketCounts (metric : Distribution) (counts : list Z)
  : Distribution :=
  {| Count := Count metric; Mean := Mean metric;
     SumOfSquaredDeviation := SumOfSquaredDeviation metric;
     Range := Range metric; BucketOptions_ := BucketOptions_ metric;
     BucketCounts := counts |}.

Lemma int32_len {A} (l : list A) :
  len l <= Int.max_int32 -> Int.int32 (len l) = len l.
Proof.
  intros Hle. apply IntFacts.int32_id. pose proof (len_nonneg l).
  unfold Int.in_int32, Int.min_int32, Int.max_int32 in *. lia.
Qed.

Lemma localCount_lookup (metric : Distribution) (i : Z) :
  len (BucketCounts metric) <= Int.max_int32 -> 0 <= i ->
  localCount metric i = default 0 (BucketCounts metric !! Z.to_nat i).
Proof.
  intros Hle Hi. unfold localCount, index. rewrite int32_len by assumption.
  destruct (Z.ltb_spec i (len (BucketCounts metric))) as [Hlt | Hge].
  - destruct (Z.leb_spec 0 i); [reflexivity | lia].
  - rewrite lookup_ge_None_2; [reflexivity |]. unfold len in Hge. lia.
Qed.

Section Layout.

Context `{GoRuntime}.

(** The bucket map is a function of the local counts of the buckets of the
    layout. *)
Lemma distributionToCircHisto_local_counts
    (metric metric' : Distribution) (options : BucketOptions) :
  (forall i, 0 <= i < bucket_total options ->
             localCount metric' i = localCount metric i) ->
  distributionToCircHisto metric' (Some options)
  = distributionToCircHisto metric (Some options).
Proof.
  intros Hsame.
  destruct (distributionToCircHisto_run_spec metric options)
    as (h & Hh & [_ Hval] & _).
  destruct (distributionToCircHisto_run_spec metric' options)
    as (h' & Hh' & [_ Hval'] & _).
  unfold distributionToCircHisto. rewrite Hh, Hh'. cbn. f_equal.
  assert (forall k c,
             bucket_at metric' options (bucket_total options) k c <->
             bucket_at metric options (bucket_total options) k c) as Hiff.
  { intros k c. unfold bucket_at.
    split; intros (i & Hi & Hpos & Hc & Hk & Hlast); exists i.
    - rewrite (Hsame i Hi) in Hpos, Hc.
      repeat split; try assumption; try lia.
      intros j Hj Hjpos. apply Hlast; [lia |]. rewrite Hsame by lia.
      exact Hjpos.
    - rewrite <- (Hsame i Hi) in Hpos, Hc.
      repeat split; try assumption; try lia.
      intros j Hj Hjpos. apply Hlast; [lia |]. rewrite <- Hsame by lia.
      exact Hjpos. }
  apply map_eq. intros k.
  destruct (ret h' !! k) as [c' |] eqn:E'.
  - symmetry. apply Hval, Hiff, Hval'. exact E'.
  - destruct (ret h !! k) as [c |] eqn:E; [| reflexivity].
    apply Hval, Hiff, Hval' in E. congruence.
Qed.

Lemma distributionToCircHisto_empty
    (metric : Distribution) (options : BucketOptions) :
  distributionToCircHisto metric (Some options) = Some ∅ <->
  forall i, 0 <= i < bucket_total options -> localCount metric i <= 0.
Proof.
  destruct (distributionToCircHisto_run_spec metric options)
    as (h & Hh & [Hdom _] & _).
  unfold distributionToCircHisto. rewrite Hh. cbn. split.
  - intros [= Hempty] i Hi.
    destruct (Z.le_gt_cases (localCount metric i) 0) as [Hle | Hgt];
      [exact Hle | exfalso].
    assert (is_Some (ret h !! fmt_e (bound options i))) as [c Hc].
    { apply Hdom. exists i. repeat split; [lia | lia | lia]. }
    rewrite Hempty, lookup_empty in Hc. discriminate.
  - intros Hnone. f_equal. apply map_empty. intros k.
    destruct (ret h !! k) as [c |] eqn:E; [| reflexivity]. exfalso.
    assert (is_Some (ret h !! k)) as Hk by eauto.
    apply Hdom in Hk as (i & Hi & Hpos & _).
    specialize (Hnone i Hi). lia.
Qed.

End Layout.

(** X15: The bucket counts at or past the number of buckets of the layout are
    ignored, and the counts that are missing at the end count as zero: the
    bucket map of a distribution is that of the distribution whose counts
    are cut at the number of buckets, and that of the distribution with
    zeros added to its counts.  The bucket map is empty if and only if no
    count below the number of buckets is positive. *)
Theorem distributionToCircHisto_counts_and_layout `{GoRuntime}
    (metric : Distribution) (options : BucketOptions) (zeros : nat) :
  len (BucketCounts metric) + Z.of_nat zeros <= Int.max_int32 ->
  distributionToCircHisto
    (with_BucketCounts metric
       (take (Z.to_nat (bucket_total options)) (BucketCounts metric)))
    (Some options)
  = distributionToCircHisto metric (Some options) /\
  distributionToCircHisto
    (with_BucketCounts metric (BucketCounts metric ++ repeat 0 zeros))
    (Some options)
  = distributionToCircHisto metric (Some options) /\
  (distributionToCircHisto metric (Some options) = Some ∅ <->
   forall (i : nat) (c : Z),
     Z.of_nat i < bucket_total options ->
     BucketCounts metric !! i = Some c -> c <= 0).
Proof.
  intros Hlen.
  assert (len (BucketCounts metric) <= Int.max_int32) as Hle by lia.
  split; [| split].
  - apply distributionToCircHisto_local_counts. intros i Hi.
    rewrite !localCount_lookup; try lia.
    + cbn [with_BucketCounts BucketCounts].
      rewrite lookup_take_lt by lia. reflexivity.
    + cbn [with_BucketCounts BucketCounts]. unfold len in *.
      rewrite length_take. lia.
  - apply distributionToCircHisto_local_counts. intros i Hi.
    rewrite !localCount_lookup; try lia.
    + cbn [with_BucketCounts BucketCounts].
      destruct (BucketCounts metric !! Z.to_nat i) as [c |] eqn:E.
      * now rewrite (lookup_app_l_Some _ _ _ _ E).
      * apply lookup_ge_None in E. rewrite lookup_app_r by assumption.
        destruct (repeat 0 zeros
                    !! (Z.to_nat i - length (BucketCounts metric))%nat)
          as [z |] eqn:Ez; [| reflexivity].
        apply list_elem_of_lookup_2, list_elem_of_In, repeat_spec in Ez.
        now subst z.
    + cbn [with_BucketCounts BucketCounts]. unfold len in *.
      rewrite length_app, repeat_length. lia.
  - rewrite distributionToCircHisto_empty. split.
    + intros Hnone i c Hi Hc.
      specialize (Hnone (Z.of_nat i)).
      rewrite localCount_lookup, Nat2Z.id, Hc in Hnone by lia.
      apply Hnone. lia.
    + intros Hnone i Hi. rewrite localCount_lookup by lia.
      destruct (BucketCounts metric !! Z.to_nat i) as [c |] eqn:E;
        [| cbn; lia].
      cbn. apply (Hnone (Z.to_nat i) c); [lia | exact E].
Qed.

Lemma distributionToCircHisto_counts_and_layout_witness :
  distributionToCircHisto (H := Reference.runtime)
    (with_BucketCounts cumulative_sample
       (take (Z.to_nat (bucket_total (LinearBuckets 1 1 0)))
          (BucketCounts cumulative_sample)))
    (Some (LinearBuckets 1 1 0))
  = distributionToCircHisto (H := Reference.runtime) cumulative_sample
      (Some (LinearBuckets 1 1 0)) /\
  distributionToCircHisto (H := Reference.runtime)
    (with_BucketCounts cumulative_sample
       (BucketCounts cumulative_sample ++ repeat 0 2))
    (Some (LinearBuckets 1 1 0))
  = distributionToCircHisto (H := Reference.runtime) cumulative_sample
      (Some (LinearBuckets 1 1 0)) /\
  (distributionToCircHisto (H := Reference.runtime) cumulative_sample
     (Some (LinearBuckets 1 1 0)) = Some ∅ <->
   forall (i : nat) (c : Z),
     Z.of_nat i < bucket_total (LinearBuckets 1 1 0) ->
     BucketCounts cumulative_sample !! i = Some c -> c <= 0).
Proof.
  apply (distributionToCircHisto_counts_and_layout (H := Reference.runtime)
           cumulative_sample (LinearBuckets 1 1 0) 2).
  vm_compute. discriminate.
Defined.

Example excess_counts_ignored :
  distributionToCircHisto (H := Reference.runtime)
    (with_BucketCounts cumulative_sample [0; 3; 2; 7; 7])
    (Some (LinearBuckets 1 1 0))
  = distributionToCircHisto (H := Reference.runtime) cumulative_sample
      (Some (LinearBuckets 1 1 0)).
Proof. vm_compute. reflexivity. Qed.

(** ** The calls of the fetch tasks, none lost, none stuck *)

Module Completion.

Import Locking.

(** The calls a task has still to hand to the embedded grouper. *)
Definition remaining (f : fetcher) : list GrouperAdd :=
  match at_ f with
  | Written => tail (pending f)
  | _ => pending f
  end.

(** The calls the embedded grouper has completed, and those that remain,
    are the calls of the tasks. *)
Definition accounted (programs : list (list GrouperAdd)) (σ : system) : Prop :=
  SeriesGrouper σ ++ concat (remaining <$> fetchers σ) ≡ₚ concat programs.

(** The holder of the mutex is a task inside a call. *)
Definition holder_busy (σ : system) : Prop :=
  forall t, Mutex σ = Some t ->
            exists f a rest,
              fetchers σ !! t = Some f /\ at_ f <> Outside /\
              pending f = a :: rest.

Lemma remaining_insert_same (l : list fetcher) (t : nat) (f g : fetcher) :
  l !! t = Some f -> remaining g = remaining f ->
  remaining <$> <[t := g]> l = remaining <$> l.
Proof.
  intros Ht Hsame. rewrite list_fmap_insert, Hsame.
  apply list_insert_id. now rewrite list_lookup_fmap, Ht.
Qed.

Lemma concat_insert_tail (ls : list (list GrouperAdd)) (t : nat)
    (a : GrouperAdd) (rest : list GrouperAdd) :
  ls !! t = Some (a :: rest) ->
  a :: concat (<[t := rest]> ls) ≡ₚ concat ls.
Proof.
  intros Ht. rewrite <- (take_drop_middle ls t (a :: rest) Ht) at 2.
  rewrite insert_take_drop by (now apply lookup_lt_Some in Ht).
  rewrite !concat_app, !concat_cons.
  rewrite (Permutation_middle (concat (take t ls))
             (rest ++ concat (drop (S t) ls)) a).
  reflexivity.
Qed.

Lemma accounted_start (programs : list (list GrouperAdd)) :
  accounted programs (start programs).
Proof.
  unfold accounted, start. cbn [SeriesGrouper fetchers app].
  rewrite <- list_fmap_compose.
  replace (remaining ∘ (fun adds => {| at_ := Outside; pending := adds |}))
    with (@id (list GrouperAdd)) by reflexivity.
  now rewrite list_fmap_id.
Qed.

Lemma accounted_step (programs : list (list GrouperAdd)) (σ σ' : system)
    (l : nat * action) :
  accounted programs σ -> step σ l σ' -> accounted programs σ'.
Proof.
  unfold accounted. intros Hinv Hstep.
  destruct Hstep as [σ t a rest Ht Hfree | σ t a rest Ht | σ t a rest Ht
                    | σ t a rest Ht];
    cbn [SeriesGrouper fetchers].
  - now rewrite (remaining_insert_same _ _ _
                   {| at_ := Locked; pending := a :: rest |} Ht eq_refl).
  - now rewrite (remaining_insert_same _ _ _
                   {| at_ := Writing; pending := a :: rest |} Ht eq_refl).
  - rewrite <- Hinv.
    rewrite list_fmap_insert. cbn [remaining at_ pending tail].
    rewrite <- app_assoc. apply Permutation_app_head. cbn [app].
    apply concat_insert_tail. now rewrite list_lookup_fmap, Ht.
  - now rewrite (remaining_insert_same _ _ _
                   {| at_ := Outside; pending := rest |} Ht eq_refl).
Qed.

Lemma accounted_reachable (programs : list (list GrouperAdd)) (σ : system) :
  reachable programs σ -> accounted programs σ.
Proof.
  revert σ. unfold reachable. apply rtc_ind_r.
  - apply accounted_start.
  - intros σ σ' _ [l Hstep] IH. eapply accounted_step; eassumption.
Qed.

Lemma holder_busy_step (σ σ' : system) (l : nat * action) :
  holder_busy σ -> step σ l σ' -> holder_busy σ'.
Proof.
  intros Hinv Hstep u Hu.
  destruct Hstep as [σ t a rest Ht Hfree | σ t a rest Ht | σ t a rest Ht
                    | σ t a rest Ht];
    cbn [Mutex fetchers] in *; try discriminate;
    (destruct (decide (u = t)) as [-> | Hne];
     [ rewrite list_lookup_insert_eq by (now apply lookup_lt_Some in Ht);
       eexists _, a, rest; repeat split; discriminate
     | rewrite list_lookup_insert_ne by congruence ]).
  - congruence.
  - now apply Hinv.
  - now apply Hinv.
Qed.

Lemma holder_busy_reachable (programs : list (list GrouperAdd)) (σ : system) :
  reachable programs σ -> holder_busy σ.
Proof.
  revert σ. unfold reachable. apply rtc_ind_r.
  - intros t Ht. discriminate.
  - intros σ σ' _ [l Hstep] IH. eapply holder_busy_step; eassumption.
Qed.

(** X16: In every state that the fetch tasks of a cycle can reach, the calls
    that the embedded grouper has completed, together with those the tasks
    have still to make, are the calls of the tasks, each as often as it is
    made: none is lost and none is made twice.  When every task is through,
    the grouper has received the calls of all the tasks. *)
Theorem lockedSeriesGrouper_Add_none_lost
    (programs : list (list GrouperAdd)) (σ : system) :
  reachable programs σ ->
  SeriesGrouper σ ++ concat (remaining <$> fetchers σ) ≡ₚ concat programs /\
  (Forall (fun f => pending f = []) (fetchers σ) ->
   SeriesGrouper σ ≡ₚ concat programs).
Proof.
  intros Hreach. pose proof (accounted_reachable _ _ Hreach) as Hacc.
  split; [exact Hacc |].
  intros Hthrough. unfold accounted in Hacc.
  assert (concat (remaining <$> fetchers σ) = []) as Hnil.
  { clear Hacc. induction Hthrough as [| f fs Hf _ IH]; [reflexivity |].
    rewrite fmap_cons, concat_cons, IH, app_nil_r.
    unfold remaining. rewrite Hf. now destruct (at_ f). }
  now rewrite Hnil, app_nil_r in Hacc.
Qed.

Lemma lockedSeriesGrouper_Add_none_lost_witness :
  let a := {| add_measurement := "m"; add_tags := ∅; add_tm := 0;
              add_field := "f"; add_fieldValue := V_int 1 |} in
  let b := {| add_measurement := "m"; add_tags := ∅; add_tm := 0;
              add_field := "g"; add_fieldValue := V_int 2 |} in
  let σ := {| Mutex := None;
              fetchers := [ {| at_ := Outside; pending := [] |};
                            {| at_ := Outside; pending := [] |} ];
              SeriesGrouper := [b; a] |} in
  SeriesGrouper σ ++ concat (remaining <$> fetchers σ)
  ≡ₚ concat [[a]; [b]] /\
  (Forall (fun f => pending f = []) (fetchers σ) ->
   SeriesGrouper σ ≡ₚ concat [[a]; [b]]).
Proof.
  intros a b σ.
  apply (lockedSeriesGrouper_Add_none_lost [[a]; [b]] σ).
  eapply rtc_l; [exists (1%nat, Lock); now eapply step_Lock |].
  eapply rtc_l; [exists (1%nat, Add_begin); now eapply step_Add_begin |].
  eapply rtc_l; [exists (1%nat, Add_end); now eapply step_Add_end |].
  eapply rtc_l; [exists (1%nat, Unlock); now eapply step_Unlock |].
  eapply rtc_l; [exists (O, Lock); now eapply step_Lock |].
  eapply rtc_l; [exists (O, Add_begin); now eapply step_Add_begin |].
  eapply rtc_l; [exists (O, Add_end); now eapply step_Add_end |].
  eapply rtc_l; [exists (O, Unlock); now eapply step_Unlock |].
  apply rtc_refl.
Defined.

(** X17: In every state that the fetch tasks of a cycle can reach, a step can be
    taken as long as a task has a call to make: the tasks do not block one
    another for good at the mutex. *)
Theorem lockedSeriesGrouper_Add_no_deadlock
    (programs : list (list GrouperAdd)) (σ : system) :
  reachable programs σ ->
  (exists t f, fetchers σ !! t = Some f /\ pending f <> []) ->
  exists l σ', step σ l σ'.
Proof.
  intros Hreach (t & f & Hf & Hpending).
  pose proof (holder_busy_reachable _ _ Hreach) as Hbusy.
  pose proof (Exclusion.holder_inside_reachable _ _ Hreach) as Hinside.
  destruct (Mutex σ) as [u |] eqn:Hm.
  - destruct (Hbusy u Hm) as ([pos adds] & a & rest & Hu & Hpos & Hadds).
    cbn in Hpos, Hadds. subst adds.
    destruct pos; [congruence | | |].
    + eexists (u, Add_begin), _. eapply step_Add_begin. exact Hu.
    + eexists (u, Add_end), _. eapply step_Add_end. exact Hu.
    + eexists (u, Unlock), _. eapply step_Unlock. exact Hu.
  - destruct f as [pos adds]. cbn in Hpending.
    destruct adds as [| a rest]; [congruence |].
    assert (pos = Outside) as ->.
    { destruct (Hinside t _ Hf) as [Hin _]. cbn in Hin.
      destruct pos; [reflexivity | | |];
        (assert (@None nat = Some t) as Habs
           by (rewrite <- Hm; apply Hin; discriminate); discriminate). }
    eexists (t, Lock), _. eapply step_Lock; [exact Hf | exact Hm].
Qed.

Lemma lockedSeriesGrouper_Add_no_deadlock_witness :
  let a := {| add_measurement := "m"; add_tags := ∅; add_tm := 0;
              add_field := "f"; add_fieldValue := V_int 1 |} in
  let σ := {| Mutex := Some 1%nat;
              fetchers := [ {| at_ := Outside; pending := [a] |};
                            {| at_ := Writing; pending := [a] |} ];
              SeriesGrouper := [] |} in
  exists l σ', step σ l σ'.
Proof.
  intros a σ.
  apply (lockedSeriesGrouper_Add_no_deadlock [[a]; [a]] σ).
  - eapply rtc_l; [exists (1%nat, Lock); now eapply step_Lock |].
    eapply rtc_l; [exists (1%nat, Add_begin); now eapply step_Add_begin |].
    apply rtc_refl.
  - exists O, {| at_ := Outside; pending := [a] |}. split; [reflexivity |].
    discriminate.
Defined.

End Completion.
